(** * OpenWhispr capture-and-transcription pipeline: AudioManager

    A shallow embedding of the [AudioManager] class (audioManager.js) and
    machine-checked statements about its voice-activity gate, streaming
    response reader, fallback policy, endpoint resolution, WAV encoder and
    API-key cache.

    Conventions of the embedding.
    - A JavaScript number that holds a measurement (audio level, duration) is
      a rational [Q]; every floating-point operation is the exact operation
      followed by a rounding function [fl], which the development leaves
      arbitrary.  Nothing proved below depends on how [fl] rounds.
    - A JavaScript string is a [string] of bytes; [null] and [undefined] are
      [None].
    - A thrown [Error] is the [Throw] constructor of [jsres], carrying the
      error's [message].
    - Callbacks and calls to collaborators are recorded, in order, in a list
      of events; the event of a callback stands for the call the manager
      makes when the callback is set.
    - Each module holds the fields of the manager that its component reads
      and writes. *)

From stdpp Require Import base option list strings gmap.
From Stdlib Require Import ZArith QArith Qround Lia Bool.
From Stdlib Require Import String Ascii List.
Import ListNotations.

Local Open Scope string_scope.
Local Open Scope list_scope.

(** ** Floating-point numbers *)

(** The rounding applied after each arithmetic operation and to each decimal
    literal.  [fl := fun q => q] gives exact arithmetic. *)
Class Rounding := { fl : Q -> Q }.

Definition Qltb (a b : Q) : bool := negb (Qle_bool b a).
Definition Qleb (a b : Q) : bool := Qle_bool a b.

Lemma Qltb_lt a b : Qltb a b = true <-> (a < b)%Q.
Proof.
  unfold Qltb. rewrite negb_true_iff. split.
  - intros H. apply Qnot_le_lt. intros Hle. apply Qle_bool_iff in Hle. congruence.
  - intros H. destruct (Qle_bool b a) eqn:E; [|reflexivity].
    apply Qle_bool_iff in E. exfalso. revert E. apply Qlt_not_le, H.
Qed.

Lemma Qltb_irrefl a : Qltb a a = false.
Proof.
  destruct (Qltb a a) eqn:E; [|reflexivity].
  apply Qltb_lt in E. exfalso. revert E. apply Qlt_irrefl.
Qed.

Lemma Qltb_le_trans a b c : Qltb a b = true -> Qltb c b = false -> Qltb a c = true.
Proof.
  intros H1 H2. apply Qltb_lt. apply Qltb_lt in H1.
  assert (Hle : (b <= c)%Q).
  { unfold Qltb in H2. apply negb_false_iff in H2. now apply Qle_bool_iff. }
  eapply Qlt_le_trans; eassumption.
Qed.

(** ** Voice activity detection *)

Module VAD.

Section Vad.
Context {R : Rounding}.

(** [VAD_CONFIG]. *)
Definition VOICE_THRESHOLD : Q := fl (4 # 100).
Definition MIN_SPEECH_DURATION : Q := fl (5 # 10).
Definition ANALYSIS_INTERVAL : Q := 50.

(** The VAD fields of the manager: [this.currentAudioLevel],
    [this.peakAudioLevel], [this.voiceDetected], [this.speechDuration],
    [this.lastVoiceTime]. *)
Record state := mkState {
  currentAudioLevel : Q;
  peakAudioLevel : Q;
  voiceDetected : bool;
  speechDuration : Q;
  lastVoiceTime : Z
}.

(** The constructor's values, and the "Reset VAD state" block of
    [startVADMonitoring]. *)
Definition reset : state := mkState 0 0 false 0 0.

(** The object handed to [onVADStateChange] on every tick. *)
Record notification := mkNotification {
  n_audioLevel : Q;
  n_peakLevel : Q;
  n_voiceDetected : bool;
  n_isVoiceActive : bool;
  n_speechDuration : Q
}.

(** The smoothed level a tick computes:
    [this.currentAudioLevel * 0.7 + rms * 0.3]. *)
Definition smoothed (rms : Q) (s : state) : Q :=
  fl (fl (currentAudioLevel s * fl (7 # 10)) + fl (rms * fl (3 # 10))).

(** One run of the [setInterval] callback.  [rms] is the root mean square of
    the analyser's frequency data, [now] the value of [Date.now()]. *)
Definition tick (rms : Q) (now : Z) (s : state) : state * notification :=
  let level := smoothed rms s in
  let peak := if Qltb (peakAudioLevel s) level then level else peakAudioLevel s in
  let isVoiceNow := Qltb VOICE_THRESHOLD level in
  let s' :=
    if isVoiceNow then
      mkState level peak true
              (fl (speechDuration s + fl (ANALYSIS_INTERVAL / 1000))) now
    else
      mkState level peak (voiceDetected s) (speechDuration s) (lastVoiceTime s) in
  (s', mkNotification (currentAudioLevel s') (peakAudioLevel s') (voiceDetected s')
                      isVoiceNow (speechDuration s')).

(** A session's ticks, oldest first; each carries its sample and its clock. *)
Fixpoint run (ticks : list (Q * Z)) (s : state) : state :=
  match ticks with
  | [] => s
  | (rms, now) :: rest => run rest (fst (tick rms now s))
  end.

(** The smoothed levels seen along a run, oldest first. *)
Fixpoint levels (ticks : list (Q * Z)) (s : state) : list Q :=
  match ticks with
  | [] => []
  | (rms, now) :: rest => smoothed rms s :: levels rest (fst (tick rms now s))
  end.

(** What can happen to the VAD fields over the life of a manager: a session
    starts and [startVADMonitoring] resets them, or the timer fires.  (When
    [startVADMonitoring] fails before its reset, the fields keep the values
    of the previous session and no timer runs.) *)
Inductive step :=
| Reset
| Tick (rms : Q) (now : Z).

Definition exec1 (e : step) (s : state) : state :=
  match e with
  | Reset => reset
  | Tick rms now => fst (tick rms now s)
  end.

Fixpoint exec (h : list step) (s : state) : state :=
  match h with
  | [] => s
  | e :: rest => exec rest (exec1 e s)
  end.

(** The statistics [stopVADMonitoring] returns. *)
Record stats := mkStats {
  st_peakLevel : Q;
  st_voiceDetected : bool;
  st_speechDuration : Q
}.

Definition stopVADMonitoring (s : state) : state * stats :=
  (s, mkStats (peakAudioLevel s) (voiceDetected s) (speechDuration s)).

Definition hasValidAudioContent (s : state) : bool :=
  voiceDetected s
  && Qleb MIN_SPEECH_DURATION (speechDuration s)
  && Qltb VOICE_THRESHOLD (peakAudioLevel s).

(** *** The latch *)

Lemma tick_voice rms now s :
  Qltb VOICE_THRESHOLD (smoothed rms s) = true ->
  voiceDetected (fst (tick rms now s)) = true.
Proof. intros H. unfold tick. cbn. rewrite H. reflexivity. Qed.

Lemma tick_latch rms now s :
  voiceDetected s = true -> voiceDetected (fst (tick rms now s)) = true.
Proof.
  intros H. unfold tick. cbn.
  destruct (Qltb VOICE_THRESHOLD (smoothed rms s)); cbn; [reflexivity | exact H].
Qed.

Lemma run_latch ticks : forall s,
  voiceDetected s = true -> voiceDetected (run ticks s) = true.
Proof.
  induction ticks as [|[rms now] rest IH]; intros s H; cbn; [exact H|].
  apply IH, tick_latch, H.
Qed.

Lemma run_app t1 t2 s : run (t1 ++ t2) s = run t2 (run t1 s).
Proof.
  revert s. induction t1 as [|[rms now] rest IH]; intros s; cbn; [reflexivity|].
  apply IH.
Qed.

Lemma tick_quiet rms now s :
  Qltb VOICE_THRESHOLD (smoothed rms s) = false ->
  voiceDetected (fst (tick rms now s)) = voiceDetected s
  /\ speechDuration (fst (tick rms now s)) = speechDuration s.
Proof. intros H. unfold tick. cbn. rewrite H. split; reflexivity. Qed.

Lemma run_quiet ticks : forall s,
  Forall (fun l => Qltb VOICE_THRESHOLD l = false) (levels ticks s) ->
  voiceDetected (run ticks s) = voiceDetected s
  /\ speechDuration (run ticks s) = speechDuration s.
Proof.
  induction ticks as [|[rms now] rest IH]; intros s H; [split; reflexivity|].
  change (Forall (fun l => Qltb VOICE_THRESHOLD l = false)
            (smoothed rms s :: levels rest (fst (tick rms now s)))) in H.
  change (run ((rms, now) :: rest) s) with (run rest (fst (tick rms now s))).
  apply Forall_cons_iff in H as [H1 H2].
  destruct (tick_quiet rms now s H1) as [Hv Hd].
  destruct (IH _ H2) as [Hv' Hd'].
  rewrite Hv', Hd', Hv, Hd. split; reflexivity.
Qed.

(** *** The peak dominates the threshold once voice was detected *)

Definition peak_inv (s : state) : Prop :=
  voiceDetected s = true -> Qltb VOICE_THRESHOLD (peakAudioLevel s) = true.

Lemma peak_inv_reset : peak_inv reset.
Proof. unfold peak_inv. cbn. discriminate. Qed.

Lemma peak_inv_tick rms now s : peak_inv s -> peak_inv (fst (tick rms now s)).
Proof.
  unfold peak_inv, tick. cbn. intros IH.
  destruct (Qltb VOICE_THRESHOLD (smoothed rms s)) eqn:Hv; cbn.
  - intros _. destruct (Qltb (peakAudioLevel s) (smoothed rms s)) eqn:Hp.
    + exact Hv.
    + eapply Qltb_le_trans; eassumption.
  - intros Hd. specialize (IH Hd).
    destruct (Qltb (peakAudioLevel s) (smoothed rms s)) eqn:Hp; [|exact IH].
    apply Qltb_lt. apply Qltb_lt in IH, Hp. eapply Qlt_trans; eassumption.
Qed.

Lemma peak_inv_exec h : forall s, peak_inv s -> peak_inv (exec h s).
Proof.
  induction h as [|e rest IH]; intros s H; cbn; [exact H|].
  apply IH. destruct e; cbn; [apply peak_inv_reset | apply peak_inv_tick, H].
Qed.

(** C9. In a session (the fields reset, then any ticks): a tick whose
    smoothed level exceeds the threshold sets [voiceDetected], and it stays
    set on every later tick; from any state, a set [voiceDetected] survives
    every further tick; and when no tick's smoothed level exceeds the
    threshold, [voiceDetected] is still false and [speechDuration] still 0. *)
Theorem voiceDetected_monotone_latch
    (pre post ticks : list (Q * Z)) (rms : Q) (now : Z) :
  (Qltb VOICE_THRESHOLD (smoothed rms (run pre reset)) = true ->
     voiceDetected (run (pre ++ [(rms, now)]) reset) = true
     /\ voiceDetected (run (pre ++ (rms, now) :: post) reset) = true)
  /\ (forall s, voiceDetected s = true -> voiceDetected (run post s) = true)
  /\ (Forall (fun l => Qltb VOICE_THRESHOLD l = false) (levels ticks reset) ->
       voiceDetected (run ticks reset) = false
       /\ speechDuration (run ticks reset) = 0%Q).
Proof.
  split; [|split].
  - intros Hv.
    assert (H1 : voiceDetected (run (pre ++ [(rms, now)]) reset) = true).
    { rewrite run_app. apply tick_voice, Hv. }
    split; [exact H1|].
    change (pre ++ (rms, now) :: post) with (pre ++ [(rms, now)] ++ post).
    rewrite app_assoc, run_app. apply run_latch, H1.
  - intros s. apply run_latch.
  - intros Hq. apply run_quiet in Hq. exact Hq.
Qed.

End Vad.

(** Exact arithmetic: no rounding at all. *)
Definition exact : Rounding := {| fl := fun q => q |}.

Lemma voiceDetected_monotone_latch_witness :
  voiceDetected
    (run (R := exact) ([(0%Q, 1%Z)] ++ (1%Q, 2%Z) :: [(0%Q, 3%Z)]) reset) = true
  /\ (voiceDetected (run (R := exact) [(0%Q, 1%Z); (0%Q, 2%Z)] reset) = false
      /\ speechDuration (run (R := exact) [(0%Q, 1%Z); (0%Q, 2%Z)] reset) = 0%Q).
Proof.
  pose proof (voiceDetected_monotone_latch (R := exact)
                [(0%Q, 1%Z)] [(0%Q, 3%Z)] [(0%Q, 1%Z); (0%Q, 2%Z)] 1%Q 2%Z) as [H1 [_ H3]].
  split.
  - apply H1. vm_compute. reflexivity.
  - apply H3. repeat constructor.
Defined.

End VAD.

(** ** Recording session controller *)

Module Controller.

Section Controller.
Context {R : Rounding}.

(** A [Blob]: its parts in order and its MIME type. *)
Record blob := mkBlob {
  blob_parts : list string;
  blob_type : string
}.

(** The session fields of the manager, with its VAD fields. *)
Record manager := mkManager {
  isRecording : bool;
  isProcessing : bool;
  recordingStartTime : option Z;
  recordingMimeType : string;
  audioChunks : list string;
  vad : VAD.state
}.

Definition set_vad (m : manager) (v : VAD.state) : manager :=
  mkManager (isRecording m) (isProcessing m) (recordingStartTime m)
            (recordingMimeType m) (audioChunks m) v.

(** What the handler does to the outside, in order. *)
Inductive event :=
| StateChange (recording processing : bool)   (* [this.onStateChange] *)
| NoAudioDetected                             (* [this.onNoAudioDetected] *)
| ProcessAudio (audio : blob) (durationSeconds : option Q) (vadStats : VAD.stats)
                                              (* [this.processAudio] is called *)
| TracksStopped.                              (* every track of the stream is stopped *)

(** [this.recordingStartTime ? (Date.now() - this.recordingStartTime) / 1000 : null] *)
Definition durationSeconds (now : Z) (start : option Z) : option Q :=
  match start with
  | Some t => if (t =? 0)%Z then None else Some (fl (inject_Z (now - t) / 1000))
  | None => None
  end.

(** The [mediaRecorder.onstop] handler installed by [startRecording], up to
    and including its call of [processAudio] (the last event, when there is
    one).  [now] is the value of [Date.now()]. *)
Definition onstop (now : Z) (m : manager) : manager * list event :=
  let '(v, vadStats) := VAD.stopVADMonitoring (vad m) in
  let audioBlob := mkBlob (audioChunks m) (recordingMimeType m) in
  let duration := durationSeconds now (recordingStartTime m) in
  if negb (VAD.st_voiceDetected vadStats)
     || Qltb (VAD.st_speechDuration vadStats) VAD.MIN_SPEECH_DURATION
  then
    (mkManager false false None (recordingMimeType m) (audioChunks m) v,
     [StateChange false false; NoAudioDetected; TracksStopped])
  else
    (mkManager false true None (recordingMimeType m) (audioChunks m) v,
     [StateChange false true; ProcessAudio audioBlob duration vadStats]).

(** The rest of the handler, once [processAudio] has settled. *)
Definition onstop_resume (m : manager) : manager * list event :=
  (m, [TracksStopped]).

(** The handler [cancelRecording] installs in place of the one above. *)
Definition onstop_cancelled (m : manager) : manager * list event :=
  (mkManager false false None (recordingMimeType m) [] (vad m),
   [StateChange false false]).

(** On the VAD fields a manager can hold, the handler's own test and
    [hasValidAudioContent] agree. *)
Lemma gate_agrees (v : VAD.state) :
  VAD.peak_inv v ->
  negb (negb (VAD.voiceDetected v)
        || Qltb (VAD.speechDuration v) VAD.MIN_SPEECH_DURATION)
  = VAD.hasValidAudioContent v.
Proof.
  intros Hinv. unfold VAD.hasValidAudioContent, Qleb, Qltb.
  rewrite negb_orb, !negb_involutive.
  destruct (VAD.voiceDetected v) eqn:Hv; cbn; [|reflexivity].
  unfold VAD.peak_inv in Hinv. specialize (Hinv Hv). unfold Qltb in Hinv.
  rewrite Hinv, andb_true_r. reflexivity.
Qed.

(** C1. When a recording stops, the handler takes the final VAD statistics;
    [hasValidAudioContent] is [voiceDetected && speechDuration >= 0.5 &&
    peak > 0.04]; on the VAD fields of any manager history (sessions
    resetting them, timer ticks updating them) the handler enters Processing
    and calls [processAudio] exactly when [hasValidAudioContent] is true, and
    otherwise returns to Idle and fires [onNoAudioDetected], calling nothing
    else.  The handler itself tests [voiceDetected] and [speechDuration]
    only; the test on the peak holds whenever [voiceDetected] is set
    ([VAD.peak_inv]). *)
Theorem onstop_gated_by_hasValidAudioContent
    (h : list VAD.step) (m : manager) (now : Z) :
  let v := VAD.exec h VAD.reset in
  let m' := set_vad m v in
  VAD.hasValidAudioContent v
  = VAD.voiceDetected v
    && Qleb VAD.MIN_SPEECH_DURATION (VAD.speechDuration v)
    && Qltb VAD.VOICE_THRESHOLD (VAD.peakAudioLevel v)
  /\ (if VAD.hasValidAudioContent v then
        isRecording (fst (onstop now m')) = false
        /\ isProcessing (fst (onstop now m')) = true
        /\ snd (onstop now m')
           = [StateChange false true;
              ProcessAudio (mkBlob (audioChunks m) (recordingMimeType m))
                           (durationSeconds now (recordingStartTime m))
                           (snd (VAD.stopVADMonitoring v))]
      else
        isRecording (fst (onstop now m')) = false
        /\ isProcessing (fst (onstop now m')) = false
        /\ snd (onstop now m') = [StateChange false false; NoAudioDetected; TracksStopped]).
Proof.
  intros v m'. split; [reflexivity|].
  assert (Hinv : VAD.peak_inv v) by apply VAD.peak_inv_exec, VAD.peak_inv_reset.
  pose proof (gate_agrees v Hinv) as Hg.
  unfold onstop. cbn [VAD.stopVADMonitoring VAD.st_voiceDetected VAD.st_speechDuration
                      m' set_vad vad audioChunks recordingMimeType recordingStartTime].
  destruct (VAD.hasValidAudioContent v);
    [apply negb_true_iff in Hg | apply negb_false_iff in Hg];
    rewrite Hg; cbn; repeat split; reflexivity.
Qed.

End Controller.

(** Twenty loud ticks, then stop: the recording is processed.  Two loud
    ticks, or none: no audio. *)
Definition loud (n : nat) : list VAD.step := repeat (VAD.Tick 1 0) n.

Definition at_stop (h : list VAD.step) : manager :=
  mkManager true false None "audio/webm" [] (VAD.exec (R := VAD.exact) h VAD.reset).

Example stop_after_speech :
  map (fun h =>
         (VAD.hasValidAudioContent (R := VAD.exact) (vad (at_stop h)),
          isProcessing (fst (onstop (R := VAD.exact) 0 (at_stop h))),
          match snd (onstop (R := VAD.exact) 0 (at_stop h)) with
          | [StateChange false true; ProcessAudio _ _ _] => "processAudio"
          | [StateChange false false; NoAudioDetected; TracksStopped] => "onNoAudioDetected"
          | _ => "other"
          end))
      [loud 20; loud 2; []]
  = [(true, true, "processAudio");
     (false, false, "onNoAudioDetected");
     (false, false, "onNoAudioDetected")].
Proof. vm_compute. reflexivity. Qed.

End Controller.

(** ** JavaScript values *)

(** The outcome of a call that may throw: a value, or the [message] of the
    thrown [Error]. *)
Inductive jsres (A : Type) :=
| Ok (a : A)
| Throw (message : string).
Arguments Ok {A} a.
Arguments Throw {A} message.

Module JS.

(** White space and line terminators that [String.prototype.trim] strips.
    Strings hold the bytes of UTF-8, so a character takes one byte, two or
    three.  In one byte: TAB, LF, VT, FF, CR and SP. *)
Definition is_space (c : ascii) : bool :=
  match c with
  | "009"%char | "010"%char | "011"%char | "012"%char | "013"%char | " "%char => true
  | _ => false
  end.

(** In two bytes: U+00A0, the no-break space. *)
Definition is_space2 (a b : ascii) : bool :=
  (N_of_ascii a =? 194)%N && (N_of_ascii b =? 160)%N.

(** In three bytes: U+1680, U+2000 to U+200A, U+2028, U+2029, U+202F,
    U+205F, U+3000 and U+FEFF. *)
Definition is_space3 (a b c : ascii) : bool :=
  let x := N_of_ascii a in
  let y := N_of_ascii b in
  let z := N_of_ascii c in
  ((x =? 225) && (y =? 154) && (z =? 128)
   || (x =? 226) && (y =? 128)
      && ((128 <=? z) && (z <=? 138) || (z =? 168) || (z =? 169) || (z =? 175))
   || (x =? 226) && (y =? 129) && (z =? 159)
   || (x =? 227) && (y =? 128) && (z =? 128)
   || (x =? 239) && (y =? 187) && (z =? 191))%N.

(** The string is one character of white space. *)
Definition is_white (s : string) : bool :=
  match s with
  | String a EmptyString => is_space a
  | String a (String b EmptyString) => is_space2 a b
  | String a (String b (String c EmptyString)) => is_space3 a b c
  | _ => false
  end.

Fixpoint trimStart (s : string) : string :=
  match s with
  | EmptyString => EmptyString
  | String a r =>
      if is_space a then trimStart r
      else
        match r with
        | String b r2 =>
            if is_space2 a b then trimStart r2
            else
              match r2 with
              | String c r3 => if is_space3 a b c then trimStart r3 else s
              | EmptyString => s
              end
        | EmptyString => s
        end
  end.

(** From the end: what is left of the tail, with its first byte before it,
    is white space when the string ends in it. *)
Fixpoint trimEnd (s : string) : string :=
  match s with
  | EmptyString => EmptyString
  | String c r =>
      let r' := trimEnd r in
      if is_white (String c r') then EmptyString else String c r'
  end.

Definition trim (s : string) : string := trimEnd (trimStart s).

(** [s.startsWith(p)] *)
Fixpoint startsWith (p s : string) : bool :=
  match p, s with
  | EmptyString, _ => true
  | String a p', String b s' => Ascii.eqb a b && startsWith p' s'
  | String _ _, EmptyString => false
  end.

(** [s.slice(n)] for [0 <= n]. *)
Fixpoint slice (n : nat) (s : string) : string :=
  match n, s with
  | O, _ => s
  | S n', String _ r => slice n' r
  | S _, EmptyString => EmptyString
  end.

(** [s.split(sep)] for a separator of one character: never empty. *)
Fixpoint split (sep : ascii) (s : string) : list string :=
  match s with
  | EmptyString => [EmptyString]
  | String c r =>
      if Ascii.eqb c sep then EmptyString :: split sep r
      else match split sep r with
           | p :: ps => String c p :: ps
           | [] => [String c EmptyString]
           end
  end.

(** [s.includes(sub)] *)
Fixpoint includes (sub s : string) : bool :=
  startsWith sub s
  || match s with
     | EmptyString => false
     | String _ r => includes sub r
     end.

(** A string is truthy when it is not empty. *)
Definition truthy (s : string) : bool := negb (String.eqb s EmptyString).

(** [o || d] for a string or [null]. *)
Definition or_default (o : option string) (d : string) : string :=
  match o with
  | Some s => if truthy s then s else d
  | None => d
  end.

(** [a ?? b] *)
Definition nullish {A} (a : option A) (b : A) : A :=
  match a with
  | Some x => x
  | None => b
  end.

(** [m] has [x] as a substring. *)
Definition contains (m x : string) : Prop :=
  exists pre post, m = pre +:+ x +:+ post.

(** The string of the given bytes. *)
Definition bytes (l : list N) : string := string_of_list_ascii (map ascii_of_N l).

(** U+00A0, SP, "hi", U+202F, U+FEFF and LF: only "hi" is left.  U+200B,
    the zero width space, is no white space and stays. *)
Example trim_strips_white_space :
  trim (bytes [194; 160; 32; 104; 105; 226; 128; 175; 239; 187; 191; 10]%N) = "hi"
  /\ trim (bytes [226; 128; 139; 104; 105; 32; 226; 128; 139]%N)
     = bytes [226; 128; 139; 104; 105; 32; 226; 128; 139]%N
  /\ trim (bytes [32; 227; 128; 128; 225; 154; 128; 9]%N) = "".
Proof. repeat split. Qed.

End JS.

(** ** [JSON.parse] *)

(** The grammar of ECMA-404: a scanner that reads the text one character at
    a time, then a parser that reads the tokens one at a time with an
    explicit stack of open containers.  Strings hold bytes, so a [\u] escape
    yields the UTF-8 bytes of its character: of its code unit, or of the
    pair of surrogates it completes. *)
Module JSON.

#[local] Set Warnings "-register-all".

Inductive value :=
| Null
| Bool (b : bool)
| Number (lexeme : string)
| Str (s : string)
| Array (items : list value)
| Object (members : list (string * value)).

Inductive token :=
| TLBrace | TRBrace | TLBracket | TRBracket | TColon | TComma
| TString (s : string)
| TNumber (lexeme : string)
| TTrue | TFalse | TNull.

(** *** Numbers

    An optional minus sign; then 0, or a digit from 1 to 9 and any digits;
    then optionally a point and one digit or more; then optionally e or E,
    an optional sign and one digit or more. *)

Inductive nstate := NStart | NMinus | NZero | NInt | NDot | NFrac | NE | NESign | NExp | NBad.

Definition is_digit (c : ascii) : bool :=
  let n := N_of_ascii c in (48 <=? n)%N && (n <=? 57)%N.

Definition nstep (st : nstate) (c : ascii) : nstate :=
  let d := is_digit c in
  let z := Ascii.eqb c "0" in
  match st with
  | NStart => if Ascii.eqb c "-" then NMinus else if z then NZero else if d then NInt else NBad
  | NMinus => if z then NZero else if d then NInt else NBad
  | NZero =>
      if Ascii.eqb c "." then NDot
      else if Ascii.eqb c "e" || Ascii.eqb c "E" then NE else NBad
  | NInt =>
      if d then NInt
      else if Ascii.eqb c "." then NDot
      else if Ascii.eqb c "e" || Ascii.eqb c "E" then NE else NBad
  | NDot => if d then NFrac else NBad
  | NFrac => if d then NFrac else if Ascii.eqb c "e" || Ascii.eqb c "E" then NE else NBad
  | NE => if Ascii.eqb c "+" || Ascii.eqb c "-" then NESign else if d then NExp else NBad
  | NESign => if d then NExp else NBad
  | NExp => if d then NExp else NBad
  | NBad => NBad
  end.

Definition is_number (cs : list ascii) : bool :=
  match fold_left nstep cs NStart with
  | NZero | NInt | NFrac | NExp => true
  | _ => false
  end.

Definition is_number_char (c : ascii) : bool :=
  is_digit c || Ascii.eqb c "-" || Ascii.eqb c "+" || Ascii.eqb c "."
  || Ascii.eqb c "e" || Ascii.eqb c "E".

(** *** The scanner *)

Definition hex_digit (c : ascii) : option N :=
  let n := N_of_ascii c in
  if (48 <=? n)%N && (n <=? 57)%N then Some (n - 48)%N
  else if (65 <=? n)%N && (n <=? 70)%N then Some (n - 55)%N
  else if (97 <=? n)%N && (n <=? 102)%N then Some (n - 87)%N
  else None.

(** The UTF-8 bytes of a code unit below 0x10000, last byte first. *)
Definition utf8_rev (cp : N) : list ascii :=
  if (cp <? 128)%N then [ascii_of_N cp]
  else if (cp <? 2048)%N then
    [ascii_of_N (128 + cp mod 64); ascii_of_N (192 + cp / 64)]
  else
    [ascii_of_N (128 + cp mod 64); ascii_of_N (128 + (cp / 64) mod 64);
     ascii_of_N (224 + cp / 4096)].

(** The UTF-8 bytes of a code point from 0x10000 on, last byte first. *)
Definition utf8_rev4 (cp : N) : list ascii :=
  [ascii_of_N (128 + cp mod 64); ascii_of_N (128 + (cp / 64) mod 64);
   ascii_of_N (128 + (cp / 4096) mod 64); ascii_of_N (240 + cp / 262144)].

(** The code unit of a [\u] escape joins the string read so far (last byte
    first).  A low surrogate that follows a high surrogate is one character
    with it, of four bytes; the three bytes ED A0..AF 80..BF are a high
    surrogate, which only an escape brings. *)
Definition push_unit (cp : N) (acc : list ascii) : list ascii :=
  match acc with
  | l3 :: l2 :: l1 :: rest =>
      let b1 := N_of_ascii l1 in
      let b2 := N_of_ascii l2 in
      let b3 := N_of_ascii l3 in
      let high := (53248 + (b2 - 128) * 64 + (b3 - 128))%N in
      if ((56320 <=? cp) && (cp <? 57344) && (b1 =? 237)
          && (160 <=? b2) && (b2 <? 176) && (128 <=? b3) && (b3 <? 192))%N
      then utf8_rev4 (65536 + (high - 55296) * 1024 + (cp - 56320)) ++ rest
      else utf8_rev cp ++ acc
  | _ => utf8_rev cp ++ acc
  end.

Inductive lstate :=
| LDefault
| LString (acc : list ascii)                  (* inside a string; last character first *)
| LEscape (acc : list ascii)                  (* after a backslash *)
| LUnicode (acc : list ascii) (n : nat) (cp : N)  (* after [\u] and [n] hex digits *)
| LNumber (acc : list ascii)                  (* inside a number; last character first *)
| LLiteral (rest : string) (t : token).       (* inside [true], [false] or [null] *)

Definition of_rev (acc : list ascii) : string := string_of_list_ascii (rev acc).

Definition is_json_space (c : ascii) : bool :=
  match c with
  | " "%char | "009"%char | "010"%char | "013"%char => true
  | _ => false
  end.

(** The scanner between tokens; [out] holds the tokens read, last first. *)
Definition lex_default (c : ascii) (out : list token) : option (lstate * list token) :=
  if is_json_space c then Some (LDefault, out)
  else if Ascii.eqb c "{" then Some (LDefault, TLBrace :: out)
  else if Ascii.eqb c "}" then Some (LDefault, TRBrace :: out)
  else if Ascii.eqb c "[" then Some (LDefault, TLBracket :: out)
  else if Ascii.eqb c "]" then Some (LDefault, TRBracket :: out)
  else if Ascii.eqb c ":" then Some (LDefault, TColon :: out)
  else if Ascii.eqb c "," then Some (LDefault, TComma :: out)
  else if Ascii.eqb c "034" then Some (LString [], out)
  else if Ascii.eqb c "-" || is_digit c then Some (LNumber [c], out)
  else if Ascii.eqb c "t" then Some (LLiteral "rue" TTrue, out)
  else if Ascii.eqb c "f" then Some (LLiteral "alse" TFalse, out)
  else if Ascii.eqb c "n" then Some (LLiteral "ull" TNull, out)
  else None.

Definition lex_step (st : lstate) (c : ascii) (out : list token)
  : option (lstate * list token) :=
  match st with
  | LDefault => lex_default c out
  | LString acc =>
      if Ascii.eqb c "034" then Some (LDefault, TString (of_rev acc) :: out)
      else if Ascii.eqb c "\" then Some (LEscape acc, out)
      else if (N_of_ascii c <? 32)%N then None
      else Some (LString (c :: acc), out)
  | LEscape acc =>
      if Ascii.eqb c "034" || Ascii.eqb c "\" || Ascii.eqb c "/"
      then Some (LString (c :: acc), out)
      else if Ascii.eqb c "b" then Some (LString ("008"%char :: acc), out)
      else if Ascii.eqb c "f" then Some (LString ("012"%char :: acc), out)
      else if Ascii.eqb c "n" then Some (LString ("010"%char :: acc), out)
      else if Ascii.eqb c "r" then Some (LString ("013"%char :: acc), out)
      else if Ascii.eqb c "t" then Some (LString ("009"%char :: acc), out)
      else if Ascii.eqb c "u" then Some (LUnicode acc 0 0%N, out)
      else None
  | LUnicode acc n cp =>
      match hex_digit c with
      | Some h =>
          let cp' := (cp * 16 + h)%N in
          if Nat.eqb n 3 then Some (LString (push_unit cp' acc), out)
          else Some (LUnicode acc (S n) cp', out)
      | None => None
      end
  | LNumber acc =>
      if is_number_char c then Some (LNumber (c :: acc), out)
      else if is_number (rev acc) then lex_default c (TNumber (of_rev acc) :: out)
      else None
  | LLiteral rest t =>
      match rest with
      | String e rest' =>
          if Ascii.eqb c e then
            match rest' with
            | EmptyString => Some (LDefault, t :: out)
            | _ => Some (LLiteral rest' t, out)
            end
          else None
      | EmptyString => None
      end
  end.

Fixpoint lex_from (st : lstate) (out : list token) (s : string) : option (list token) :=
  match s with
  | EmptyString =>
      match st with
      | LDefault => Some (rev out)
      | LNumber acc => if is_number (rev acc) then Some (rev (TNumber (of_rev acc) :: out)) else None
      | _ => None
      end
  | String c r =>
      match lex_step st c out with
      | Some (st', out') => lex_from st' out' r
      | None => None
      end
  end.

Definition lex (s : string) : option (list token) := lex_from LDefault [] s.

(** *** The parser *)

(** An open container: an array with the items read so far, or an object
    with the members read so far and the key that awaits its value (all
    last first). *)
Inductive frame :=
| FArr (acc : list value)
| FObj (acc : list (string * value)) (key : option string).

Inductive pstate :=
| SValue (stk : list frame)                       (* a value must follow *)
| SArrFirst (stk : list frame)                    (* after "[" *)
| SObjFirst (stk : list frame)                    (* after "{" *)
| SObjKey (acc : list (string * value)) (stk : list frame)   (* after "," in an object *)
| SObjColon (acc : list (string * value)) (key : string) (stk : list frame)
| SAfter (stk : list frame)                       (* after a value in a container *)
| SDone (v : value).                              (* the text's value is complete *)

(** A complete value goes to the innermost open container. *)
Definition deliver (v : value) (stk : list frame) : option pstate :=
  match stk with
  | [] => Some (SDone v)
  | FArr acc :: r => Some (SAfter (FArr (v :: acc) :: r))
  | FObj acc (Some k) :: r => Some (SAfter (FObj ((k, v) :: acc) None :: r))
  | FObj _ None :: _ => None
  end.

Definition parse_value (stk : list frame) (t : token) : option pstate :=
  match t with
  | TNull => deliver Null stk
  | TTrue => deliver (Bool true) stk
  | TFalse => deliver (Bool false) stk
  | TNumber n => deliver (Number n) stk
  | TString s => deliver (Str s) stk
  | TLBracket => Some (SArrFirst stk)
  | TLBrace => Some (SObjFirst stk)
  | _ => None
  end.

Definition parse_step (st : pstate) (t : token) : option pstate :=
  match st with
  | SValue stk => parse_value stk t
  | SArrFirst stk =>
      match t with
      | TRBracket => deliver (Array []) stk
      | _ => parse_value (FArr [] :: stk) t
      end
  | SObjFirst stk =>
      match t with
      | TRBrace => deliver (Object []) stk
      | TString k => Some (SObjColon [] k stk)
      | _ => None
      end
  | SObjKey acc stk =>
      match t with
      | TString k => Some (SObjColon acc k stk)
      | _ => None
      end
  | SObjColon acc k stk =>
      match t with
      | TColon => Some (SValue (FObj acc (Some k) :: stk))
      | _ => None
      end
  | SAfter (FArr acc :: r) =>
      match t with
      | TComma => Some (SValue (FArr acc :: r))
      | TRBracket => deliver (Array (rev acc)) r
      | _ => None
      end
  | SAfter (FObj acc None :: r) =>
      match t with
      | TComma => Some (SObjKey acc r)
      | TRBrace => deliver (Object (rev acc)) r
      | _ => None
      end
  | SAfter _ => None
  | SDone _ => None
  end.

Fixpoint parse_tokens (st : pstate) (ts : list token) : option value :=
  match ts with
  | [] => match st with SDone v => Some v | _ => None end
  | t :: r =>
      match parse_step st t with
      | Some st' => parse_tokens st' r
      | None => None
      end
  end.

(** [JSON.parse(text)]: [None] when it throws a [SyntaxError]. *)
Definition parse (text : string) : option value :=
  match lex text with
  | Some ts => parse_tokens (SValue []) ts
  | None => None
  end.

(** [payload.key]: the last member of that name, as [JSON.parse] keeps it;
    [None] is [undefined]. *)
Definition get (key : string) (v : value) : option value :=
  match v with
  | Object members =>
      fold_left (fun found m => if String.eqb (fst m) key then Some (snd m) else found)
                members None
  | _ => None
  end.

(** [typeof v === "string"], with the string. *)
Definition as_string (v : option value) : option string :=
  match v with
  | Some (Str s) => Some s
  | _ => None
  end.

(** [!v] is false and [typeof v === "object"]. *)
Definition is_object (v : value) : bool :=
  match v with
  | Array _ | Object _ => true
  | _ => false
  end.

(** A JSON text written with an apostrophe for each double quote. *)
Fixpoint text (s : string) : string :=
  match s with
  | EmptyString => EmptyString
  | String c r => String (if Ascii.eqb c "'" then "034"%char else c) (text r)
  end.

Example parse_object :
  parse (text "{'type':'transcript.text.delta','delta':'He'}")
  = Some (Object [("type", Str "transcript.text.delta"); ("delta", Str "He")]).
Proof. reflexivity. Qed.

Example parse_nested :
  parse (text " [1, -2.5e3, true, null, {'a': [], 'b\n': 'A\''}] ")
  = Some (Array [Number "1"; Number "-2.5e3"; Bool true; Null;
                 Object [("a", Array []); (String "b" (String "010" ""),
                                           Str (String "A" (String "034" "")))]]).
Proof. reflexivity. Qed.

(** An e with an acute accent, the euro sign, a pair of surrogates (U+1F600)
    and a high surrogate with no low one after it. *)
Example parse_escapes :
  parse (text "['\u00e9', '\u20AC', '\ud83d\ude00', '\ud83dx\ude00']")
  = Some (Array [Str (JS.bytes [195; 169]%N); Str (JS.bytes [226; 130; 172]%N);
                 Str (JS.bytes [240; 159; 152; 128]%N);
                 Str (JS.bytes [237; 160; 189; 120; 237; 184; 128]%N)]).
Proof. reflexivity. Qed.

Example parse_rejects :
  map (fun s => parse (text s))
      ["{'type':'tran"; ""; "{"; "[1,]"; "{'a':1,}"; "01"; "1 2"; "tru";
       "[DONE]"; "{'a' 1}"; "nulll"; "'a"; "[1}"; "-"; "1."; "{}{}"]
  = repeat None 16.
Proof. reflexivity. Qed.

End JSON.

(** ** Streaming response reader *)

Module Stream.

(** The local variables of [readTranscriptionStream]. *)
Record reader := mkReader {
  buffer : string;
  collectedText : string;
  finalText : option string;
  eventCount : nat
}.

Definition initial : reader := mkReader "" "" None 0.

(** [payload.type === t] *)
Definition type_is (t : string) (payload : JSON.value) : bool :=
  match JSON.as_string (JSON.get "type" payload) with
  | Some s => String.eqb s t
  | None => false
  end.

Definition append_text (fragment : string) (r : reader) : reader :=
  mkReader (buffer r) (collectedText r +:+ fragment) (finalText r) (eventCount r).

Definition set_final (text : string) (r : reader) : reader :=
  mkReader (buffer r) (collectedText r) (Some text) (eventCount r).

(** [handleEvent(payload)] *)
Definition handleEvent (payload : JSON.value) (r : reader) : reader :=
  if negb (JSON.is_object payload) then r
  else
    let r := mkReader (buffer r) (collectedText r) (finalText r) (S (eventCount r)) in
    match type_is "transcript.text.delta" payload,
          JSON.as_string (JSON.get "delta" payload) with
    | true, Some delta => append_text delta r
    | _, _ =>
        match type_is "transcript.text.segment" payload,
              JSON.as_string (JSON.get "text" payload) with
        | true, Some text => append_text text r
        | _, _ =>
            match type_is "transcript.text.done" payload,
                  JSON.as_string (JSON.get "text" payload) with
            | true, Some text => set_final text r
            | _, _ => r
            end
        end
    end.

(** [buffer += line + "\n"] *)
Definition keep (line : string) (r : reader) : reader :=
  mkReader (buffer r +:+ line +:+ String "010" "") (collectedText r) (finalText r)
           (eventCount r).

(** [finalText = finalText ?? collectedText] *)
Definition done_marker (r : reader) : reader :=
  mkReader (buffer r) (collectedText r)
           (Some (JS.nullish (finalText r) (collectedText r))) (eventCount r).

(** What a line of the buffer is, by the tests of the loop body. *)
Inductive line_kind :=
| Blank
| NotData
| Data (data : string).

Definition classify (line : string) : line_kind :=
  let trimmedLine := JS.trim line in
  if negb (JS.truthy trimmedLine) then Blank
  else if JS.startsWith "data: " trimmedLine then Data (JS.slice 6 trimmedLine)
  else if JS.startsWith "data:" trimmedLine then Data (JS.trim (JS.slice 5 trimmedLine))
  else NotData.

(** The body of [for (const line of lines)]. *)
Definition processLine (r : reader) (line : string) : reader :=
  match classify line with
  | Blank => r
  | NotData => keep line r
  | Data data =>
      if String.eqb data "[DONE]" then done_marker r
      else match JSON.parse data with
           | Some parsed => handleEvent parsed r
           | None => keep line r
           end
  end.

(** One round of the [while] loop, for a read that delivered [chunk]. *)
Definition processChunk (r : reader) (chunk : string) : reader :=
  let lines := JS.split "010" (buffer r +:+ chunk) in
  fold_left processLine lines
            (mkReader "" (collectedText r) (finalText r) (eventCount r)).

(** [readTranscriptionStream(response)]: [body] is [None] when the response
    has no body to read, and otherwise the decoded chunks of the successive
    reads until the stream is done. *)
Definition readTranscriptionStream (body : option (list string)) : jsres string :=
  match body with
  | None => Throw "Streaming response body not available"
  | Some chunks =>
      let r := fold_left processChunk chunks initial in
      Ok (JS.nullish (finalText r) (collectedText r))
  end.

End Stream.

(** ** The reader on whole records *)

Module StreamFacts.
Import Stream.

Lemma append_cons (c : ascii) (s t : string) : String c s +:+ t = String c (s +:+ t).
Proof. reflexivity. Qed.

Lemma append_empty_r (s : string) : s +:+ "" = s.
Proof.
  induction s as [|c s IH]; [reflexivity|].
  rewrite append_cons, IH. reflexivity.
Qed.

Lemma append_assoc (a b c : string) : (a +:+ b) +:+ c = a +:+ (b +:+ c).
Proof.
  induction a as [|x a IH]; [reflexivity|].
  rewrite !append_cons, IH. reflexivity.
Qed.

(** A record of the stream, once framed and parsed. *)
Inductive record :=
| Payload (payload : JSON.value)
| DoneMarker.

(** The record a line carries, when it carries one. *)
Definition line_record (line : string) : option record :=
  match classify line with
  | Data data =>
      if String.eqb data "[DONE]" then Some DoneMarker
      else option_map Payload (JSON.parse data)
  | _ => None
  end.

(** The lines the loop puts back into the buffer. *)
Definition kept (line : string) : bool :=
  match classify line with
  | Blank => false
  | NotData => true
  | Data data =>
      negb (String.eqb data "[DONE]")
      && match JSON.parse data with Some _ => false | None => true end
  end.

Definition apply (r : reader) (rec : record) : reader :=
  match rec with
  | Payload payload => handleEvent payload r
  | DoneMarker => done_marker r
  end.

(** The records of a sequence of lines, in order. *)
Definition records (lines : list string) : list record :=
  flat_map (fun l => match line_record l with Some rec => [rec] | None => [] end) lines.

(** The text a delta or segment payload contributes. *)
Definition fragment_of (payload : JSON.value) : option string :=
  if type_is "transcript.text.delta" payload then JSON.as_string (JSON.get "delta" payload)
  else if type_is "transcript.text.segment" payload then JSON.as_string (JSON.get "text" payload)
  else None.

(** The text a done payload carries. *)
Definition done_of (payload : JSON.value) : option string :=
  if type_is "transcript.text.done" payload then JSON.as_string (JSON.get "text" payload)
  else None.

(** The text of the last done payload, if there is one. *)
Fixpoint last_done (recs : list record) : option string :=
  match recs with
  | [] => None
  | rec :: rest =>
      match last_done rest with
      | Some t => Some t
      | None => match rec with Payload p => done_of p | DoneMarker => None end
      end
  end.

(** The fragments that precede the first done-marker, in arrival order,
    joined. *)
Fixpoint accumulated (recs : list record) : string :=
  match recs with
  | [] => ""
  | DoneMarker :: _ => ""
  | Payload p :: rest =>
      match fragment_of p with
      | Some f => f +:+ accumulated rest
      | None => accumulated rest
      end
  end.

(** The result as the design states it: the done payload's text when one
    was observed, else the accumulated fragments. *)
Definition final_result (recs : list record) : string :=
  match last_done recs with
  | Some t => t
  | None => accumulated recs
  end.

Definition result (r : reader) : string := JS.nullish (finalText r) (collectedText r).

Lemma get_non_object key p : JSON.is_object p = false -> JSON.get key p = None.
Proof. destruct p; cbn; intros H; (reflexivity || discriminate). Qed.

Lemma get_array key items : JSON.get key (JSON.Array items) = None.
Proof. reflexivity. Qed.

Lemma type_is_exclusive a b p : a <> b -> type_is a p = true -> type_is b p = false.
Proof.
  unfold type_is. intros Hab. destruct (JSON.as_string (JSON.get "type" p)) as [s|];
    [|discriminate].
  intros Ha. apply String.eqb_eq in Ha. subst s. apply String.eqb_neq, Hab.
Qed.

(** What [handleEvent] does, field by field. *)
Lemma handleEvent_fields p r :
  buffer (handleEvent p r) = buffer r
  /\ collectedText (handleEvent p r)
     = match fragment_of p with
       | Some f => collectedText r +:+ f
       | None => collectedText r
       end
  /\ finalText (handleEvent p r)
     = match fragment_of p, done_of p with
       | None, Some t => Some t
       | _, _ => finalText r
       end.
Proof.
  unfold handleEvent, fragment_of, done_of.
  destruct (JSON.is_object p) eqn:Hobj; cbn [negb].
  2:{ unfold type_is. rewrite !(get_non_object _ p Hobj). cbn. repeat split. }
  destruct (type_is "transcript.text.delta" p) eqn:Hd.
  { rewrite (type_is_exclusive "transcript.text.delta" "transcript.text.segment" p ltac:(discriminate) Hd).
    rewrite (type_is_exclusive "transcript.text.delta" "transcript.text.done" p ltac:(discriminate) Hd).
    destruct (JSON.as_string (JSON.get "delta" p)); cbn; repeat split. }
  destruct (type_is "transcript.text.segment" p) eqn:Hs.
  { rewrite (type_is_exclusive "transcript.text.segment" "transcript.text.done" p ltac:(discriminate) Hs).
    destruct (JSON.as_string (JSON.get "text" p)); cbn; repeat split. }
  destruct (type_is "transcript.text.done" p) eqn:Hf.
  { destruct (JSON.as_string (JSON.get "text" p)); cbn; repeat split. }
  cbn. repeat split.
Qed.

Lemma fragment_done_exclusive p f : fragment_of p = Some f -> done_of p = None.
Proof.
  unfold fragment_of, done_of.
  destruct (type_is "transcript.text.delta" p) eqn:Hd.
  { now rewrite (type_is_exclusive "transcript.text.delta" "transcript.text.done" p ltac:(discriminate) Hd). }
  destruct (type_is "transcript.text.segment" p) eqn:Hs; [|discriminate].
  now rewrite (type_is_exclusive "transcript.text.segment" "transcript.text.done" p ltac:(discriminate) Hs).
Qed.

Lemma fold_apply_result recs : forall r,
  result (fold_left apply recs r)
  = match last_done recs with
    | Some t => t
    | None =>
        match finalText r with
        | Some t => t
        | None => collectedText r +:+ accumulated recs
        end
    end.
Proof.
  induction recs as [|rec rest IH]; intros r.
  - cbn. unfold result, JS.nullish. destruct (finalText r); [reflexivity|].
    now rewrite append_empty_r.
  - change (fold_left apply (rec :: rest) r) with (fold_left apply rest (apply r rec)).
    rewrite IH. cbn [last_done]. destruct (last_done rest) as [t|]; [reflexivity|].
    destruct rec as [p|].
    + cbn [apply accumulated].
      destruct (handleEvent_fields p r) as (_ & Hc & Hf). rewrite Hc, Hf.
      destruct (fragment_of p) as [f|] eqn:Hfrag.
      * rewrite (fragment_done_exclusive p f Hfrag).
        destruct (finalText r); [reflexivity|]. now rewrite append_assoc.
      * destruct (done_of p); reflexivity.
    + cbn. unfold JS.nullish. destruct (finalText r); [reflexivity|].
      now rewrite append_empty_r.
Qed.

Lemma apply_buffer r rec : buffer (apply r rec) = buffer r.
Proof.
  destruct rec as [p|]; cbn; [|reflexivity].
  now destruct (handleEvent_fields p r) as (Hb & _).
Qed.

Lemma processLine_not_kept r line :
  kept line = false ->
  processLine r line = match line_record line with Some rec => apply r rec | None => r end.
Proof.
  unfold kept, processLine, line_record. destruct (classify line) as [| |data];
    [reflexivity | discriminate |].
  destruct (String.eqb data "[DONE]"); [reflexivity|].
  destruct (JSON.parse data); [reflexivity | discriminate].
Qed.

Lemma fold_processLine_not_kept lines : forall r,
  Forall (fun l => kept l = false) lines ->
  fold_left processLine lines r = fold_left apply (records lines) r.
Proof.
  induction lines as [|l rest IH]; intros r H; [reflexivity|].
  apply Forall_cons_iff in H as [Hl Hrest].
  cbn [fold_left]. rewrite (processLine_not_kept r l Hl), (IH _ Hrest).
  unfold records. cbn [flat_map]. rewrite fold_left_app.
  destruct (line_record l); reflexivity.
Qed.

Lemma fold_apply_buffer recs : forall r, buffer (fold_left apply recs r) = buffer r.
Proof.
  induction recs as [|rec rest IH]; intros r; [reflexivity|].
  cbn [fold_left]. rewrite IH. apply apply_buffer.
Qed.

Lemma reader_eta r : mkReader (buffer r) (collectedText r) (finalText r) (eventCount r) = r.
Proof. destruct r; reflexivity. Qed.

Lemma fold_processChunk_not_kept chunks : forall r,
  buffer r = "" ->
  Forall (fun l => kept l = false) (flat_map (JS.split "010") chunks) ->
  fold_left processChunk chunks r
  = fold_left apply (records (flat_map (JS.split "010") chunks)) r.
Proof.
  induction chunks as [|chunk rest IH]; intros r Hb H; [reflexivity|].
  cbn [flat_map] in H. apply Forall_app in H as [Hc Hrest].
  cbn [fold_left flat_map]. unfold records. rewrite flat_map_app, fold_left_app.
  fold (records (JS.split "010" chunk)). fold (records (flat_map (JS.split "010") rest)).
  assert (Hstep : processChunk r chunk = fold_left apply (records (JS.split "010" chunk)) r).
  { unfold processChunk. rewrite Hb. change ("" +:+ chunk) with chunk.
    rewrite <- Hb, reader_eta. apply fold_processLine_not_kept, Hc. }
  rewrite Hstep. apply IH; [|exact Hrest].
  rewrite fold_apply_buffer. exact Hb.
Qed.

(** A line feed, and a record as the server frames it: [data: <payload>]
    and an empty line. *)
Definition nl : string := String "010" "".
Definition frame (payload : string) : string := "data: " +:+ payload +:+ nl +:+ nl.

Definition delta_He : string := JSON.text "{'type':'transcript.text.delta','delta':'He'}".
Definition delta_llo : string := JSON.text "{'type':'transcript.text.delta','delta':'llo'}".
Definition done_Hi : string := JSON.text "{'type':'transcript.text.done','text':'Hi'}".

(** C3. Delta and segment texts are appended in arrival order, the text of a
    done payload overrides them, and a done-marker with no done payload
    makes the fragments accumulated so far final: on any sequence of
    records, and on any stream of reads whose every line is blank or a
    record.  Deltas "He", "llo" and the done-marker give "Hello"; delta
    "He" and a done payload "Hi" give "Hi". *)
Theorem reader_accumulates_and_done_overrides :
  (forall recs, result (fold_left apply recs initial) = final_result recs)
  /\ (forall chunks,
        Forall (fun l => kept l = false) (flat_map (JS.split "010") chunks) ->
        readTranscriptionStream (Some chunks)
        = Ok (final_result (records (flat_map (JS.split "010") chunks))))
  /\ readTranscriptionStream (Some [frame delta_He; frame delta_llo; frame "[DONE]"])
     = Ok "Hello"
  /\ readTranscriptionStream (Some [frame delta_He; frame done_Hi]) = Ok "Hi"
  /\ readTranscriptionStream (Some [frame delta_He; frame done_Hi; frame "[DONE]"])
     = Ok "Hi".
Proof.
  assert (Hrec : forall recs, result (fold_left apply recs initial) = final_result recs).
  { intros recs. rewrite fold_apply_result. unfold final_result. cbn.
    destruct (last_done recs); reflexivity. }
  split; [exact Hrec|]. split; [|repeat split; vm_compute; reflexivity].
  intros chunks H. unfold readTranscriptionStream.
  rewrite (fold_processChunk_not_kept chunks initial eq_refl H).
  f_equal. apply Hrec.
Qed.

Lemma reader_accumulates_and_done_overrides_witness :
  readTranscriptionStream
    (Some [frame delta_He +:+ frame delta_llo; frame "[DONE]"])
  = Ok (final_result
          (records (flat_map (JS.split "010")
                             [frame delta_He +:+ frame delta_llo; frame "[DONE]"]))).
Proof.
  apply (proj1 (proj2 reader_accumulates_and_done_overrides)).
  let lines := eval vm_compute in
    (flat_map (JS.split "010") [frame delta_He +:+ frame delta_llo; frame "[DONE]"]) in
  change (Forall (fun l => kept l = false) lines).
  repeat (apply Forall_cons; [vm_compute; reflexivity|]). apply Forall_nil.
Defined.

(** C2, on the code.  A record delivered whole contributes its text once.
    The same record cut in two reads anywhere before the end of its payload
    contributes nothing: the first fragment goes back to the buffer with a
    line feed after it, so the two fragments never meet again. *)
Theorem split_payload_is_dropped :
  readTranscriptionStream (Some [frame delta_He; frame "[DONE]"]) = Ok "He"
  /\ Forall
       (fun k =>
          readTranscriptionStream
            (Some ["data: " +:+ String.substring 0 k delta_He;
                   JS.slice k delta_He +:+ nl +:+ nl +:+ frame "[DONE]"])
          = Ok "")
       (seq 0 (String.length delta_He))
  /\ readTranscriptionStream
       (Some ["data: " +:+ delta_He; nl +:+ nl +:+ frame "[DONE]"])
     = Ok "He".
Proof.
  split; [vm_compute; reflexivity|]. split; [|vm_compute; reflexivity].
  let ks := eval vm_compute in (seq 0 (String.length delta_He)) in
  change (seq 0 (String.length delta_He)) with ks.
  repeat (apply Forall_cons; [vm_compute; reflexivity|]). apply Forall_nil.
Qed.

End StreamFacts.

(** ** Effects *)

(** [localStorage]: [getItem] is the lookup, [None] for [null]. *)
Abbreviation storage := (gmap string string).

Definition getItem (ls : storage) (key : string) : option string := ls !! key.

(** [localStorage.getItem(key) === value] *)
Definition item_is (ls : storage) (key value : string) : bool :=
  match getItem ls key with
  | Some s => String.eqb s value
  | None => false
  end.

(** A computation over a state [S] that may throw and that records the
    events [E] it causes, in order: an [async] method of the manager. *)
Definition M (S E A : Type) : Type := S -> jsres A * S * list E.

Definition ret {S E A} (a : A) : M S E A := fun s => (Ok a, s, []).

Definition throw {S E A} (message : string) : M S E A := fun s => (Throw message, s, []).

Definition bind {S E A B} (c : M S E A) (k : A -> M S E B) : M S E B :=
  fun s =>
    match c s with
    | (Ok a, s', ev) => let '(r, s'', ev') := k a s' in (r, s'', ev ++ ev')
    | (Throw e, s', ev) => (Throw e, s', ev)
    end.

(** [try { c } catch (error) { h(error.message) }] *)
Definition try_catch {S E A} (c : M S E A) (h : string -> M S E A) : M S E A :=
  fun s =>
    match c s with
    | (Ok a, s', ev) => (Ok a, s', ev)
    | (Throw e, s', ev) => let '(r, s'', ev') := h e s' in (r, s'', ev ++ ev')
    end.

(** [try { c } finally { f }], for an [f] that does not throw. *)
Definition finally {S E A} (c : M S E A) (f : M S E unit) : M S E A :=
  fun s =>
    let '(r, s', ev) := c s in
    let '(_, s'', ev') := f s' in (r, s'', ev ++ ev').

Definition emit {S E} (e : E) : M S E unit := fun s => (Ok tt, s, [e]).
Definition get_state {S E} : M S E S := fun s => (Ok s, s, []).
Definition put_state {S E} (s : S) : M S E unit := fun _ => (Ok tt, s, []).

(** The outcome of a collaborator's call, as a computation. *)
Definition lift {S E A} (r : jsres A) : M S E A := fun s => (r, s, []).

Declare Scope js_scope.
Delimit Scope js_scope with js.
Notation "x <- c ;; k" := (bind c (fun x => k))
  (at level 100, c at next level, right associativity) : js_scope.
Notation "c ;;; k" := (bind c (fun _ => k))
  (at level 100, right associativity) : js_scope.

(** ** Transcription dispatcher and reasoning pass *)

Module Pipeline.

Local Open Scope js_scope.

(** What a local engine answers: [{ success, text, message, error }], each
    field possibly missing. *)
Record engine_result := mkEngineResult {
  er_success : option bool;
  er_text : option string;
  er_message : option string;
  er_error : option string
}.

(** What a path of the dispatcher returns: [{ success, text, source }].  The
    [timings] field holds wall-clock measurements and is left out. *)
Record transcription := mkTranscription {
  t_success : bool;
  t_text : string;
  t_source : string
}.

(** The fields of the manager the dispatcher reads and writes. *)
Record manager := mkManager {
  isProcessing : bool;
  cache_value : bool;          (* [this.reasoningAvailabilityCache.value] *)
  cache_expiresAt : Z;         (* [this.reasoningAvailabilityCache.expiresAt] *)
  cachedReasoningPreference : option string
}.

(** The constructor's values. *)
Definition new_manager : manager := mkManager false false 0 None.

Inductive event :=
| TranscribeLocalWhisper (model : string) (language : option string)
| TranscribeLocalParakeet (model : string) (language : option string)
| CloudRequest                 (* [processWithOpenAIAPI] starts its request *)
| ReasoningIsAvailable         (* [ReasoningService.isAvailable()] *)
| ReasoningProcessText (text model : string) (agentName : option string)
| OnTranscriptionComplete (result : transcription)
| OnError (title description : string)
| OnNoAudioDetected            (* [this.onNoAudioDetected], the fourth callback *)
| OnStateChange (recording processing : bool).

(** The world around one run of the pipeline: the stored preferences, the
    clock, and how each collaborator answers.  [cloud_request] is the body
    of the [try] block of [processWithOpenAIAPI] after its first line: it
    builds the request, performs the HTTP exchange, reads the response and
    runs the reasoning pass; it returns the transcription or throws. *)
Record env := mkEnv {
  localStorage : storage;
  now : Z;
  transcribeLocalWhisper : string -> option string -> jsres engine_result;
  transcribeLocalParakeet : string -> option string -> jsres engine_result;
  cloud_request : M manager event transcription;
  reasoning_isAvailable : jsres bool;
  reasoning_processText : string -> string -> option string -> jsres string
}.

Abbreviation task := (M manager event).

Definition REASONING_CACHE_TTL : Z := 30000.

Definition option_string_eqb (a b : option string) : bool :=
  match a, b with
  | Some x, Some y => String.eqb x y
  | None, None => true
  | _, _ => false
  end.

Definition set_reasoning_cache (value : bool) (expiresAt : Z) (pref : option string)
  : task unit :=
  fun m => (Ok tt, mkManager (isProcessing m) value expiresAt pref, []).

(** [isReasoningAvailable()] *)
Definition isReasoningAvailable (e : env) : task bool :=
  m <- get_state ;;
  let storedValue := getItem (localStorage e) "useReasoningModel" in
  let cacheValid :=
    (now e <? cache_expiresAt m)%Z
    && option_string_eqb (cachedReasoningPreference m) storedValue in
  if cacheValid then ret (cache_value m)
  else
    let useReasoning :=
      match storedValue with
      | Some s => String.eqb s "true" || (JS.truthy s && negb (String.eqb s "false"))
      | None => false
      end in
    if negb useReasoning then
      set_reasoning_cache false (now e + REASONING_CACHE_TTL) storedValue ;;;
      ret false
    else
      try_catch
        (emit ReasoningIsAvailable ;;;
         isAvailable <- lift (reasoning_isAvailable e) ;;
         set_reasoning_cache isAvailable (now e + REASONING_CACHE_TTL) storedValue ;;;
         ret isAvailable)
        (fun _ =>
           set_reasoning_cache false (now e + REASONING_CACHE_TTL) storedValue ;;;
           ret false).

(** [processWithReasoningModel(text, model, agentName)]: it logs, and throws
    what the service throws. *)
Definition processWithReasoningModel (e : env) (text model : string)
    (agentName : option string) : task string :=
  emit (ReasoningProcessText text model agentName) ;;;
  lift (reasoning_processText e text model agentName).

(** [processTranscription(text, source)] *)
Definition processTranscription (e : env) (text source : string) : task string :=
  let normalizedText := JS.trim text in
  let reasoningModel := JS.or_default (getItem (localStorage e) "reasoningModel") "" in
  let agentName :=
    match getItem (localStorage e) "agentName" with
    | Some s => if JS.truthy s then Some s else None
    | None => None
    end in
  if negb (JS.truthy reasoningModel) then ret normalizedText
  else
    useReasoning <- isReasoningAvailable e ;;
    if useReasoning then
      try_catch
        (processWithReasoningModel e normalizedText reasoningModel agentName)
        (fun _ => ret normalizedText)
    else ret normalizedText.

(** [language && language !== "auto"]: the language handed to an engine. *)
Definition engine_language (e : env) : option string :=
  match getItem (localStorage e) "preferredLanguage" with
  | Some l => if JS.truthy l && negb (String.eqb l "auto") then Some l else None
  | None => None
  end.

(** [result.success && result.text] *)
Definition has_text (r : engine_result) : option string :=
  match er_success r, er_text r with
  | Some true, Some t => if JS.truthy t then Some t else None
  | _, _ => None
  end.

(** [result.message || result.error || fallback] *)
Definition failure_message (r : engine_result) (fallback : string) : string :=
  match er_message r with
  | Some s => if JS.truthy s then s else JS.or_default (er_error r) fallback
  | None => JS.or_default (er_error r) fallback
  end.

(** [result.success === false && result.message === "No audio detected"] *)
Definition signals_no_audio (r : engine_result) : bool :=
  match er_success r, er_message r with
  | Some false, Some s => String.eqb s "No audio detected"
  | _, _ => false
  end.

Definition with_source (r : transcription) (source : string) : transcription :=
  mkTranscription (t_success r) (t_text r) source.

(** [processWithOpenAIAPI(audioBlob, metadata)] *)
Definition processWithOpenAIAPI (e : env) : task transcription :=
  let language := engine_language e in
  let allowLocalFallback := item_is (localStorage e) "allowLocalFallback" "true" in
  let fallbackModel := JS.or_default (getItem (localStorage e) "fallbackWhisperModel") "base" in
  try_catch
    (emit CloudRequest ;;; cloud_request e)
    (fun error =>
       let isOpenAIMode := negb (item_is (localStorage e) "useLocalWhisper" "true") in
       if allowLocalFallback && isOpenAIMode then
         try_catch
           (emit (TranscribeLocalWhisper fallbackModel language) ;;;
            result <- lift (transcribeLocalWhisper e fallbackModel language) ;;
            match has_text result with
            | Some raw =>
                text <- processTranscription e raw "local-fallback" ;;
                if JS.truthy text then ret (mkTranscription true text "local-fallback")
                else throw error
            | None => throw error
            end)
           (fun fallbackError =>
              throw ("OpenAI API failed: " +:+ error
                     +:+ ". Local fallback also failed: " +:+ fallbackError))
       else throw error).

(** The two local paths differ in the engine they call and in three strings. *)
Record local_engine := mkLocalEngine {
  le_call : env -> string -> option string -> jsres engine_result;
  le_event : string -> option string -> event;
  le_source : string;          (* the [source] of a result *)
  le_default_failure : string; (* the message of a failure that has none *)
  le_name : string             (* the name in "... failed: ..." *)
}.

Definition whisper : local_engine :=
  mkLocalEngine transcribeLocalWhisper TranscribeLocalWhisper
                "local" "Local Whisper transcription failed" "Local Whisper".

Definition parakeet : local_engine :=
  mkLocalEngine transcribeLocalParakeet TranscribeLocalParakeet
                "local-parakeet" "Parakeet transcription failed" "Parakeet".

(** The [try] block of [processWithLocalWhisper] and of
    [processWithLocalParakeet]. *)
Definition local_attempt (eng : local_engine) (e : env) (model : string)
  : task transcription :=
  let language := engine_language e in
  emit (le_event eng model language) ;;;
  result <- lift (le_call eng e model language) ;;
  match has_text result with
  | Some raw =>
      text <- processTranscription e raw (le_source eng) ;;
      ret (mkTranscription true (if JS.truthy text then text else raw) (le_source eng))
  | None =>
      if signals_no_audio result then throw "No audio detected"
      else throw (failure_message result (le_default_failure eng))
  end.

(** [processWithLocalWhisper(audioBlob, model, metadata)] and
    [processWithLocalParakeet(audioBlob, model, metadata)]. *)
Definition processWithLocal (eng : local_engine) (e : env) (model : string)
  : task transcription :=
  try_catch
    (local_attempt eng e model)
    (fun error =>
       if String.eqb error "No audio detected" then throw error
       else
         let allowOpenAIFallback := item_is (localStorage e) "allowOpenAIFallback" "true" in
         let isLocalMode := item_is (localStorage e) "useLocalWhisper" "true" in
         if allowOpenAIFallback && isLocalMode then
           try_catch
             (fallbackResult <- processWithOpenAIAPI e ;;
              ret (with_source fallbackResult "openai-fallback"))
             (fun fallbackError =>
                throw (le_name eng +:+ " failed: " +:+ error
                       +:+ ". OpenAI fallback also failed: " +:+ fallbackError))
         else throw (le_name eng +:+ " failed: " +:+ error)).

Definition processWithLocalWhisper : env -> string -> task transcription :=
  processWithLocal whisper.

Definition processWithLocalParakeet : env -> string -> task transcription :=
  processWithLocal parakeet.

Definition finish_processing : task unit :=
  fun m =>
    (Ok tt,
     mkManager false (cache_value m) (cache_expiresAt m) (cachedReasoningPreference m),
     [OnStateChange false false]).

(** The preferences [processAudio] reads. *)
Definition useLocalWhisper (e : env) : bool :=
  item_is (localStorage e) "useLocalWhisper" "true".

Definition localProvider (e : env) : string :=
  JS.or_default (getItem (localStorage e) "localTranscriptionProvider") "whisper".

Definition whisperModel (e : env) : string :=
  JS.or_default (getItem (localStorage e) "whisperModel") "base".

Definition parakeetModel (e : env) : string :=
  JS.or_default (getItem (localStorage e) "parakeetModel") "parakeet-tdt-0.6b-v3".

(** [processAudio(audioBlob, metadata)].  The timing record it logs after a
    success is left out. *)
Definition processAudio (e : env) : task unit :=
  finally
    (try_catch
       (result <-
          (if useLocalWhisper e then
             if String.eqb (localProvider e) "nvidia"
             then processWithLocalParakeet e (parakeetModel e)
             else processWithLocalWhisper e (whisperModel e)
           else processWithOpenAIAPI e) ;;
        emit (OnTranscriptionComplete result))
       (fun error =>
          if negb (String.eqb error "No audio detected") then
            emit (OnError "Transcription Error" ("Transcription failed: " +:+ error))
          else ret tt))
    finish_processing.

(** *** The reasoning pass never fails the pipeline *)

Ltac unfold_task :=
  unfold bind, try_catch, finally, emit, ret, throw, lift, get_state, put_state,
         set_reasoning_cache in *.


(** The model and the agent name [processTranscription] hands to the
    reasoning service. *)
Definition reasoningModel (e : env) : string :=
  JS.or_default (getItem (localStorage e) "reasoningModel") "".

Definition agentName (e : env) : option string :=
  match getItem (localStorage e) "agentName" with
  | Some s => if JS.truthy s then Some s else None
  | None => None
  end.

Lemma isReasoningAvailable_cases e m :
  exists b m' ev,
    isReasoningAvailable e m = (Ok b, m', ev)
    /\ (ev = []
        \/ ev = [ReasoningIsAvailable]
           /\ b = match reasoning_isAvailable e with Ok v => v | Throw _ => false end).
Proof.
  unfold isReasoningAvailable. unfold_task.
  destruct ((now e <? cache_expiresAt m)%Z
            && option_string_eqb (cachedReasoningPreference m)
                 (getItem (localStorage e) "useReasoningModel")); [eauto 7|].
  destruct (negb _); [eauto 7|].
  destruct (reasoning_isAvailable e); cbn; eauto 8.
Qed.

Lemma processTranscription_cases e text source m :
  exists s m' ev,
    processTranscription e text source m = (Ok s, m', ev)
    /\ (s = JS.trim text
        \/ reasoning_processText e (JS.trim text) (reasoningModel e) (agentName e) = Ok s)
    /\ (In ReasoningIsAvailable ev ->
        (exists message, reasoning_isAvailable e = Throw message) ->
        s = JS.trim text).
Proof.
  unfold processTranscription. fold (reasoningModel e). fold (agentName e).
  destruct (negb (JS.truthy (reasoningModel e))).
  { unfold ret. eauto 8. }
  destruct (isReasoningAvailable_cases e m) as (b & m' & ev & Hav & Hev).
  unfold bind at 1. rewrite Hav. destruct b.
  - unfold processWithReasoningModel. unfold_task.
    assert (Hnot : In ReasoningIsAvailable
                      (ev ++ [ReasoningProcessText (JS.trim text) (reasoningModel e)
                                                   (agentName e)]) ->
                   (exists message, reasoning_isAvailable e = Throw message) -> False).
    { intros Hin [message Hthrow]. apply in_app_or in Hin as [Hin | Hin].
      - destruct Hev as [-> | [_ Hb]]; [destruct Hin|]. rewrite Hthrow in Hb. discriminate.
      - destruct Hin as [Hin | []]. discriminate. }
    destruct (reasoning_processText e (JS.trim text) (reasoningModel e) (agentName e)) eqn:Hr.
    + do 3 eexists. split; [reflexivity|]. split; [right; reflexivity|].
      intros Hin Hthrow. rewrite app_nil_r in Hin. destruct (Hnot Hin Hthrow).
    + do 3 eexists. split; [reflexivity|]. split; [left; reflexivity|]. reflexivity.
  - unfold ret. eauto 8.
Qed.

(** C7. [processTranscription] never throws: it returns the trimmed raw
    text, or what the reasoning service returned.  So whenever the service's
    [processText] throws, and whenever its [isAvailable] is called and
    throws, the result is the trimmed raw text. *)
Theorem reasoning_failure_degrades_to_raw (e : env) (text source : string) (m : manager) :
  (exists s m' ev, processTranscription e text source m = (Ok s, m', ev))
  /\ ((exists message,
         reasoning_processText e (JS.trim text) (reasoningModel e) (agentName e)
         = Throw message) ->
      fst (fst (processTranscription e text source m)) = Ok (JS.trim text))
  /\ (In ReasoningIsAvailable (snd (processTranscription e text source m)) ->
      (exists message, reasoning_isAvailable e = Throw message) ->
      fst (fst (processTranscription e text source m)) = Ok (JS.trim text)).
Proof.
  destruct (processTranscription_cases e text source m) as (s & m' & ev & Hrun & Hs & Hav).
  split; [eauto|]. rewrite Hrun. cbn. split.
  - intros [message Hthrow]. destruct Hs as [-> | Hok]; [reflexivity|]. congruence.
  - intros Hin Hthrow. now rewrite (Hav Hin Hthrow).
Qed.

(** A run in which the reasoning service is asked and throws. *)
Definition env_reasoning_throws : env :=
  mkEnv (list_to_map [("reasoningModel", "gpt-4o-mini"); ("useReasoningModel", "true")])
        1000
        (fun _ _ => Throw "not called") (fun _ _ => Throw "not called")
        (throw "not called")
        (Ok true)
        (fun _ _ _ => Throw "rate limited").

Example reasoning_is_called_and_throws :
  processTranscription env_reasoning_throws "  hello " "local" new_manager
  = (Ok "hello",
     mkManager false true 31000 (Some "true"),
     [ReasoningIsAvailable; ReasoningProcessText "hello" "gpt-4o-mini" None]).
Proof. vm_compute. reflexivity. Qed.

Lemma reasoning_failure_degrades_to_raw_witness :
  fst (fst (processTranscription env_reasoning_throws "  hello " "local" new_manager))
  = Ok (JS.trim "  hello ").
Proof.
  apply (proj1 (proj2 (reasoning_failure_degrades_to_raw
                         env_reasoning_throws "  hello " "local" new_manager))).
  exists "rate limited". vm_compute. reflexivity.
Defined.

(** *** No audio *)




Definition no_audio : engine_result :=
  mkEngineResult (Some false) None (Some "No audio detected") None.

(** Local mode with the cloud fallback enabled; the engine hears nothing. *)
Definition env_no_audio : env :=
  mkEnv (list_to_map [("useLocalWhisper", "true"); ("allowOpenAIFallback", "true")])
        1000
        (fun _ _ => Ok no_audio) (fun _ _ => Ok no_audio)
        (ret (mkTranscription true "from the cloud" "openai"))
        (Ok false)
        (fun text _ _ => Ok text).

Example processAudio_no_audio :
  processAudio env_no_audio (mkManager true false 0 None)
  = (Ok tt, new_manager, [TranscribeLocalWhisper "base" None; OnStateChange false false]).
Proof. vm_compute. reflexivity. Qed.




(** *** Fallback, both attempts failing *)

Lemma startsWith_append x post : JS.startsWith x (x +:+ post) = true.
Proof.
  induction x as [|c x IH]; [reflexivity|].
  change (String c x +:+ post) with (String c (x +:+ post)). cbn.
  rewrite Ascii.eqb_refl. exact IH.
Qed.

Lemma includes_contains m x : JS.contains m x -> JS.includes x m = true.
Proof.
  intros (pre & post & ->). induction pre as [|c pre IH].
  - change ("" +:+ x +:+ post) with (x +:+ post).
    destruct (x +:+ post) eqn:E; cbn; rewrite <- E, startsWith_append; reflexivity.
  - change (String c pre +:+ x +:+ post) with (String c (pre +:+ x +:+ post)).
    cbn. rewrite IH. apply orb_true_r.
Qed.

Lemma contains_middle a x b : JS.contains (a +:+ x +:+ b) x.
Proof. exists a, b. reflexivity. Qed.

(** A local engine fails with [X], the cloud fallback is enabled and fails
    with [Y]: one error, citing both. *)
Lemma local_failure_cloud_fallback_cites_both eng e model m X Y m1 ev1 m2 ev2 :
  local_attempt eng e model m = (Throw X, m1, ev1) ->
  String.eqb X "No audio detected" = false ->
  item_is (localStorage e) "allowOpenAIFallback" "true" = true ->
  item_is (localStorage e) "useLocalWhisper" "true" = true ->
  cloud_request e m1 = (Throw Y, m2, ev2) ->
  processWithLocal eng e model m
  = (Throw (le_name eng +:+ " failed: " +:+ X +:+ ". OpenAI fallback also failed: " +:+ Y),
     m2, ev1 ++ CloudRequest :: ev2).
Proof.
  intros Hlocal Hx Hallow Hmode Hcloud.
  unfold processWithLocal. unfold try_catch at 1. rewrite Hlocal, Hx, Hallow, Hmode.
  cbn [andb]. unfold processWithOpenAIAPI. rewrite Hmode. unfold_task.
  rewrite Hcloud. rewrite andb_false_r. cbn. rewrite !app_nil_r. reflexivity.
Qed.

(** The cloud request fails with [X], the local fallback is enabled and the
    engine's call itself throws [Y]: one error, citing both. *)
Lemma cloud_failure_local_throw_cites_both e m X Y m1 ev1 :
  cloud_request e m = (Throw X, m1, ev1) ->
  item_is (localStorage e) "allowLocalFallback" "true" = true ->
  item_is (localStorage e) "useLocalWhisper" "true" = false ->
  transcribeLocalWhisper e
    (JS.or_default (getItem (localStorage e) "fallbackWhisperModel") "base")
    (engine_language e) = Throw Y ->
  fst (fst (processWithOpenAIAPI e m))
  = Throw ("OpenAI API failed: " +:+ X +:+ ". Local fallback also failed: " +:+ Y).
Proof.
  intros Hcloud Hallow Hmode Hlocal.
  unfold processWithOpenAIAPI. rewrite Hallow, Hmode. unfold_task.
  rewrite Hcloud, Hlocal. reflexivity.
Qed.

(** The cloud request fails with [X], the local fallback is enabled and the
    engine answers without a text: the error cites [X] twice, and nothing of
    the engine's answer. *)
Lemma cloud_failure_local_result_cites_cloud_twice e m X r m1 ev1 :
  cloud_request e m = (Throw X, m1, ev1) ->
  item_is (localStorage e) "allowLocalFallback" "true" = true ->
  item_is (localStorage e) "useLocalWhisper" "true" = false ->
  transcribeLocalWhisper e
    (JS.or_default (getItem (localStorage e) "fallbackWhisperModel") "base")
    (engine_language e) = Ok r ->
  has_text r = None ->
  fst (fst (processWithOpenAIAPI e m))
  = Throw ("OpenAI API failed: " +:+ X +:+ ". Local fallback also failed: " +:+ X).
Proof.
  intros Hcloud Hallow Hmode Hlocal Htext.
  unfold processWithOpenAIAPI. rewrite Hallow, Hmode. unfold_task.
  rewrite Hcloud, Hlocal, Htext. reflexivity.
Qed.

(** Cloud mode with the local fallback enabled: the request fails with "X",
    the engine answers [{ success: false, message: "Y" }]. *)
Definition env_both_fail : env :=
  mkEnv (list_to_map [("allowLocalFallback", "true")])
        1000
        (fun _ _ => Ok (mkEngineResult (Some false) None (Some "Y") None))
        (fun _ _ => Throw "not called")
        (throw "X")
        (Ok false)
        (fun text _ _ => Ok text).

(** C4, on the code.  Local engine first: the error of a double failure
    cites both messages.  Cloud first: it does when the engine's call
    throws; but when the local fallback answers without a text, as in
    [{ success: false, message: "Y" }], the handler rethrows the cloud error
    inside its own [try], and the error raised cites the cloud message
    twice: "OpenAI API failed: X. Local fallback also failed: X", which does
    not contain "Y". *)
Theorem fallback_composite_error :
  (forall eng e model m X Y m1 ev1 m2 ev2,
     local_attempt eng e model m = (Throw X, m1, ev1) ->
     String.eqb X "No audio detected" = false ->
     item_is (localStorage e) "allowOpenAIFallback" "true" = true ->
     item_is (localStorage e) "useLocalWhisper" "true" = true ->
     cloud_request e m1 = (Throw Y, m2, ev2) ->
     exists message,
       fst (fst (processWithLocal eng e model m)) = Throw message
       /\ JS.contains message X /\ JS.contains message Y)
  /\ (forall e m X Y m1 ev1,
        cloud_request e m = (Throw X, m1, ev1) ->
        item_is (localStorage e) "allowLocalFallback" "true" = true ->
        item_is (localStorage e) "useLocalWhisper" "true" = false ->
        transcribeLocalWhisper e
          (JS.or_default (getItem (localStorage e) "fallbackWhisperModel") "base")
          (engine_language e) = Throw Y ->
        exists message,
          fst (fst (processWithOpenAIAPI e m)) = Throw message
          /\ JS.contains message X /\ JS.contains message Y)
  /\ (forall e m X r m1 ev1,
        cloud_request e m = (Throw X, m1, ev1) ->
        item_is (localStorage e) "allowLocalFallback" "true" = true ->
        item_is (localStorage e) "useLocalWhisper" "true" = false ->
        transcribeLocalWhisper e
          (JS.or_default (getItem (localStorage e) "fallbackWhisperModel") "base")
          (engine_language e) = Ok r ->
        has_text r = None ->
        fst (fst (processWithOpenAIAPI e m))
        = Throw ("OpenAI API failed: " +:+ X +:+ ". Local fallback also failed: " +:+ X))
  /\ processWithOpenAIAPI env_both_fail new_manager
     = (Throw "OpenAI API failed: X. Local fallback also failed: X",
        new_manager, [CloudRequest; TranscribeLocalWhisper "base" None])
  /\ ~ JS.contains "OpenAI API failed: X. Local fallback also failed: X" "Y".
Proof.
  split; [|split; [|split; [|split]]].
  - intros eng e model m X Y m1 ev1 m2 ev2 H1 H2 H3 H4 H5.
    rewrite (local_failure_cloud_fallback_cites_both eng e model m X Y m1 ev1 m2 ev2
               H1 H2 H3 H4 H5).
    eexists. split; [reflexivity|]. split.
    + exists (le_name eng +:+ " failed: "), (". OpenAI fallback also failed: " +:+ Y).
      now rewrite StreamFacts.append_assoc.
    + exists (le_name eng +:+ " failed: " +:+ X +:+ ". OpenAI fallback also failed: "), "".
      now rewrite StreamFacts.append_empty_r, !StreamFacts.append_assoc.
  - intros e m X Y m1 ev1 H1 H2 H3 H4.
    rewrite (cloud_failure_local_throw_cites_both e m X Y m1 ev1 H1 H2 H3 H4).
    eexists. split; [reflexivity|]. split.
    + exists "OpenAI API failed: ", (". Local fallback also failed: " +:+ Y). reflexivity.
    + exists ("OpenAI API failed: " +:+ X +:+ ". Local fallback also failed: "), "".
      now rewrite StreamFacts.append_empty_r, !StreamFacts.append_assoc.
  - intros e m X r m1 ev1. apply cloud_failure_local_result_cites_cloud_twice.
  - vm_compute. reflexivity.
  - intros H. apply includes_contains in H. vm_compute in H. discriminate.
Qed.

End Pipeline.

(** ** Endpoint resolution *)

Module Endpoint.

(** What [getTranscriptionEndpoint] imports from [config/constants] and
    [utils/urlUtils]; each function may throw. *)
Record imports := mkImports {
  TRANSCRIPTION_BASE : string;      (* [API_ENDPOINTS.TRANSCRIPTION_BASE] *)
  GROQ_BASE : string;               (* [API_ENDPOINTS.GROQ_BASE] *)
  TRANSCRIPTION : string;           (* [API_ENDPOINTS.TRANSCRIPTION] *)
  normalizeBaseUrl : string -> jsres string;
  buildApiUrl : string -> string -> jsres string;
  isSecureEndpoint : string -> jsres bool
}.

(** [this.cachedTranscriptionEndpoint], [this.cachedEndpointProvider] and
    [this.cachedEndpointBaseUrl]. *)
Record cache := mkCache {
  cachedTranscriptionEndpoint : option string;
  cachedEndpointProvider : option string;
  cachedEndpointBaseUrl : option string
}.

(** The constructor's values. *)
Definition new_cache : cache := mkCache None None None.

Definition lower (c : ascii) : ascii :=
  let n := N_of_ascii c in
  if (65 <=? n)%N && (n <=? 90)%N then ascii_of_N (n + 32) else c.

Fixpoint toLowerCase (s : string) : string :=
  match s with
  | EmptyString => EmptyString
  | String c r => String (lower c) (toLowerCase r)
  end.

Fixpoint endsWith (suffix s : string) : bool :=
  String.eqb s suffix
  || match s with
     | EmptyString => false
     | String _ r => endsWith suffix r
     end.

(** [/\/audio\/(transcriptions|translations)$/i.test(s)] *)
Definition has_audio_path (s : string) : bool :=
  endsWith "/audio/transcriptions" (toLowerCase s)
  || endsWith "/audio/translations" (toLowerCase s).

(** [a !== b] for a cached key [a], possibly [null], and a string [b]. *)
Definition differs (a : option string) (b : string) : bool :=
  match a with
  | Some x => negb (String.eqb x b)
  | None => true
  end.

Definition currentProvider (ls : storage) : string :=
  JS.or_default (getItem ls "cloudTranscriptionProvider") "openai".

Definition currentBaseUrl (ls : storage) : string :=
  JS.or_default (getItem ls "cloudTranscriptionBaseUrl") "".

(** The base the [try] block starts from. *)
Definition base_of (I : imports) (provider baseUrl : string) : string :=
  if String.eqb provider "custom" then
    (if JS.truthy (JS.trim baseUrl) then JS.trim baseUrl else TRANSCRIPTION_BASE I)
  else if String.eqb provider "groq" then GROQ_BASE I
  else TRANSCRIPTION_BASE I.

(** The [try] block from [normalizeBaseUrl] on: the endpoint it hands to
    [cacheResult], or what it throws. *)
Definition endpoint_of_base (I : imports) (isCustomEndpoint : bool) (base : string)
  : jsres string :=
  match normalizeBaseUrl I base with
  | Throw e => Throw e
  | Ok normalizedBase =>
      if negb (JS.truthy normalizedBase) then Ok (TRANSCRIPTION I)
      else
        match (if isCustomEndpoint then isSecureEndpoint I normalizedBase else Ok true) with
        | Throw e => Throw e
        | Ok false => Ok (TRANSCRIPTION I)
        | Ok true =>
            if has_audio_path normalizedBase then Ok normalizedBase
            else buildApiUrl I normalizedBase "/audio/transcriptions"
        end
  end.

(** The endpoint a call that misses the cache returns and caches: the
    [try] block's, or the default when anything in it throws. *)
Definition resolve (I : imports) (provider baseUrl : string) : string :=
  match endpoint_of_base I (String.eqb provider "custom") (base_of I provider baseUrl) with
  | Ok endpoint => endpoint
  | Throw _ => TRANSCRIPTION I
  end.

(** [getTranscriptionEndpoint()] *)
Definition getTranscriptionEndpoint (I : imports) (ls : storage) (m : cache)
  : string * cache :=
  let provider := currentProvider ls in
  let baseUrl := currentBaseUrl ls in
  let stale :=
    match cachedTranscriptionEndpoint m with
    | Some ep =>
        JS.truthy ep
        && (differs (cachedEndpointProvider m) provider
            || differs (cachedEndpointBaseUrl m) baseUrl)
    | None => false
    end in
  let cached := if stale then None else cachedTranscriptionEndpoint m in
  match cached with
  | Some ep =>
      if JS.truthy ep
      then (ep, mkCache cached (cachedEndpointProvider m) (cachedEndpointBaseUrl m))
      else let endpoint := resolve I provider baseUrl in
           (endpoint, mkCache (Some endpoint) (Some provider) (Some baseUrl))
  | None =>
      let endpoint := resolve I provider baseUrl in
      (endpoint, mkCache (Some endpoint) (Some provider) (Some baseUrl))
  end.

(** The manager's cache after a series of calls under the stored
    preferences of each moment. *)
Definition after (I : imports) (history : list storage) : cache :=
  fold_left (fun m ls => snd (getTranscriptionEndpoint I ls m)) history new_cache.

(** *** The cache holds what resolution gives for its keys *)

Definition cache_ok (I : imports) (m : cache) : Prop :=
  forall ep, cachedTranscriptionEndpoint m = Some ep -> JS.truthy ep = true ->
    exists provider baseUrl,
      cachedEndpointProvider m = Some provider
      /\ cachedEndpointBaseUrl m = Some baseUrl
      /\ ep = resolve I provider baseUrl.

Lemma differs_false a b : differs a b = false -> a = Some b.
Proof.
  destruct a as [x|]; cbn; [|discriminate].
  intros H. apply negb_false_iff, String.eqb_eq in H. now subst.
Qed.

Lemma getTranscriptionEndpoint_resolves I ls m :
  cache_ok I m ->
  fst (getTranscriptionEndpoint I ls m) = resolve I (currentProvider ls) (currentBaseUrl ls)
  /\ cache_ok I (snd (getTranscriptionEndpoint I ls m)).
Proof.
  intros Hok. unfold getTranscriptionEndpoint.
  assert (Hnew : cache_ok I (mkCache (Some (resolve I (currentProvider ls) (currentBaseUrl ls)))
                                     (Some (currentProvider ls)) (Some (currentBaseUrl ls)))).
  { intros ep Hep _. cbn in *. injection Hep as <-. eauto. }
  destruct (cachedTranscriptionEndpoint m) as [ep|] eqn:Hc; [|split; [reflexivity | exact Hnew]].
  destruct (JS.truthy ep) eqn:Ht; cbn [andb].
  2:{ rewrite Ht. split; [reflexivity | exact Hnew]. }
  destruct (differs (cachedEndpointProvider m) (currentProvider ls)) eqn:Hp; cbn [orb].
  { split; [reflexivity | exact Hnew]. }
  destruct (differs (cachedEndpointBaseUrl m) (currentBaseUrl ls)) eqn:Hb.
  { split; [reflexivity | exact Hnew]. }
  rewrite Ht. cbn [fst snd].
  destruct (Hok ep Hc Ht) as (p & b & Hp' & Hb' & ->).
  apply differs_false in Hp, Hb. rewrite Hp in Hp'. rewrite Hb in Hb'.
  injection Hp' as <-. injection Hb' as <-. split; [reflexivity|].
  intros ep' Hep' _. cbn in *. injection Hep' as <-. eauto.
Qed.

Lemma after_ok I history : cache_ok I (after I history).
Proof.
  unfold after. assert (H0 : cache_ok I new_cache) by (intros ep H; discriminate).
  revert H0. generalize new_cache. induction history as [|ls rest IH]; intros m Hm; [exact Hm|].
  cbn [fold_left]. apply IH. now apply getTranscriptionEndpoint_resolves.
Qed.

(** The endpoint built from a base URL, in the words of the specification
    and without [endpoint_of_base]: the base normalised, with
    "/audio/transcriptions" appended to it unless it ends in that path or in
    "/audio/translations" already; the built-in default when the base
    normalises to nothing, or when normalising or appending throws.
    [isSecureEndpoint] has no part in it. *)
Definition built_from (I : imports) (base : string) : string :=
  match normalizeBaseUrl I base with
  | Ok normalizedBase =>
      if JS.truthy normalizedBase then
        if has_audio_path normalizedBase then normalizedBase
        else
          match buildApiUrl I normalizedBase "/audio/transcriptions" with
          | Ok endpoint => endpoint
          | Throw _ => TRANSCRIPTION I
          end
      else TRANSCRIPTION I
  | Throw _ => TRANSCRIPTION I
  end.

(** C6. After any earlier calls, under the stored preferences of the
    moment: with provider "custom" and a base URL that [isSecureEndpoint]
    does not accept, the endpoint is the built-in default
    [API_ENDPOINTS.TRANSCRIPTION]; with provider "groq" it is the endpoint
    built from [API_ENDPOINTS.GROQ_BASE], and with provider "openai" the one
    built from [API_ENDPOINTS.TRANSCRIPTION_BASE]: the stored base URL and
    [isSecureEndpoint] have no part in it. *)
Theorem endpoint_resolution (I : imports) (history : list storage) (ls : storage) :
  let endpoint := fst (getTranscriptionEndpoint I ls (after I history)) in
  (currentProvider ls = "custom" ->
   (forall normalizedBase,
      normalizeBaseUrl I (base_of I "custom" (currentBaseUrl ls)) = Ok normalizedBase ->
      isSecureEndpoint I normalizedBase <> Ok true) ->
   endpoint = TRANSCRIPTION I)
  /\ (currentProvider ls = "groq" -> endpoint = built_from I (GROQ_BASE I))
  /\ (currentProvider ls = "openai" -> endpoint = built_from I (TRANSCRIPTION_BASE I)).
Proof.
  intros endpoint. subst endpoint.
  destruct (getTranscriptionEndpoint_resolves I ls (after I history) (after_ok I history))
    as [-> _].
  assert (Hbuilt : forall base,
            match endpoint_of_base I false base with
            | Ok endpoint => endpoint
            | Throw _ => TRANSCRIPTION I
            end = built_from I base).
  { intros base. unfold endpoint_of_base, built_from.
    destruct (normalizeBaseUrl I base) as [nb|]; [|reflexivity].
    destruct (JS.truthy nb); cbn [negb]; [|reflexivity].
    destruct (has_audio_path nb); [reflexivity|].
    destruct (buildApiUrl I nb "/audio/transcriptions"); reflexivity. }
  unfold resolve. split; [|split]; intros ->.
  - intros Hinsecure. cbn [String.eqb]. change ("custom" =? "custom")%string with true.
    unfold endpoint_of_base.
    destruct (normalizeBaseUrl I (base_of I "custom" (currentBaseUrl ls))) as [nb|] eqn:Hn;
      [|reflexivity].
    destruct (negb (JS.truthy nb)); [reflexivity|].
    specialize (Hinsecure nb eq_refl).
    destruct (isSecureEndpoint I nb) as [[|]|]; [congruence | reflexivity | reflexivity].
  - apply (Hbuilt (GROQ_BASE I)).
  - apply (Hbuilt (TRANSCRIPTION_BASE I)).
Qed.

(** Modelled from the spec: the imports of [getTranscriptionEndpoint], which
    are not part of the sources at hand.  The base is trimmed and loses its
    trailing slashes, a secure endpoint is one whose scheme is https, and
    the standard path is appended to the base. *)
Fixpoint strip_trailing_slashes (s : string) : string :=
  match s with
  | EmptyString => EmptyString
  | String c r =>
      match strip_trailing_slashes r with
      | EmptyString => if Ascii.eqb c "/" then EmptyString else String c EmptyString
      | r' => String c r'
      end
  end.

(** Modelled from the spec: the constants and helpers that
    [getTranscriptionEndpoint] imports, in one record. *)
Definition spec_imports : imports :=
  mkImports "https://api.openai.com/v1"
            "https://api.groq.com/openai/v1"
            "https://api.openai.com/v1/audio/transcriptions"
            (fun base => Ok (strip_trailing_slashes (JS.trim base)))
            (fun base path => Ok (base +:+ path))
            (fun url => Ok (JS.startsWith "https://" (toLowerCase url))).

Definition prefs_groq : storage :=
  list_to_map [("cloudTranscriptionProvider", "groq");
               ("cloudTranscriptionBaseUrl", "https://stt.example.com/v1")].

Definition prefs_custom_http : storage :=
  list_to_map [("cloudTranscriptionProvider", "custom");
               ("cloudTranscriptionBaseUrl", "http://stt.example.com/v1/")].

Definition prefs_custom_https : storage :=
  list_to_map [("cloudTranscriptionProvider", "custom");
               ("cloudTranscriptionBaseUrl", "https://stt.example.com/v1/")].

Example endpoints_resolved :
  map (fun ls => fst (getTranscriptionEndpoint spec_imports ls new_cache))
      [prefs_groq; prefs_custom_http; prefs_custom_https; ∅]
  = ["https://api.groq.com/openai/v1/audio/transcriptions";
     "https://api.openai.com/v1/audio/transcriptions";
     "https://stt.example.com/v1/audio/transcriptions";
     "https://api.openai.com/v1/audio/transcriptions"].
Proof. vm_compute. reflexivity. Qed.

(** What the known providers resolve to under these imports. *)
Example built_from_the_built_in_bases :
  built_from spec_imports (GROQ_BASE spec_imports)
  = "https://api.groq.com/openai/v1/audio/transcriptions"
  /\ built_from spec_imports (TRANSCRIPTION_BASE spec_imports)
     = "https://api.openai.com/v1/audio/transcriptions".
Proof. split; vm_compute; reflexivity. Qed.

Lemma endpoint_resolution_witness :
  fst (getTranscriptionEndpoint spec_imports prefs_custom_http
         (after spec_imports [prefs_custom_https; prefs_groq]))
  = TRANSCRIPTION spec_imports
  /\ fst (getTranscriptionEndpoint spec_imports prefs_groq
            (after spec_imports [prefs_custom_https; prefs_custom_http]))
     = built_from spec_imports (GROQ_BASE spec_imports).
Proof.
  split.
  - apply (proj1 (endpoint_resolution spec_imports [prefs_custom_https; prefs_groq]
                                      prefs_custom_http)).
    + vm_compute. reflexivity.
    + intros normalizedBase H. vm_compute in H. injection H as <-. vm_compute. discriminate.
  - apply (proj1 (proj2 (endpoint_resolution spec_imports
                           [prefs_custom_https; prefs_custom_http] prefs_groq))).
    vm_compute. reflexivity.
Defined.

End Endpoint.

(** ** WAV encoder *)

Module Wav.

Local Open Scope Z_scope.

(** An element of a [Float32Array]. *)
Inductive f32 :=
| Finite (q : Q)
| PosInf
| NegInf
| NaN.

(** An [AudioBuffer] with one channel: [buffer.length] is the length of
    [channelData]. *)
Record AudioBuffer := mkAudioBuffer {
  sampleRate : Z;
  channelData : list f32
}.

(** *** [DataView] writes on a buffer of bytes *)

(** [new ArrayBuffer(n)] *)
Definition ArrayBuffer (n : nat) : list Z := replicate n 0.

Definition setUint8 (offset : nat) (v : Z) (b : list Z) : list Z :=
  <[offset := v mod 256]> b.

(** [view.setUint16(offset, v, true)] *)
Definition setUint16 (offset : nat) (v : Z) (b : list Z) : list Z :=
  let w := v mod 65536 in
  setUint8 (offset + 1) (w / 256) (setUint8 offset w b).

(** [view.setInt16(offset, v, true)] for an integer [v]: the same sixteen
    bits. *)
Definition setInt16 (offset : nat) (v : Z) (b : list Z) : list Z :=
  setUint16 offset v b.

(** [view.setUint32(offset, v, true)] *)
Definition setUint32 (offset : nat) (v : Z) (b : list Z) : list Z :=
  let w := v mod 4294967296 in
  setUint8 (offset + 3) (w / 16777216)
    (setUint8 (offset + 2) (w / 65536)
       (setUint8 (offset + 1) (w / 256)
          (setUint8 offset w b))).

(** [writeString(offset, string)] *)
Fixpoint writeString (offset : nat) (s : string) (b : list Z) : list Z :=
  match s with
  | EmptyString => b
  | String c r => writeString (S offset) r (setUint8 offset (Z.of_N (N_of_ascii c)) b)
  end.

(** *** Samples *)

(** [Math.max(-1, Math.min(1, x))]; [None] is NaN. *)
Definition clamp (x : f32) : option Q :=
  match x with
  | NaN => None
  | PosInf => Some 1%Q
  | NegInf => Some (-1)%Q
  | Finite q =>
      let lo := if Qltb 1 q then 1%Q else q in
      Some (if Qltb lo (-1) then (-1)%Q else lo)
  end.

(** [sample < 0 ? sample * 0x8000 : sample * 0x7fff] *)
Definition scale (sample : Q) : Q :=
  if Qltb sample 0 then (sample * 32768)%Q else (sample * 32767)%Q.

(** The integer part of a number, towards zero. *)
Definition truncate (q : Q) : Z := Z.quot (Qnum q) (Z.pos (Qden q)).

(** The integer [setInt16] stores for a sample; NaN is stored as 0. *)
Definition sample_int16 (x : f32) : Z :=
  match clamp x with
  | Some sample => truncate (scale sample)
  | None => 0
  end.

(** The loop over the samples, from [offset]. *)
Fixpoint write_samples (offset : nat) (samples : list f32) (b : list Z) : list Z :=
  match samples with
  | [] => b
  | x :: rest => write_samples (offset + 2) rest (setInt16 offset (sample_int16 x) b)
  end.

(** [audioBufferToWav(buffer)]: the bytes of the blob. *)
Definition audioBufferToWav (buffer : AudioBuffer) : list Z :=
  let length := Z.of_nat (length (channelData buffer)) in
  let b := ArrayBuffer (44 + Datatypes.length (channelData buffer) * 2) in
  let b := writeString 0 "RIFF" b in
  let b := setUint32 4 (36 + length * 2) b in
  let b := writeString 8 "WAVE" b in
  let b := writeString 12 "fmt " b in
  let b := setUint32 16 16 b in
  let b := setUint16 20 1 b in
  let b := setUint16 22 1 b in
  let b := setUint32 24 (sampleRate buffer) b in
  let b := setUint32 28 (sampleRate buffer * 2) b in
  let b := setUint16 32 2 b in
  let b := setUint16 34 16 b in
  let b := writeString 36 "data" b in
  let b := setUint32 40 (length * 2) b in
  write_samples 44 (channelData buffer) b.

(** *** Reading a WAV file back *)

Definition getUint16 (offset : nat) (b : list Z) : Z :=
  (b !!! offset) + 256 * (b !!! (offset + 1)%nat).

Definition getUint32 (offset : nat) (b : list Z) : Z :=
  (b !!! offset) + 256 * (b !!! (offset + 1)%nat)
  + 65536 * (b !!! (offset + 2)%nat) + 16777216 * (b !!! (offset + 3)%nat).

Definition marker (s : string) : list Z :=
  map (fun c => Z.of_N (N_of_ascii c)) (list_ascii_of_string s).

Definition has_marker (offset : nat) (s : string) (b : list Z) : bool :=
  bool_decide (take (String.length s) (drop offset b) = marker s).

(** The number of samples a reader finds in a canonical PCM file: the
    size of the data chunk divided by the block size; [None] when the
    header is not that of such a file. *)
Definition decode_sample_count (b : list Z) : option Z :=
  if has_marker 0 "RIFF" b && has_marker 8 "WAVE" b && has_marker 12 "fmt " b
     && has_marker 36 "data" b
     && (getUint16 20 b =? 1) && (0 <? getUint16 32 b)
  then Some (getUint32 40 b / getUint16 32 b)
  else None.

(** The two bytes of a sample, low byte first. *)
Definition int16_le (v : Z) : list Z := [(v mod 65536) mod 256; (v mod 65536 / 256) mod 256].

Definition uint32_le (v : Z) : list Z :=
  let w := v mod 4294967296 in
  [w mod 256; (w / 256) mod 256; (w / 65536) mod 256; (w / 16777216) mod 256].

(** The header as a list of 44 bytes. *)
Definition header (buffer : AudioBuffer) : list Z :=
  let length := Z.of_nat (Datatypes.length (channelData buffer)) in
  marker "RIFF" ++ uint32_le (36 + length * 2) ++ marker "WAVE" ++ marker "fmt "
  ++ uint32_le 16 ++ [1; 0] ++ [1; 0]
  ++ uint32_le (sampleRate buffer) ++ uint32_le (sampleRate buffer * 2)
  ++ [2; 0] ++ [16; 0] ++ marker "data" ++ uint32_le (length * 2).

Definition payload (buffer : AudioBuffer) : list Z :=
  flat_map (fun x => int16_le (sample_int16 x)) (channelData buffer).

(** *** The encoder writes the header, then the samples *)

Lemma write_samples_app samples : forall pre,
  write_samples (Datatypes.length pre) samples
                (pre ++ replicate (Datatypes.length samples * 2) 0)
  = pre ++ flat_map (fun x => int16_le (sample_int16 x)) samples.
Proof.
  induction samples as [|x rest IH]; intros pre; [reflexivity|].
  cbn [write_samples Datatypes.length Nat.mul Nat.add replicate flat_map].
  unfold setInt16, setUint16, setUint8.
  pose proof (insert_app_r pre (0 :: 0 :: replicate (Datatypes.length rest * 2) 0) 0) as H0.
  rewrite Nat.add_0_r in H0. rewrite H0.
  rewrite insert_app_r. cbn [insert list_insert].
  replace (Datatypes.length pre + 2)%nat
    with (Datatypes.length (pre ++ int16_le (sample_int16 x)))
    by (rewrite length_app; reflexivity).
  change (pre ++ sample_int16 x mod 65536 mod 256
              :: (sample_int16 x mod 65536 / 256) mod 256
              :: replicate (Datatypes.length rest * 2) 0)
    with (pre ++ int16_le (sample_int16 x) ++ replicate (Datatypes.length rest * 2) 0).
  rewrite app_assoc, IH, <- app_assoc. reflexivity.
Qed.

Lemma header_written (length rate : Z) (rest : list Z) :
  setUint32 40 (length * 2)
    (writeString 36 "data"
       (setUint16 34 16
          (setUint16 32 2
             (setUint32 28 (rate * 2)
                (setUint32 24 rate
                   (setUint16 22 1
                      (setUint16 20 1
                         (setUint32 16 16
                            (writeString 12 "fmt "
                               (writeString 8 "WAVE"
                                  (setUint32 4 (36 + length * 2)
                                     (writeString 0 "RIFF"
                                        (replicate 44 0 ++ rest)))))))))))))
  = (marker "RIFF" ++ uint32_le (36 + length * 2) ++ marker "WAVE" ++ marker "fmt "
     ++ uint32_le 16 ++ [1; 0] ++ [1; 0]
     ++ uint32_le rate ++ uint32_le (rate * 2)
     ++ [2; 0] ++ [16; 0] ++ marker "data" ++ uint32_le (length * 2)) ++ rest.
Proof.
  unfold setUint32, setUint16, uint32_le.
  cbn [writeString replicate app setUint8 insert list_insert Nat.add].
  reflexivity.
Qed.

Lemma header_length buffer : Datatypes.length (header buffer) = 44%nat.
Proof. reflexivity. Qed.

Theorem audioBufferToWav_bytes (buffer : AudioBuffer) :
  audioBufferToWav buffer = header buffer ++ payload buffer.
Proof.
  unfold audioBufferToWav. cbv zeta.
  unfold ArrayBuffer. rewrite replicate_add, header_written.
  fold (header buffer). rewrite <- (header_length buffer) at 1.
  apply write_samples_app.
Qed.

(** *** What a reader finds in the output *)

Lemma uint32_le_value (v : Z) :
  let w := v mod 4294967296 in
  w mod 256 + 256 * ((w / 256) mod 256) + 65536 * ((w / 65536) mod 256)
  + 16777216 * ((w / 16777216) mod 256) = w.
Proof.
  intros w. assert (Hw : 0 <= w < 4294967296) by (apply Z.mod_pos_bound; lia).
  clearbody w. Z.div_mod_to_equations. lia.
Qed.

Lemma wav_length buffer :
  Datatypes.length (audioBufferToWav buffer)
  = (44 + 2 * Datatypes.length (channelData buffer))%nat.
Proof.
  rewrite audioBufferToWav_bytes, length_app, header_length. f_equal.
  unfold payload. induction (channelData buffer) as [|x rest IH]; [reflexivity|].
  cbn [flat_map Datatypes.length]. rewrite length_app, IH. cbn. lia.
Qed.

Lemma wav_markers buffer :
  take 4 (audioBufferToWav buffer) = marker "RIFF"
  /\ take 4 (drop 8 (audioBufferToWav buffer)) = marker "WAVE"
  /\ take 4 (drop 12 (audioBufferToWav buffer)) = marker "fmt "
  /\ take 4 (drop 36 (audioBufferToWav buffer)) = marker "data".
Proof. rewrite audioBufferToWav_bytes. repeat split; reflexivity. Qed.

Lemma wav_format buffer :
  getUint16 20 (audioBufferToWav buffer) = 1
  /\ getUint16 22 (audioBufferToWav buffer) = 1
  /\ getUint16 32 (audioBufferToWav buffer) = 2
  /\ getUint16 34 (audioBufferToWav buffer) = 16.
Proof. rewrite audioBufferToWav_bytes. repeat split; reflexivity. Qed.

Lemma wav_sizes buffer :
  getUint32 4 (audioBufferToWav buffer)
  = (36 + Z.of_nat (Datatypes.length (channelData buffer)) * 2) mod 4294967296
  /\ getUint32 40 (audioBufferToWav buffer)
     = (Z.of_nat (Datatypes.length (channelData buffer)) * 2) mod 4294967296.
Proof.
  rewrite audioBufferToWav_bytes. split.
  - rewrite <- (uint32_le_value (36 + Z.of_nat (Datatypes.length (channelData buffer)) * 2)).
    reflexivity.
  - rewrite <- (uint32_le_value (Z.of_nat (Datatypes.length (channelData buffer)) * 2)).
    reflexivity.
Qed.

Lemma wav_payload buffer : drop 44 (audioBufferToWav buffer) = payload buffer.
Proof.
  rewrite audioBufferToWav_bytes. rewrite <- (header_length buffer). apply drop_app_length.
Qed.

Lemma wav_decode buffer :
  decode_sample_count (audioBufferToWav buffer)
  = Some ((Z.of_nat (Datatypes.length (channelData buffer)) * 2) mod 4294967296 / 2).
Proof.
  unfold decode_sample_count, has_marker.
  destruct (wav_markers buffer) as (H1 & H2 & H3 & H4).
  destruct (wav_format buffer) as (F1 & _ & F3 & _).
  destruct (wav_sizes buffer) as (_ & S2).
  change (drop 0 (audioBufferToWav buffer)) with (audioBufferToWav buffer).
  change (String.length "RIFF") with 4%nat. change (String.length "WAVE") with 4%nat.
  change (String.length "fmt ") with 4%nat. change (String.length "data") with 4%nat.
  rewrite !bool_decide_eq_true_2 by assumption.
  rewrite F1, F3, S2. reflexivity.
Qed.

Example encode_four_samples :
  audioBufferToWav
    (mkAudioBuffer 16000 [Finite (1 # 2); Finite (-1); Finite 2; NaN])
  = [82; 73; 70; 70;  44; 0; 0; 0;  87; 65; 86; 69;  102; 109; 116; 32;
     16; 0; 0; 0;  1; 0;  1; 0;  128; 62; 0; 0;  0; 125; 0; 0;  2; 0;  16; 0;
     100; 97; 116; 97;  8; 0; 0; 0;
     255; 63;  0; 128;  255; 127;  0; 0].
Proof. vm_compute. reflexivity. Qed.

(** C8, as amended.  For a buffer of N samples the encoder produces exactly
    44 + 2N bytes: a 44-byte header with the markers RIFF, WAVE, fmt and
    data, format tag 1, one channel and 16 bits per sample, then the 2N
    bytes of the samples as 16-bit little-endian integers.  The declared
    chunk sizes are 36 + 2N and 2N reduced modulo 2^32; when
    36 + 2N < 2^32 they are 36 + 2N and 2N, and reading the file back
    gives N samples. *)
Theorem wav_encoding_layout (buffer : AudioBuffer) :
  let N := Datatypes.length (channelData buffer) in
  let wav := audioBufferToWav buffer in
  Datatypes.length wav = (44 + 2 * N)%nat
  /\ take 4 wav = marker "RIFF"
  /\ take 4 (drop 8 wav) = marker "WAVE"
  /\ take 4 (drop 12 wav) = marker "fmt "
  /\ take 4 (drop 36 wav) = marker "data"
  /\ getUint16 20 wav = 1
  /\ getUint16 22 wav = 1
  /\ getUint16 34 wav = 16
  /\ getUint32 4 wav = (36 + 2 * Z.of_nat N) mod 2 ^ 32
  /\ getUint32 40 wav = (2 * Z.of_nat N) mod 2 ^ 32
  /\ drop 44 wav = flat_map (fun x => int16_le (sample_int16 x)) (channelData buffer)
  /\ Datatypes.length (drop 44 wav) = (2 * N)%nat
  /\ (36 + 2 * Z.of_nat N < 2 ^ 32 ->
      getUint32 4 wav = 36 + 2 * Z.of_nat N
      /\ getUint32 40 wav = 2 * Z.of_nat N
      /\ decode_sample_count wav = Some (Z.of_nat N)).
Proof.
  intros N wav. subst wav.
  destruct (wav_markers buffer) as (M1 & M2 & M3 & M4).
  destruct (wav_format buffer) as (F1 & F2 & _ & F4).
  destruct (wav_sizes buffer) as (S1 & S2). fold N in S1, S2.
  change 4294967296 with (2 ^ 32) in S1, S2.
  replace (36 + Z.of_nat N * 2) with (36 + 2 * Z.of_nat N) in S1 by lia.
  replace (Z.of_nat N * 2) with (2 * Z.of_nat N) in S2 by lia.
  repeat split; try assumption.
  - apply wav_length.
  - apply wav_payload.
  - rewrite length_drop, wav_length. fold N. lia.
  - rewrite S1. apply Z.mod_small. lia.
  - rewrite S2. apply Z.mod_small. lia.
  - rewrite wav_decode. fold N. f_equal.
    change 4294967296 with (2 ^ 32). rewrite Z.mod_small by lia.
    apply Z.div_mul. lia.
Qed.

Lemma wav_encoding_layout_witness :
  let wav := audioBufferToWav (mkAudioBuffer 16000 [Finite (1 # 2); Finite (-1); NaN]) in
  getUint32 4 wav = 36 + 2 * 3
  /\ getUint32 40 wav = 2 * 3
  /\ decode_sample_count wav = Some 3.
Proof.
  apply (wav_encoding_layout (mkAudioBuffer 16000 [Finite (1 # 2); Finite (-1); NaN])).
  vm_compute. reflexivity.
Defined.

(** A buffer of 2^31 samples, each 0. *)
Definition long_silence : AudioBuffer :=
  mkAudioBuffer 16000 (replicate (Z.to_nat 2147483648) (Finite 0)).

(** On it 2N is 2^32: the data chunk is declared empty, the RIFF chunk is
    declared 36 bytes long, and a reader finds no sample. *)
Lemma wav_sizes_wrap :
  let N := Z.of_nat (Datatypes.length (channelData long_silence)) in
  getUint32 4 (audioBufferToWav long_silence) <> 36 + 2 * N
  /\ getUint32 40 (audioBufferToWav long_silence) <> 2 * N
  /\ decode_sample_count (audioBufferToWav long_silence) <> Some N.
Proof.
  intros N.
  assert (HN : N = 2147483648).
  { unfold N, long_silence. cbn [channelData]. rewrite length_replicate.
    apply Z2Nat.id. lia. }
  destruct (wav_sizes long_silence) as (S1 & S2). fold N in S1, S2.
  rewrite wav_decode. fold N. rewrite S1, S2. clearbody N. subst N.
  repeat split; intros H; vm_compute in H; discriminate.
Qed.

End Wav.

(** ** API key cache *)

Module ApiKey.

Local Open Scope js_scope.

(** [this.cachedApiKey] and [this.cachedApiKeyProvider]. *)
Record cache := mkCache {
  cachedApiKey : option string;
  cachedApiKeyProvider : option string
}.

(** The constructor's values. *)
Definition new_cache : cache := mkCache None None.

(** The credential stores as they are when a call is made: the stored
    preferences, and the answers of the native lookups.  A lookup that the
    bridge does not offer is [None]; one that is offered returns a key,
    [null], or throws. *)
Record env := mkEnv {
  localStorage : storage;
  getCustomTranscriptionKey : option (jsres (option string));
  getGroqKey : option (jsres (option string));
  getOpenAIKey : jsres (option string)
}.

(** A consultation of a credential store. *)
Inductive event :=
| NativeLookup (provider : string)    (* [window.electronAPI.get...Key()] *)
| StoredKeyRead (key : string).       (* [localStorage.getItem(key)] of a key *)

Abbreviation task := (M cache event).

Definition PLACEHOLDER_KEYS (provider : string) : option string :=
  if String.eqb provider "openai" then Some "your_openai_api_key_here"
  else if String.eqb provider "groq" then Some "your_groq_api_key_here"
  else None.

(** [isValidApiKey(key, provider)] *)
Definition isValidApiKey (key : option string) (provider : string) : bool :=
  match key with
  | None => false
  | Some k =>
      if negb (JS.truthy k) || String.eqb (JS.trim k) "" then false
      else
        let placeholder :=
          JS.or_default (PLACEHOLDER_KEYS provider) "your_openai_api_key_here" in
        negb (String.eqb k placeholder)
  end.

(** [await window.electronAPI.f?.()] *)
Definition native (provider : string) (f : option (jsres (option string)))
  : task (option string) :=
  match f with
  | Some answer => emit (NativeLookup provider) ;;; lift answer
  | None => ret None
  end.

Definition stored (e : env) (key : string) : task (option string) :=
  emit (StoredKeyRead key) ;;; ret (getItem (localStorage e) key).

Definition provider_of (e : env) : string :=
  JS.or_default (getItem (localStorage e) "cloudTranscriptionProvider") "openai".

(** [!apiKey || !apiKey.trim()] *)
Definition blank (key : option string) : bool :=
  match key with
  | Some k => negb (JS.truthy k) || negb (JS.truthy (JS.trim k))
  | None => true
  end.

(** The lookup of a call that misses the cache. *)
Definition lookup (e : env) (provider : string) : task (option string) :=
  if String.eqb provider "custom" then
    apiKey <- try_catch (native "custom" (getCustomTranscriptionKey e)) (fun _ => ret None) ;;
    apiKey <- (if blank apiKey then
                 k <- stored e "customTranscriptionApiKey" ;;
                 ret (Some (JS.or_default k ""))
               else ret apiKey) ;;
    let apiKey := JS.or_default (option_map JS.trim apiKey) "" in
    ret (if JS.truthy apiKey then Some apiKey else None)
  else if String.eqb provider "groq" then
    apiKey <- native "groq" (getGroqKey e) ;;
    apiKey <- (if negb (isValidApiKey apiKey "groq") then stored e "groqApiKey"
               else ret apiKey) ;;
    if negb (isValidApiKey apiKey "groq") then
      throw "Groq API key not found. Please set your API key in the Control Panel."
    else ret apiKey
  else
    apiKey <- native "openai" (Some (getOpenAIKey e)) ;;
    apiKey <- (if negb (isValidApiKey apiKey "openai") then stored e "openaiApiKey"
               else ret apiKey) ;;
    if negb (isValidApiKey apiKey "openai") then
      throw "OpenAI API key not found. Please set your API key in the .env file or Control Panel."
    else ret apiKey.

Definition option_string_eqb (a : option string) (b : string) : bool :=
  match a with
  | Some x => String.eqb x b
  | None => false
  end.

(** [getAPIKey()] *)
Definition getAPIKey (e : env) : task (option string) :=
  let provider := provider_of e in
  m <- get_state ;;
  match cachedApiKey m with
  | Some key =>
      if option_string_eqb (cachedApiKeyProvider m) provider then ret (Some key)
      else
        apiKey <- lookup e provider ;;
        put_state (mkCache apiKey (Some provider)) ;;;
        ret apiKey
  | None =>
      apiKey <- lookup e provider ;;
      put_state (mkCache apiKey (Some provider)) ;;;
      ret apiKey
  end.

Ltac unfold_task_key :=
  unfold bind, try_catch, emit, ret, throw, lift, get_state, put_state in *.

(** *** A cached key is served without a lookup *)














End ApiKey.

(** ** The reader, read by read *)

(** What [readTranscriptionStream] computes on any sequence of reads, whole
    records or not. *)
Module StreamLines.
Import Stream StreamFacts.

Fixpoint has_line_feed (s : string) : bool :=
  match s with
  | EmptyString => false
  | String c r => Ascii.eqb c "010" || has_line_feed r
  end.

(** The buffer that holds the lines [ks], each put back with its line feed. *)
Fixpoint join_lines (ks : list string) : string :=
  match ks with
  | [] => ""
  | k :: rest => k +:+ nl +:+ join_lines rest
  end.

Definition set_buffer (b : string) (r : reader) : reader :=
  mkReader b (collectedText r) (finalText r) (eventCount r).

Lemma split_lines_free s : Forall (fun l => has_line_feed l = false) (JS.split "010" s).
Proof.
  induction s as [|c s IH]; [repeat constructor|].
  cbn [JS.split]. destruct (Ascii.eqb c "010") eqn:Hc.
  - constructor; [reflexivity | exact IH].
  - destruct (JS.split "010" s) as [|p ps]; [repeat constructor; cbn; now rewrite Hc|].
    apply Forall_cons_iff in IH as [Hp Hps]. constructor; [|exact Hps].
    cbn. now rewrite Hc, Hp.
Qed.

Lemma split_nonempty s : JS.split "010" s <> [].
Proof.
  destruct s as [|c s]; [discriminate|]. cbn [JS.split].
  destruct (Ascii.eqb c "010"); [discriminate|].
  destruct (JS.split "010" s); discriminate.
Qed.

(** A line feed splits: the lines of [l], a line feed and [s] are [l], then
    the lines of [s]. *)
Lemma split_line l s :
  has_line_feed l = false ->
  JS.split "010" (l +:+ nl +:+ s) = l :: JS.split "010" s.
Proof.
  induction l as [|c l IH]; intros Hl.
  - reflexivity.
  - cbn in Hl. apply orb_false_iff in Hl as [Hc Hl].
    rewrite append_cons. cbn [JS.split]. rewrite Hc, (IH Hl). reflexivity.
Qed.

Lemma split_join ks s :
  Forall (fun l => has_line_feed l = false) ks ->
  JS.split "010" (join_lines ks +:+ s) = ks ++ JS.split "010" s.
Proof.
  induction ks as [|k ks IH]; intros H; [reflexivity|].
  apply Forall_cons_iff in H as [Hk Hks]. cbn [join_lines].
  rewrite !append_assoc, (split_line k _ Hk), (IH Hks). reflexivity.
Qed.

(** The lines of two texts joined by a line feed are the lines of the first,
    then the lines of the second. *)
Lemma split_app a b :
  JS.split "010" (a +:+ nl +:+ b) = JS.split "010" a ++ JS.split "010" b.
Proof.
  induction a as [|c a IH]; [reflexivity|].
  rewrite append_cons. cbn [JS.split]. destruct (Ascii.eqb c "010"); [now rewrite IH|].
  rewrite IH. destruct (JS.split "010" a) eqn:E; [|reflexivity].
  destruct (split_nonempty a E).
Qed.

Lemma join_lines_app ks1 ks2 : join_lines (ks1 ++ ks2) = join_lines ks1 +:+ join_lines ks2.
Proof.
  induction ks1 as [|k ks1 IH]; [reflexivity|].
  cbn [join_lines app]. rewrite IH, !append_assoc. reflexivity.
Qed.

Lemma handleEvent_set_buffer p b r :
  handleEvent p (set_buffer b r) = set_buffer b (handleEvent p r).
Proof.
  unfold handleEvent. destruct (negb (JSON.is_object p)); [reflexivity|].
  destruct (type_is "transcript.text.delta" p), (JSON.as_string (JSON.get "delta" p)),
    (type_is "transcript.text.segment" p), (JSON.as_string (JSON.get "text" p)),
    (type_is "transcript.text.done" p); reflexivity.
Qed.

Lemma apply_set_buffer rec b r : apply (set_buffer b r) rec = set_buffer b (apply r rec).
Proof. destruct rec as [p|]; [apply handleEvent_set_buffer | reflexivity]. Qed.

Lemma fold_apply_set_buffer recs : forall b r,
  fold_left apply recs (set_buffer b r) = set_buffer b (fold_left apply recs r).
Proof.
  induction recs as [|rec recs IH]; intros b r; [reflexivity|].
  cbn [fold_left]. rewrite apply_set_buffer. apply IH.
Qed.

Lemma processLine_kept r line : kept line = true -> processLine r line = keep line r.
Proof.
  unfold kept, processLine. destruct (classify line) as [| |data];
    [discriminate | reflexivity |].
  destruct (String.eqb data "[DONE]"); [discriminate|].
  destruct (JSON.parse data); [discriminate | reflexivity].
Qed.

Lemma kept_no_record line : kept line = true -> line_record line = None.
Proof.
  unfold kept, line_record. destruct (classify line) as [| |data];
    [discriminate | reflexivity |].
  destruct (String.eqb data "[DONE]"); [discriminate|].
  destruct (JSON.parse data); [discriminate | reflexivity].
Qed.

(** One pass over lines: the kept ones go to the end of the buffer, in
    order; the others act as their records. *)
Lemma fold_processLine lines : forall r,
  fold_left processLine lines r
  = set_buffer (buffer r +:+ join_lines (filter (fun l => kept l) lines))
               (fold_left apply (records lines) r).
Proof.
  induction lines as [|l lines IH]; intros r.
  - cbn. rewrite append_empty_r. unfold set_buffer. now rewrite reader_eta.
  - cbn [fold_left]. rewrite IH. unfold records. cbn [flat_map filter].
    fold (records lines). destruct (kept l) eqn:Hk.
    + rewrite (processLine_kept r l Hk), (kept_no_record l Hk). cbn [app join_lines].
      change (keep l r) with (set_buffer (buffer r +:+ l +:+ nl) r).
      rewrite fold_apply_set_buffer. unfold set_buffer. cbn.
      rewrite !append_assoc. reflexivity.
    + rewrite (processLine_not_kept r l Hk).
      destruct (line_record l) as [rec|]; cbn [app fold_left]; [|reflexivity].
      now rewrite apply_buffer.
Qed.

Lemma records_app l1 l2 : records (l1 ++ l2) = records l1 ++ records l2.
Proof. unfold records. apply flat_map_app. Qed.

Lemma records_kept ks : Forall (fun l => kept l = true) ks -> records ks = [].
Proof.
  induction ks as [|k ks IH]; intros H; [reflexivity|].
  apply Forall_cons_iff in H as [Hk Hks]. unfold records. cbn [flat_map].
  fold (records ks). now rewrite (kept_no_record k Hk), (IH Hks).
Qed.

Lemma filter_kept_all ks :
  Forall (fun l => kept l = true) ks -> filter (fun l => kept l) ks = ks.
Proof.
  induction ks as [|k ks IH]; intros H; [reflexivity|].
  apply Forall_cons_iff in H as [Hk Hks]. cbn [filter]. now rewrite Hk, (IH Hks).
Qed.

(** The reader between two reads: its buffer holds lines it has kept, each
    free of line feeds and of the kind it keeps again. *)
Definition holds (ks : list string) (r : reader) : Prop :=
  buffer r = join_lines ks
  /\ Forall (fun l => has_line_feed l = false) ks
  /\ Forall (fun l => kept l = true) ks.

Lemma processChunk_lines ks r chunk :
  holds ks r ->
  processChunk r chunk
  = set_buffer
      (join_lines (ks ++ filter (fun l => kept l) (JS.split "010" chunk)))
      (fold_left apply (records (JS.split "010" chunk)) r)
  /\ holds (ks ++ filter (fun l => kept l) (JS.split "010" chunk))
           (processChunk r chunk).
Proof.
  intros (Hb & Hfree & Hkept).
  assert (Heq : processChunk r chunk
                = set_buffer
                    (join_lines (ks ++ filter (fun l => kept l) (JS.split "010" chunk)))
                    (fold_left apply (records (JS.split "010" chunk)) r)).
  { unfold processChunk. rewrite Hb, (split_join ks chunk Hfree), fold_processLine.
    rewrite records_app, (records_kept ks Hkept). cbn [app buffer].
    rewrite filter_app, (filter_kept_all ks Hkept).
    change (mkReader "" (collectedText r) (finalText r) (eventCount r))
      with (set_buffer "" r).
    rewrite fold_apply_set_buffer. reflexivity. }
  split; [exact Heq|]. rewrite Heq. split; [reflexivity|]. split.
  - apply Forall_app. split; [exact Hfree|].
    pose proof (split_lines_free chunk) as Hs. revert Hs.
    generalize (JS.split "010" chunk). intros lines Hs.
    induction lines as [|l lines IH]; [constructor|].
    apply Forall_cons_iff in Hs as [Hl Hs]. cbn [filter].
    destruct (kept l); [constructor; auto | auto].
  - apply Forall_app. split; [exact Hkept|].
    generalize (JS.split "010" chunk). intros lines.
    induction lines as [|l lines IH]; [constructor|]. cbn [filter].
    destruct (kept l) eqn:Hk; [constructor; auto | auto].
Qed.

Lemma fold_processChunk_lines chunks : forall ks r,
  holds ks r ->
  exists b,
    fold_left processChunk chunks r
    = set_buffer b (fold_left apply (records (flat_map (JS.split "010") chunks)) r).
Proof.
  induction chunks as [|chunk chunks IH]; intros ks r H.
  - exists (buffer r). unfold set_buffer. cbn. now rewrite reader_eta.
  - destruct (processChunk_lines ks r chunk H) as [Heq Hholds].
    destruct (IH _ _ Hholds) as [b Hb]. exists b.
    cbn [fold_left flat_map]. rewrite Hb, Heq, fold_apply_set_buffer.
    rewrite records_app, fold_left_app. reflexivity.
Qed.

(** The reader's texts after any reads are those of the records of all
    lines, applied in order. *)
Lemma reader_texts (chunks : list string) :
  let r := fold_left processChunk chunks initial in
  let r' := fold_left apply (records (flat_map (JS.split "010") chunks)) initial in
  collectedText r = collectedText r' /\ finalText r = finalText r'.
Proof.
  destruct (fold_processChunk_lines chunks [] initial) as [b Hb].
  { repeat split; constructor. }
  cbv zeta. rewrite Hb. split; reflexivity.
Qed.

Lemma result_of_records recs : result (fold_left apply recs initial) = final_result recs.
Proof.
  rewrite fold_apply_result. unfold final_result. cbn. destruct (last_done recs); reflexivity.
Qed.

(** X1. Whatever the reads deliver, the result of the reader is the result
    of the records found on the lines of each read taken by itself: a line
    is never completed by a later read, and a line that is no record
    changes nothing. *)
Theorem reader_reads_each_read_by_itself (chunks : list string) :
  readTranscriptionStream (Some chunks)
  = Ok (final_result (records (flat_map (JS.split "010") chunks))).
Proof.
  unfold readTranscriptionStream. f_equal.
  destruct (reader_texts chunks) as [Hc Hf]. rewrite Hc, Hf.
  apply result_of_records.
Qed.

(** X2. The boundary between two reads acts as a line feed: two successive
    reads give the result of the one read that holds the first, a line
    feed and the second. *)
Theorem read_boundary_is_a_line_feed (before after : list string) (a b : string) :
  readTranscriptionStream (Some (before ++ a :: b :: after))
  = readTranscriptionStream (Some (before ++ (a +:+ nl +:+ b) :: after)).
Proof.
  unfold readTranscriptionStream. f_equal.
  destruct (reader_texts (before ++ a :: b :: after)) as [-> ->].
  destruct (reader_texts (before ++ (a +:+ nl +:+ b) :: after)) as [-> ->].
  rewrite !flat_map_app. cbn [flat_map].
  rewrite split_app, <- app_assoc. reflexivity.
Qed.

Lemma last_done_app r1 r2 :
  last_done (r1 ++ r2)
  = match last_done r2 with Some t => Some t | None => last_done r1 end.
Proof.
  induction r1 as [|rec r1 IH]; cbn [app last_done].
  - destruct (last_done r2); reflexivity.
  - rewrite IH. destruct (last_done r2); reflexivity.
Qed.

Lemma accumulated_after_marker r1 r2 :
  In DoneMarker r1 -> accumulated (r1 ++ r2) = accumulated r1.
Proof.
  induction r1 as [|rec r1 IH]; intros Hin; [destruct Hin|].
  destruct rec as [p|]; [|reflexivity].
  destruct Hin as [Hin | Hin]; [discriminate|].
  cbn [app accumulated]. rewrite (IH Hin). reflexivity.
Qed.

(** X3. Once a read has delivered the done-marker, later reads change the
    result only through a done payload: fragments that arrive after the
    marker are not appended. *)
Theorem fragments_after_done_marker_are_ignored (chunks later : list string) :
  In DoneMarker (records (flat_map (JS.split "010") chunks)) ->
  last_done (records (flat_map (JS.split "010") later)) = None ->
  readTranscriptionStream (Some (chunks ++ later))
  = readTranscriptionStream (Some chunks).
Proof.
  intros Hmarker Hdone. unfold readTranscriptionStream. f_equal.
  destruct (reader_texts (chunks ++ later)) as [-> ->].
  destruct (reader_texts chunks) as [-> ->].
  fold (result (fold_left apply (records (flat_map (JS.split "010") (chunks ++ later)))
                          initial)).
  fold (result (fold_left apply (records (flat_map (JS.split "010") chunks)) initial)).
  rewrite !result_of_records, flat_map_app, records_app. unfold final_result.
  rewrite last_done_app, Hdone, (accumulated_after_marker _ _ Hmarker). reflexivity.
Qed.

Lemma fragments_after_done_marker_are_ignored_witness :
  readTranscriptionStream
    (Some ([frame delta_He; frame "[DONE]"] ++ [frame delta_llo]))
  = readTranscriptionStream (Some [frame delta_He; frame "[DONE]"]).
Proof.
  apply fragments_after_done_marker_are_ignored.
  - vm_compute. right. left. reflexivity.
  - vm_compute. reflexivity.
Defined.

End StreamLines.

(** ** Model selection and streaming eligibility *)

Module Model.

Definition provider_of (ls : storage) : string :=
  JS.or_default (getItem ls "cloudTranscriptionProvider") "openai".

(** [getTranscriptionModel()] *)
Definition getTranscriptionModel (ls : storage) : string :=
  let provider := provider_of ls in
  let model := JS.or_default (getItem ls "cloudTranscriptionModel") "" in
  let trimmedModel := JS.trim model in
  if String.eqb provider "custom" then
    (if JS.truthy trimmedModel then trimmedModel else "whisper-1")
  else
    let isGroqModel := JS.startsWith "whisper-large-v3" trimmedModel in
    let isOpenAIModel :=
      JS.startsWith "gpt-4o" trimmedModel || String.eqb trimmedModel "whisper-1" in
    if JS.truthy trimmedModel && String.eqb provider "groq" && isGroqModel
    then trimmedModel
    else if JS.truthy trimmedModel && String.eqb provider "openai" && isOpenAIModel
    then trimmedModel
    else if String.eqb provider "groq" then "whisper-large-v3-turbo"
    else "gpt-4o-mini-transcribe".

(** [shouldStreamTranscription(model, provider)] *)
Definition shouldStreamTranscription (model provider : string) : bool :=
  if negb (String.eqb provider "openai") then false
  else
    let normalized := JS.trim model in
    if negb (JS.truthy normalized) || String.eqb normalized "whisper-1" then false
    else if String.eqb normalized "gpt-4o-transcribe"
            || String.eqb normalized "gpt-4o-transcribe-diarize" then true
    else JS.startsWith "gpt-4o-mini-transcribe" normalized.

(** [model.includes("gpt-4o")] *)
Definition is4oModel (model : string) : bool := JS.includes "gpt-4o" model.

Definition SHORT_CLIP_DURATION_SECONDS : Q := 25 # 10.

(** [typeof durationSeconds === "number" && durationSeconds > 0 &&
    durationSeconds < SHORT_CLIP_DURATION_SECONDS] *)
Definition shouldSkipOptimizationForDuration (durationSeconds : option Q) : bool :=
  match durationSeconds with
  | Some d => Qltb 0 d && Qltb d SHORT_CLIP_DURATION_SECONDS
  | None => false
  end.

(** [!is4oModel && !shouldSkipOptimizationForDuration &&
    audioBlob.size > 1024 * 1024] *)
Definition shouldOptimize (model : string) (durationSeconds : option Q) (size : Z) : bool :=
  negb (is4oModel model)
  && negb (shouldSkipOptimizationForDuration durationSeconds)
  && (1024 * 1024 <? size)%Z.

(** The file extension of the upload, from the MIME type of the audio. *)
Definition extension (type : string) : string :=
  let mimeType := JS.or_default (Some type) "audio/webm" in
  if JS.includes "webm" mimeType then "webm"
  else if JS.includes "ogg" mimeType then "ogg"
  else if JS.includes "mp4" mimeType then "mp4"
  else if JS.includes "mpeg" mimeType then "mp3"
  else if JS.includes "wav" mimeType then "wav"
  else "webm".

(** *** What trimming keeps *)

Lemma includes_startsWith p s : JS.startsWith p s = true -> JS.includes p s = true.
Proof. intros H. destruct s; cbn [JS.includes]; now rewrite H. Qed.

Lemma includes_tail p c s : JS.includes p s = true -> JS.includes p (String c s) = true.
Proof. intros H. cbn [JS.includes]. rewrite H. apply orb_true_r. Qed.

Lemma includes_trimStart p s :
  JS.includes p (JS.trimStart s) = true -> JS.includes p s = true.
Proof.
  assert (H : forall n s, (String.length s <= n)%nat ->
            JS.includes p (JS.trimStart s) = true -> JS.includes p s = true).
  { intros n. induction n as [|n IH]; intros t Hn.
    - destruct t; [trivial | cbn in Hn; lia].
    - destruct t as [|a r]; [trivial|]. cbn [JS.trimStart].
      destruct (JS.is_space a).
      { intros H. apply includes_tail, IH; [cbn in Hn; lia | exact H]. }
      destruct r as [|b r2]; [trivial|].
      destruct (JS.is_space2 a b).
      { intros H. apply includes_tail, includes_tail, IH; [cbn in Hn; lia | exact H]. }
      destruct r2 as [|c r3]; [trivial|].
      destruct (JS.is_space3 a b c); [|trivial].
      intros H. apply includes_tail, includes_tail, includes_tail, IH;
        [cbn in Hn; lia | exact H]. }
  apply (H (String.length s)). lia.
Qed.

Lemma trimEnd_prefix s : exists t, s = JS.trimEnd s +:+ t.
Proof.
  induction s as [|c s [t IH]]; [now exists ""|]. cbn [JS.trimEnd].
  destruct (JS.is_white (String c (JS.trimEnd s))).
  - now exists (String c s).
  - exists t. rewrite StreamFacts.append_cons. now rewrite <- IH.
Qed.

Lemma startsWith_app p x t : JS.startsWith p x = true -> JS.startsWith p (x +:+ t) = true.
Proof.
  revert x. induction p as [|a p IH]; intros x H; [reflexivity|].
  destruct x as [|b x]; [discriminate|]. rewrite StreamFacts.append_cons.
  cbn [JS.startsWith] in *. apply andb_true_iff in H as [Hab Hp].
  now rewrite Hab, (IH x Hp).
Qed.

Lemma startsWith_shorter p q s :
  JS.startsWith (p +:+ q) s = true -> JS.startsWith p s = true.
Proof.
  revert s. induction p as [|a p IH]; intros s H; [reflexivity|].
  rewrite StreamFacts.append_cons in H. destruct s as [|b s]; [discriminate|].
  cbn [JS.startsWith] in *. apply andb_true_iff in H as [Hab Hp].
  now rewrite Hab, (IH s Hp).
Qed.

Lemma includes_app p x t : JS.includes p x = true -> JS.includes p (x +:+ t) = true.
Proof.
  induction x as [|c x IH]; intros H.
  - cbn [JS.includes] in H. rewrite orb_false_r in H.
    destruct p; [|discriminate]. destruct t; reflexivity.
  - rewrite StreamFacts.append_cons. cbn [JS.includes] in *.
    apply orb_true_iff in H as [H | H].
    + pose proof (startsWith_app p (String c x) t H) as H'.
      rewrite StreamFacts.append_cons in H'. now rewrite H'.
    + rewrite (IH H). apply orb_true_r.
Qed.

Lemma includes_trim p s : JS.includes p (JS.trim s) = true -> JS.includes p s = true.
Proof.
  unfold JS.trim. intros H. apply includes_trimStart.
  destruct (trimEnd_prefix (JS.trimStart s)) as [t Ht]. rewrite Ht.
  now apply includes_app.
Qed.

(** X4. The model [getTranscriptionModel] returns is never empty and fits
    the provider: under "groq" it starts with "whisper-large-v3"; under
    "openai" it starts with "gpt-4o" or is "whisper-1"; a stored model that
    does not fit is replaced by the provider's default. *)
Theorem transcription_model_fits_provider (ls : storage) :
  let model := getTranscriptionModel ls in
  JS.truthy model = true
  /\ (provider_of ls = "groq" -> JS.startsWith "whisper-large-v3" model = true)
  /\ (provider_of ls = "openai" ->
      JS.startsWith "gpt-4o" model || String.eqb model "whisper-1" = true)
  /\ (provider_of ls = "groq" ->
      JS.startsWith "whisper-large-v3"
        (JS.trim (JS.or_default (getItem ls "cloudTranscriptionModel") "")) = false ->
      model = "whisper-large-v3-turbo")
  /\ (provider_of ls = "openai" ->
      JS.startsWith "gpt-4o"
        (JS.trim (JS.or_default (getItem ls "cloudTranscriptionModel") "")) = false ->
      JS.trim (JS.or_default (getItem ls "cloudTranscriptionModel") "") <> "whisper-1" ->
      model = "gpt-4o-mini-transcribe").
Proof.
  intros model. subst model. unfold getTranscriptionModel.
  set (t := JS.trim (JS.or_default (getItem ls "cloudTranscriptionModel") "")).
  assert (Htruthy : forall p x, JS.startsWith (String p x) t = true -> JS.truthy t = true).
  { intros p x H. destruct t; [discriminate | reflexivity]. }
  repeat split.
  - destruct (String.eqb (provider_of ls) "custom").
    { destruct (JS.truthy t) eqn:Ht; [exact Ht | reflexivity]. }
    destruct (JS.truthy t) eqn:Ht; cbn [andb];
      [|destruct (String.eqb (provider_of ls) "groq"); reflexivity].
    destruct (String.eqb (provider_of ls) "groq"); cbn [andb].
    + destruct (JS.startsWith "whisper-large-v3" t); [exact Ht|].
      destruct (String.eqb (provider_of ls) "openai"); cbn [andb]; [|reflexivity].
      destruct (JS.startsWith "gpt-4o" t || String.eqb t "whisper-1"); [exact Ht | reflexivity].
    + destruct (String.eqb (provider_of ls) "openai"); cbn [andb]; [|reflexivity].
      destruct (JS.startsWith "gpt-4o" t || String.eqb t "whisper-1"); [exact Ht | reflexivity].
  - intros ->. cbn [String.eqb]. change ("groq" =? "custom")%string with false.
    change ("groq" =? "groq")%string with true. change ("groq" =? "openai")%string with false.
    rewrite andb_true_r, !andb_false_r.
    destruct (JS.truthy t && JS.startsWith "whisper-large-v3" t) eqn:E; [|reflexivity].
    now apply andb_true_iff in E.
  - intros ->. change ("openai" =? "custom")%string with false.
    change ("openai" =? "groq")%string with false. change ("openai" =? "openai")%string with true.
    rewrite !andb_false_r, andb_true_r. cbn [andb].
    destruct (JS.truthy t && (JS.startsWith "gpt-4o" t || String.eqb t "whisper-1")) eqn:E;
      [|reflexivity].
    now apply andb_true_iff in E.
  - intros -> Hno. change ("groq" =? "custom")%string with false.
    change ("groq" =? "groq")%string with true. change ("groq" =? "openai")%string with false.
    rewrite Hno, !andb_false_r. reflexivity.
  - intros -> Hno Hw. change ("openai" =? "custom")%string with false.
    change ("openai" =? "groq")%string with false. change ("openai" =? "openai")%string with true.
    rewrite Hno. apply String.eqb_neq in Hw. rewrite Hw, !andb_false_r. reflexivity.
Qed.

Definition prefs_groq_with_openai_model : storage :=
  list_to_map [("cloudTranscriptionProvider", "groq");
               ("cloudTranscriptionModel", " gpt-4o-transcribe ")].

Lemma transcription_model_fits_provider_witness :
  getTranscriptionModel prefs_groq_with_openai_model = "whisper-large-v3-turbo".
Proof.
  apply (transcription_model_fits_provider prefs_groq_with_openai_model).
  - vm_compute. reflexivity.
  - vm_compute. reflexivity.
Defined.

(** X5. A request that streams never uploads re-encoded audio: whenever
    [shouldStreamTranscription] accepts a model, the model is one that
    [shouldOptimize] excludes, whatever the clip's duration and size. *)
Theorem streaming_excludes_optimization
    (model provider : string) (durationSeconds : option Q) (size : Z) :
  shouldStreamTranscription model provider = true ->
  provider = "openai"
  /\ is4oModel model = true
  /\ shouldOptimize model durationSeconds size = false.
Proof.
  unfold shouldStreamTranscription, shouldOptimize. intros H.
  destruct (String.eqb provider "openai") eqn:Hp; [|discriminate]. cbn [negb] in H.
  apply String.eqb_eq in Hp. split; [exact Hp|].
  assert (H4o : is4oModel model = true).
  { unfold is4oModel. apply includes_trim.
    destruct (negb (JS.truthy (JS.trim model)) || String.eqb (JS.trim model) "whisper-1");
      [discriminate|].
    destruct (String.eqb (JS.trim model) "gpt-4o-transcribe") eqn:E1.
    { apply String.eqb_eq in E1. rewrite E1. reflexivity. }
    destruct (String.eqb (JS.trim model) "gpt-4o-transcribe-diarize") eqn:E2.
    { apply String.eqb_eq in E2. rewrite E2. reflexivity. }
    cbn [orb] in H. apply includes_startsWith.
    apply (startsWith_shorter "gpt-4o" "-mini-transcribe"). exact H. }
  split; [exact H4o|]. rewrite H4o. reflexivity.
Qed.

Lemma streaming_excludes_optimization_witness :
  provider_of ∅ = "openai"
  /\ is4oModel (getTranscriptionModel ∅) = true
  /\ shouldOptimize (getTranscriptionModel ∅) (Some 60%Q) 5000000 = false.
Proof.
  apply (streaming_excludes_optimization (getTranscriptionModel ∅) (provider_of ∅)).
  vm_compute. reflexivity.
Defined.

End Model.

(** ** The availability cache of the reasoning pass *)

Module ReasoningCache.
Import Pipeline.

Definition storedValue (e : env) : option string :=
  getItem (localStorage e) "useReasoningModel".

(** The preference enables reasoning:
    [storedValue === "true" || (!!storedValue && storedValue !== "false")]. *)
Definition enabled (stored : option string) : bool :=
  match stored with
  | Some s => String.eqb s "true" || (JS.truthy s && negb (String.eqb s "false"))
  | None => false
  end.

Lemma preference_eqb_eq a b : option_string_eqb a b = true -> a = b.
Proof.
  destruct a as [x|], b as [y|]; cbn; try discriminate; [|reflexivity].
  intros H. apply String.eqb_eq in H. now subst.
Qed.

Lemma preference_eqb_refl a : option_string_eqb a a = true.
Proof. destruct a; cbn; [apply String.eqb_refl | reflexivity]. Qed.

(** After any call the cache holds the value returned, under the stored
    preference; its expiry is that of the entry served, or thirty seconds
    from now. *)
Lemma isReasoningAvailable_cached e m b m1 ev1 :
  isReasoningAvailable e m = (Ok b, m1, ev1) ->
  cache_value m1 = b
  /\ cachedReasoningPreference m1 = storedValue e
  /\ isProcessing m1 = isProcessing m
  /\ ((m1 = m /\ ev1 = [] /\ (now e < cache_expiresAt m)%Z)
      \/ cache_expiresAt m1 = (now e + 30000)%Z).
Proof.
  unfold isReasoningAvailable. unfold_task. fold (storedValue e).
  destruct ((now e <? cache_expiresAt m)%Z) eqn:Ht; cbn [andb].
  - destruct (option_string_eqb (cachedReasoningPreference m) (storedValue e)) eqn:Hp.
    + intros H. injection H as <- <- <-.
      repeat split; [now apply preference_eqb_eq|]. left. repeat split. lia.
    + destruct (negb _).
      * intros H. injection H as <- <- _. cbn. repeat split. now right.
      * destruct (reasoning_isAvailable e); intros H; injection H as <- <- _;
          cbn; repeat split; now right.
  - destruct (negb _).
    + intros H. injection H as <- <- _. cbn. repeat split. now right.
    + destruct (reasoning_isAvailable e); intros H; injection H as <- <- _;
        cbn; repeat split; now right.
Qed.

Lemma isReasoningAvailable_hit e m :
  (now e < cache_expiresAt m)%Z ->
  cachedReasoningPreference m = storedValue e ->
  isReasoningAvailable e m = (Ok (cache_value m), m, []).
Proof.
  intros Ht Hp. unfold isReasoningAvailable. unfold_task. fold (storedValue e).
  rewrite <- Hp, preference_eqb_refl.
  assert (H : (now e <? cache_expiresAt m)%Z = true) by lia. rewrite H. reflexivity.
Qed.

(** X6. The availability of the reasoning service is cached for thirty
    seconds per stored preference: a call made before the entry expires,
    under the same preference, returns the value of the call before it
    without asking the service and without extending the entry; and an
    entry written by a call expires thirty seconds after that call. *)
Theorem reasoning_availability_is_cached
    (e1 e2 : env) (m m1 : manager) (b : bool) (ev1 : list event) :
  isReasoningAvailable e1 m = (Ok b, m1, ev1) ->
  ((now e2 < cache_expiresAt m1)%Z ->
   storedValue e2 = storedValue e1 ->
   isReasoningAvailable e2 m1 = (Ok b, m1, []))
  /\ (m1 <> m -> cache_expiresAt m1 = (now e1 + 30000)%Z).
Proof.
  intros Hfirst.
  destruct (isReasoningAvailable_cached e1 m b m1 ev1 Hfirst) as (Hv & Hp & _ & Hexp).
  split.
  - intros Ht Hs. rewrite <- Hv. apply isReasoningAvailable_hit; [exact Ht | congruence].
  - intros Hne. destruct Hexp as [(Heq & _) | Hexp]; [contradiction | exact Hexp].
Qed.

(** The service answers "available" at time 1000; a second later it would
    answer "unavailable". *)
Definition env_available : env :=
  mkEnv (list_to_map [("useReasoningModel", "true")]) 1000
        (fun _ _ => Throw "not called") (fun _ _ => Throw "not called")
        (throw "not called") (Ok true) (fun text _ _ => Ok text).

Definition env_unavailable_later : env :=
  mkEnv (list_to_map [("useReasoningModel", "true")]) 2000
        (fun _ _ => Throw "not called") (fun _ _ => Throw "not called")
        (throw "not called") (Ok false) (fun text _ _ => Ok text).

Lemma reasoning_availability_is_cached_witness :
  isReasoningAvailable env_unavailable_later (mkManager false true 31000 (Some "true"))
  = (Ok true, mkManager false true 31000 (Some "true"), []).
Proof.
  apply (proj1 (reasoning_availability_is_cached env_available env_unavailable_later
                  new_manager (mkManager false true 31000 (Some "true")) true
                  [ReasoningIsAvailable] ltac:(vm_compute; reflexivity))).
  - vm_compute. reflexivity.
  - vm_compute. reflexivity.
Defined.

(** *** Switching the preference off *)

(** The manager after a series of calls, each under the world of its
    moment. *)
Definition after (history : list env) : manager :=
  fold_left (fun m e => snd (fst (isReasoningAvailable e m))) history new_manager.

(** An entry that says "available" was written under a preference that
    enables reasoning. *)
Definition cache_sound (m : manager) : Prop :=
  cache_value m = true -> enabled (cachedReasoningPreference m) = true.

Lemma isReasoningAvailable_sound e m :
  cache_sound m -> cache_sound (snd (fst (isReasoningAvailable e m))).
Proof.
  unfold cache_sound, isReasoningAvailable. unfold_task. fold (storedValue e).
  fold (enabled (storedValue e)). intros Hm.
  destruct ((now e <? cache_expiresAt m)%Z
            && option_string_eqb (cachedReasoningPreference m) (storedValue e));
    [exact Hm|].
  destruct (enabled (storedValue e)) eqn:Hen; cbn [negb].
  - destruct (reasoning_isAvailable e); cbn; intros _; exact Hen.
  - cbn. discriminate.
Qed.

Lemma after_sound history : cache_sound (after history).
Proof.
  unfold after. assert (H0 : cache_sound new_manager) by (intros H; discriminate).
  revert H0. generalize new_manager.
  induction history as [|e rest IH]; intros m Hm; [exact Hm|].
  cbn [fold_left]. apply IH, isReasoningAvailable_sound, Hm.
Qed.

(** X7. Switching the preference off takes effect at once: after any
    earlier calls, when the stored preference does not enable reasoning,
    [isReasoningAvailable] returns false without asking the service, and
    [processTranscription] returns the trimmed text without calling it. *)
Theorem reasoning_switched_off (history : list env) (e : env) (text source : string) :
  enabled (storedValue e) = false ->
  fst (fst (isReasoningAvailable e (after history))) = Ok false
  /\ snd (isReasoningAvailable e (after history)) = []
  /\ fst (fst (processTranscription e text source (after history))) = Ok (JS.trim text)
  /\ snd (processTranscription e text source (after history)) = [].
Proof.
  intros Hoff. pose proof (after_sound history) as Hsound.
  set (m := after history) in *.
  assert (Hcall : exists m', isReasoningAvailable e m = (Ok false, m', [])).
  { unfold isReasoningAvailable. unfold_task. fold (storedValue e).
    fold (enabled (storedValue e)). rewrite Hoff. cbn [negb].
    destruct ((now e <? cache_expiresAt m)%Z) eqn:Ht; cbn [andb]; [|eauto].
    destruct (option_string_eqb (cachedReasoningPreference m) (storedValue e)) eqn:Hp;
      [|eauto].
    apply preference_eqb_eq in Hp. unfold cache_sound in Hsound. rewrite Hp in Hsound.
    destruct (cache_value m); [|eauto]. rewrite Hoff in Hsound. discriminate (Hsound eq_refl). }
  destruct Hcall as [m' Hcall]. rewrite Hcall. cbn [fst snd].
  split; [reflexivity|]. split; [reflexivity|].
  assert (Hrun : exists m'', processTranscription e text source m
                             = (Ok (JS.trim text), m'', [])).
  { unfold processTranscription. destruct (negb (JS.truthy _)); [unfold ret; eauto|].
    unfold bind at 1. rewrite Hcall. unfold ret. eauto. }
  destruct Hrun as [m'' Hrun]. rewrite Hrun. split; reflexivity.
Qed.

Definition env_switched_off : env :=
  mkEnv (list_to_map [("useReasoningModel", "false"); ("reasoningModel", "gpt-4o-mini")])
        1500
        (fun _ _ => Throw "not called") (fun _ _ => Throw "not called")
        (throw "not called") (Ok true) (fun _ _ _ => Ok "rewritten").

Lemma reasoning_switched_off_witness :
  fst (fst (processTranscription env_switched_off " raw text " "local"
              (after [env_available])))
  = Ok (JS.trim " raw text ").
Proof.
  apply (reasoning_switched_off [env_available] env_switched_off " raw text " "local").
  vm_compute. reflexivity.
Defined.

End ReasoningCache.

(** ** What the API key cache holds *)

Module ApiKeyFacts.
Import ApiKey.

(** A computation that leaves the state as it is. *)
Definition keeps_state {E A} (c : M cache E A) : Prop :=
  forall m, snd (fst (c m)) = m.

Lemma keeps_ret {E A} (a : A) : keeps_state (E := E) (ret a).
Proof. intros m. reflexivity. Qed.

Lemma keeps_throw {E A} msg : keeps_state (E := E) (A := A) (throw msg).
Proof. intros m. reflexivity. Qed.

Lemma keeps_emit {E} (e : E) : keeps_state (emit e).
Proof. intros m. reflexivity. Qed.

Lemma keeps_lift {E A} (r : jsres A) : keeps_state (E := E) (lift r).
Proof. intros m. reflexivity. Qed.

Lemma keeps_bind {E A B} (c : M cache E A) (k : A -> M cache E B) :
  keeps_state c -> (forall a, keeps_state (k a)) -> keeps_state (bind c k).
Proof.
  intros Hc Hk m. unfold bind. specialize (Hc m).
  destruct (c m) as [[[a|msg] m'] ev]; cbn in Hc; subst m'; [|reflexivity].
  specialize (Hk a m). destruct (k a m) as [[r m''] ev']. exact Hk.
Qed.

Lemma keeps_try_catch {E A} (c : M cache E A) (h : string -> M cache E A) :
  keeps_state c -> (forall msg, keeps_state (h msg)) -> keeps_state (try_catch c h).
Proof.
  intros Hc Hh m. unfold try_catch. specialize (Hc m).
  destruct (c m) as [[[a|msg] m'] ev]; cbn in Hc; subst m'; [reflexivity|].
  specialize (Hh msg m). destruct (h msg m) as [[r m''] ev']. exact Hh.
Qed.

Lemma keeps_native p f : keeps_state (native p f).
Proof.
  unfold native. destruct f; [|apply keeps_ret].
  apply keeps_bind; [apply keeps_emit | intros; apply keeps_lift].
Qed.

Lemma keeps_stored e key : keeps_state (stored e key).
Proof. apply keeps_bind; [apply keeps_emit | intros; apply keeps_ret]. Qed.

Lemma keeps_lookup e provider : keeps_state (lookup e provider).
Proof.
  unfold lookup.
  destruct (String.eqb provider "custom"); [|destruct (String.eqb provider "groq")].
  - apply keeps_bind.
    { apply keeps_try_catch; [apply keeps_native | intros; apply keeps_ret]. }
    intros k. apply keeps_bind; [|intros; apply keeps_ret].
    destruct (blank k); [|apply keeps_ret].
    apply keeps_bind; [apply keeps_stored | intros; apply keeps_ret].
  - apply keeps_bind; [apply keeps_native|]. intros k.
    apply keeps_bind.
    { destruct (negb _); [apply keeps_stored | apply keeps_ret]. }
    intros k'. destruct (negb _); [apply keeps_throw | apply keeps_ret].
  - apply keeps_bind; [apply keeps_native|]. intros k.
    apply keeps_bind.
    { destruct (negb _); [apply keeps_stored | apply keeps_ret]. }
    intros k'. destruct (negb _); [apply keeps_throw | apply keeps_ret].
Qed.

(** A call that misses the cache, in terms of the lookup. *)
Definition missed (e : env) (m : cache) : jsres (option string) * cache * list event :=
  match lookup e (provider_of e) m with
  | (Ok k, _, ev) => (Ok k, mkCache k (Some (provider_of e)), ev)
  | (Throw msg, _, ev) => (Throw msg, m, ev)
  end.

Lemma getAPIKey_cases e m :
  (exists key,
     cachedApiKey m = Some key
     /\ option_string_eqb (cachedApiKeyProvider m) (provider_of e) = true
     /\ getAPIKey e m = (Ok (Some key), m, []))
  \/ ((cachedApiKey m = None
       \/ option_string_eqb (cachedApiKeyProvider m) (provider_of e) = false)
      /\ getAPIKey e m = missed e m).
Proof.
  pose proof (keeps_lookup e (provider_of e) m) as Hkeep.
  unfold getAPIKey, missed, bind, get_state, put_state, ret.
  destruct (cachedApiKey m) as [key|] eqn:Hc;
    [destruct (option_string_eqb (cachedApiKeyProvider m) (provider_of e)) eqn:Hp|].
  - left. exists key. repeat split.
  - right. split; [now right|].
    destruct (lookup e (provider_of e) m) as [[[k|msg] m'] ev]; cbn in Hkeep; subst m';
      cbn; rewrite ?app_nil_r; reflexivity.
  - right. split; [now left|].
    destruct (lookup e (provider_of e) m) as [[[k|msg] m'] ev]; cbn in Hkeep; subst m';
      cbn; rewrite ?app_nil_r; reflexivity.
Qed.

(** *** What a computation returns *)

Definition returns {S E A} (c : M S E A) (P : A -> Prop) : Prop :=
  forall m r m' ev, c m = (Ok r, m', ev) -> P r.

Lemma returns_ret {S E A} (a : A) (P : A -> Prop) : P a -> returns (S := S) (E := E) (ret a) P.
Proof. intros H m r m' ev Heq. unfold ret in Heq. inversion Heq; subst. exact H. Qed.

Lemma returns_throw {S E A} msg (P : A -> Prop) : returns (S := S) (E := E) (throw msg) P.
Proof. intros m r m' ev Heq. discriminate. Qed.

Lemma returns_bind {S E A B} (c : M S E A) (k : A -> M S E B) (Q : A -> Prop) (P : B -> Prop) :
  returns c Q -> (forall a, Q a -> returns (k a) P) -> returns (bind c k) P.
Proof.
  intros Hc Hk m r m' ev. unfold bind.
  destruct (c m) as [[[a|msg] m1] ev1] eqn:Ec; [|discriminate].
  destruct (k a m1) as [[r2 m2] ev2] eqn:Ek. intros Heq. inversion Heq; subst.
  eapply Hk; [eapply Hc; exact Ec | exact Ek].
Qed.

Lemma returns_try_catch {S E A} (c : M S E A) (h : string -> M S E A) (P : A -> Prop) :
  returns c P -> (forall msg, returns (h msg) P) -> returns (try_catch c h) P.
Proof.
  intros Hc Hh m r m' ev. unfold try_catch.
  destruct (c m) as [[[a|msg] m1] ev1] eqn:Ec.
  - intros Heq. inversion Heq; subst. eapply Hc, Ec.
  - destruct (h msg m1) as [[r2 m2] ev2] eqn:Eh. intros Heq. inversion Heq; subst.
    eapply Hh, Eh.
Qed.

Lemma returns_true {S E A} (c : M S E A) : returns c (fun _ => True).
Proof. intros m r m' ev _. exact I. Qed.

(** What makes a key fit to be returned under a provider: under "custom" it
    is not empty; under any other it passes [isValidApiKey], for "groq" or
    else for "openai". *)
Definition acceptable (provider key : string) : bool :=
  if String.eqb provider "custom" then JS.truthy key
  else if String.eqb provider "groq" then isValidApiKey (Some key) "groq"
  else isValidApiKey (Some key) "openai".

Lemma lookup_acceptable e provider :
  returns (lookup e provider)
          (fun r => forall key, r = Some key -> acceptable provider key = true).
Proof.
  unfold lookup, acceptable.
  destruct (String.eqb provider "custom"); [|destruct (String.eqb provider "groq")].
  - eapply returns_bind; [apply returns_true|]. intros k _.
    eapply returns_bind; [apply returns_true|]. intros k' _.
    apply returns_ret. intros key.
    destruct (JS.truthy (JS.or_default (option_map JS.trim k') "")) eqn:Ht; [|discriminate].
    intros H. injection H as <-. exact Ht.
  - eapply returns_bind; [apply returns_true|]. intros k _.
    eapply returns_bind; [apply returns_true|]. intros k' _.
    destruct (isValidApiKey k' "groq") eqn:Hv; cbn [negb]; [|apply returns_throw].
    apply returns_ret. intros key ->. exact Hv.
  - eapply returns_bind; [apply returns_true|]. intros k _.
    eapply returns_bind; [apply returns_true|]. intros k' _.
    destruct (isValidApiKey k' "openai") eqn:Hv; cbn [negb]; [|apply returns_throw].
    apply returns_ret. intros key ->. exact Hv.
Qed.

(** The manager's cache after a series of calls, each under the credential
    stores of its moment. *)
Definition after (history : list env) : cache :=
  fold_left (fun m e => snd (fst (getAPIKey e m))) history new_cache.

Definition cache_fit (m : cache) : Prop :=
  forall key, cachedApiKey m = Some key ->
    exists provider, cachedApiKeyProvider m = Some provider /\ acceptable provider key = true.

Lemma option_string_eqb_true a b : option_string_eqb a b = true -> a = Some b.
Proof.
  destruct a as [x|]; cbn; [|discriminate]. intros H. apply String.eqb_eq in H. now subst.
Qed.

Lemma getAPIKey_fit e m :
  cache_fit m ->
  cache_fit (snd (fst (getAPIKey e m)))
  /\ (forall key, fst (fst (getAPIKey e m)) = Ok (Some key) ->
        acceptable (provider_of e) key = true).
Proof.
  intros Hfit. destruct (getAPIKey_cases e m) as [(key & Hc & Hp & Heq) | (_ & Heq)].
  - rewrite Heq. cbn [fst snd]. split; [exact Hfit|].
    intros key' H. injection H as <-.
    destruct (Hfit key Hc) as (p & Hp' & Hacc).
    apply option_string_eqb_true in Hp. congruence.
  - rewrite Heq. unfold missed.
    pose proof (lookup_acceptable e (provider_of e) m) as Hl.
    destruct (lookup e (provider_of e) m) as [[[k|msg] m'] ev]; cbn [fst snd].
    + specialize (Hl k m' ev eq_refl). split.
      * intros key Hk. cbn in Hk. exists (provider_of e). split; [reflexivity|]. auto.
      * intros key H. injection H as ->. auto.
    + split; [exact Hfit | discriminate].
Qed.

Lemma after_fit history : cache_fit (after history).
Proof.
  unfold after. assert (H0 : cache_fit new_cache) by (intros key H; discriminate).
  revert H0. generalize new_cache.
  induction history as [|e rest IH]; intros m Hm; [exact Hm|].
  cbn [fold_left]. apply IH. now apply getAPIKey_fit.
Qed.

Lemma valid_key_facts key provider :
  isValidApiKey (Some key) provider = true ->
  key <> "" /\ JS.trim key <> ""
  /\ key <> JS.or_default (PLACEHOLDER_KEYS provider) "your_openai_api_key_here".
Proof.
  unfold isValidApiKey.
  destruct (negb (JS.truthy key)) eqn:Ht; cbn [orb]; [discriminate|].
  destruct (String.eqb (JS.trim key) "") eqn:Hb; [discriminate|].
  intros Hp. apply negb_true_iff, String.eqb_neq in Hp. apply String.eqb_neq in Hb.
  repeat split; try assumption. intros ->. discriminate.
Qed.

(** X8. After any earlier calls, a key that [getAPIKey] returns, from the
    stores or from the cache, is never empty; under "groq" and under every
    provider but "custom" it is moreover not blank and not the placeholder
    of the unset key. *)
Theorem returned_key_is_usable (history : list env) (e : env) (key : string) :
  fst (fst (getAPIKey e (after history))) = Ok (Some key) ->
  key <> ""
  /\ (provider_of e = "groq" ->
      JS.trim key <> "" /\ key <> "your_groq_api_key_here")
  /\ (provider_of e <> "custom" -> provider_of e <> "groq" ->
      JS.trim key <> "" /\ key <> "your_openai_api_key_here").
Proof.
  intros H. destruct (getAPIKey_fit e (after history) (after_fit history)) as [_ Hacc].
  specialize (Hacc key H). unfold acceptable in Hacc.
  destruct (String.eqb (provider_of e) "custom") eqn:Hc.
  - apply String.eqb_eq in Hc. split; [intros ->; discriminate|]. split.
    + intros Hg. rewrite Hg in Hc. discriminate.
    + intros Hn. contradiction.
  - destruct (String.eqb (provider_of e) "groq") eqn:Hg.
    + destruct (valid_key_facts key "groq" Hacc) as (H1 & H2 & H3). split; [exact H1|].
      split; [intros _; split; assumption|].
      intros _ Hn. apply String.eqb_eq in Hg. contradiction.
    + destruct (valid_key_facts key "openai" Hacc) as (H1 & H2 & H3). split; [exact H1|].
      split; [intros Hp; rewrite Hp in Hg; discriminate|].
      intros _ _. split; assumption.
Qed.

(** The native lookup holds the placeholder, the preferences a real key. *)
Definition env_groq_placeholder : env :=
  mkEnv (list_to_map [("cloudTranscriptionProvider", "groq"); ("groqApiKey", "gsk_real")])
        None (Some (Ok (Some "your_groq_api_key_here"))) (Ok None).

Lemma returned_key_is_usable_witness :
  "gsk_real" <> ""
  /\ (provider_of env_groq_placeholder = "groq" ->
      JS.trim "gsk_real" <> "" /\ "gsk_real" <> "your_groq_api_key_here")
  /\ (provider_of env_groq_placeholder <> "custom" ->
      provider_of env_groq_placeholder <> "groq" ->
      JS.trim "gsk_real" <> "" /\ "gsk_real" <> "your_openai_api_key_here").
Proof.
  apply (returned_key_is_usable [env_groq_placeholder] env_groq_placeholder "gsk_real").
  vm_compute. reflexivity.
Defined.

Lemma lookup_custom_returns e m :
  exists r ev, lookup e "custom" m = (Ok r, m, ev).
Proof.
  unfold lookup. change ("custom" =? "custom")%string with true. cbv iota.
  unfold native, stored. unfold_task_key.
  destruct (getCustomTranscriptionKey e) as [[k|msg]|]; cbn;
    try destruct (blank k); cbn; eauto.
Qed.

(** X9. Under provider "custom" [getAPIKey] never throws, not even when
    the native lookup does: it returns the key or [null].  Under any
    provider a call that throws leaves the cache as it was, so a key
    cached for another provider is served again, without a lookup, once the
    stored provider is that one again. *)
Theorem key_lookup_failures (e e' : env) (m m1 : cache) (key msg : string)
    (ev : list event) :
  (provider_of e = "custom" -> exists r, fst (fst (getAPIKey e m)) = Ok r)
  /\ (getAPIKey e m = (Throw msg, m1, ev) -> m1 = m)
  /\ (getAPIKey e m = (Throw msg, m1, ev) ->
      cachedApiKey m = Some key ->
      cachedApiKeyProvider m = Some (provider_of e') ->
      getAPIKey e' m1 = (Ok (Some key), m1, [])).
Proof.
  assert (Hkeep : getAPIKey e m = (Throw msg, m1, ev) -> m1 = m).
  { destruct (getAPIKey_cases e m) as [(k & _ & _ & Heq) | (_ & Heq)];
      rewrite Heq; [discriminate|].
    unfold missed. destruct (lookup e (provider_of e) m) as [[[k|msg'] m'] ev'];
      intros H; inversion H; reflexivity. }
  split; [|split; [exact Hkeep|]].
  - intros Hp. destruct (getAPIKey_cases e m) as [(k & _ & _ & Heq) | (_ & Heq)];
      rewrite Heq; [eauto|].
    unfold missed. rewrite Hp. destruct (lookup_custom_returns e m) as (r & ev' & ->).
    eauto.
  - intros Hthrow Hc Hp. rewrite (Hkeep Hthrow).
    destruct (getAPIKey_cases e' m) as [(k & Hc' & _ & Heq) | ([Hnone | Hdiff] & _)].
    + rewrite Heq. congruence.
    + congruence.
    + rewrite Hp in Hdiff. cbn in Hdiff. rewrite String.eqb_refl in Hdiff. discriminate.
Qed.

(** Provider "custom": the native lookup throws and nothing is stored. *)
Definition env_custom_throws : env :=
  mkEnv (list_to_map [("cloudTranscriptionProvider", "custom")])
        (Some (Throw "keychain locked")) None (Ok None).

(** Provider "groq" with no key anywhere. *)
Definition env_groq_no_key : env :=
  mkEnv (list_to_map [("cloudTranscriptionProvider", "groq")]) None (Some (Ok None)) (Ok None).

(** Provider "openai" again. *)
Definition env_openai : env := mkEnv ∅ None None (Ok None).

Example custom_lookup_throws :
  getAPIKey env_custom_throws new_cache
  = (Ok None, mkCache None (Some "custom"),
     [NativeLookup "custom"; StoredKeyRead "customTranscriptionApiKey"]).
Proof. vm_compute. reflexivity. Qed.

Lemma key_lookup_failures_witness :
  getAPIKey env_openai (mkCache (Some "sk-cached") (Some "openai"))
  = (Ok (Some "sk-cached"), mkCache (Some "sk-cached") (Some "openai"), []).
Proof.
  apply (proj2 (proj2 (key_lookup_failures env_groq_no_key env_openai
                         (mkCache (Some "sk-cached") (Some "openai"))
                         (mkCache (Some "sk-cached") (Some "openai")) "sk-cached"
                         "Groq API key not found. Please set your API key in the Control Panel."
                         [NativeLookup "groq"; StoredKeyRead "groqApiKey"]))).
  - vm_compute. reflexivity.
  - reflexivity.
  - vm_compute. reflexivity.
Defined.

End ApiKeyFacts.

(** ** The endpoint cache *)

Module EndpointFacts.
Import Endpoint.

Lemma new_cache_ok I : cache_ok I new_cache.
Proof. intros ep H. discriminate. Qed.

Lemma differs_same s : differs (Some s) s = false.
Proof. cbn. now rewrite String.eqb_refl. Qed.

Lemma getTranscriptionEndpoint_again I ls m :
  getTranscriptionEndpoint I ls (snd (getTranscriptionEndpoint I ls m))
  = getTranscriptionEndpoint I ls m.
Proof.
  unfold getTranscriptionEndpoint at 2 3.
  set (fresh := (resolve I (currentProvider ls) (currentBaseUrl ls),
                 mkCache (Some (resolve I (currentProvider ls) (currentBaseUrl ls)))
                         (Some (currentProvider ls)) (Some (currentBaseUrl ls)))).
  assert (Hfresh : getTranscriptionEndpoint I ls (snd fresh) = fresh).
  { unfold getTranscriptionEndpoint, fresh. cbn [snd cachedTranscriptionEndpoint
      cachedEndpointProvider cachedEndpointBaseUrl]. rewrite !differs_same. cbn [orb].
    rewrite andb_false_r.
    destruct (JS.truthy (resolve I (currentProvider ls) (currentBaseUrl ls))); reflexivity. }
  destruct (cachedTranscriptionEndpoint m) as [ep|] eqn:Hc; [|exact Hfresh].
  destruct (JS.truthy ep) eqn:Ht; cbn [andb]; [|rewrite Ht; exact Hfresh].
  destruct (differs (cachedEndpointProvider m) (currentProvider ls)
            || differs (cachedEndpointBaseUrl m) (currentBaseUrl ls)) eqn:Hd;
    [exact Hfresh|].
  rewrite Ht. unfold getTranscriptionEndpoint.
  cbn [snd cachedTranscriptionEndpoint cachedEndpointProvider cachedEndpointBaseUrl].
  rewrite Ht, Hd. cbn [andb]. rewrite Ht. reflexivity.
Qed.

(** X10. The endpoint cache is transparent: after any earlier calls, under
    whatever preferences they ran, a call returns the endpoint a new
    manager would return under the preferences of the moment; and a call
    repeated under the same preferences returns the same endpoint and
    leaves the cache as the first call left it. *)
Theorem endpoint_cache_is_transparent
    (I : imports) (history : list storage) (ls : storage) (m : cache) :
  fst (getTranscriptionEndpoint I ls (after I history))
  = fst (getTranscriptionEndpoint I ls new_cache)
  /\ getTranscriptionEndpoint I ls (snd (getTranscriptionEndpoint I ls m))
     = getTranscriptionEndpoint I ls m.
Proof.
  split; [|apply getTranscriptionEndpoint_again].
  destruct (getTranscriptionEndpoint_resolves I ls (after I history) (after_ok I history))
    as [-> _].
  destruct (getTranscriptionEndpoint_resolves I ls new_cache (new_cache_ok I)) as [-> _].
  reflexivity.
Qed.

(** X11. Resolution never fails towards the caller and keeps a full path:
    after any earlier calls, when [normalizeBaseUrl] throws or returns
    nothing the endpoint is the default; and when the normalized base of an
    accepted provider already ends in /audio/transcriptions or
    /audio/translations, in any letter case, the endpoint is that base
    itself, with nothing appended. *)
Theorem endpoint_failures_and_full_paths
    (I : imports) (history : list storage) (ls : storage) :
  let endpoint := fst (getTranscriptionEndpoint I ls (after I history)) in
  let base := base_of I (currentProvider ls) (currentBaseUrl ls) in
  ((forall normalizedBase, normalizeBaseUrl I base = Ok normalizedBase ->
      normalizedBase = "") ->
   endpoint = TRANSCRIPTION I)
  /\ (forall normalizedBase,
        normalizeBaseUrl I base = Ok normalizedBase ->
        normalizedBase <> "" ->
        (currentProvider ls = "custom" -> isSecureEndpoint I normalizedBase = Ok true) ->
        has_audio_path normalizedBase = true ->
        endpoint = normalizedBase).
Proof.
  intros endpoint base. subst endpoint.
  destruct (getTranscriptionEndpoint_resolves I ls (after I history) (after_ok I history))
    as [-> _].
  unfold resolve, endpoint_of_base. fold base. split.
  - intros Hnone. destruct (normalizeBaseUrl I base) as [nb|]; [|reflexivity].
    rewrite (Hnone nb eq_refl). reflexivity.
  - intros nb Hn Hne Hsec Hpath. rewrite Hn.
    assert (Ht : JS.truthy nb = true) by (destruct nb; [contradiction | reflexivity]).
    rewrite Ht. cbn [negb].
    destruct (String.eqb (currentProvider ls) "custom") eqn:Hc.
    + apply String.eqb_eq in Hc. rewrite (Hsec Hc), Hpath. reflexivity.
    + rewrite Hpath. reflexivity.
Qed.

Definition prefs_custom_translations : storage :=
  list_to_map [("cloudTranscriptionProvider", "custom");
               ("cloudTranscriptionBaseUrl", " https://stt.example.com/v1/Audio/Translations/ ")].

Lemma endpoint_failures_and_full_paths_witness :
  fst (getTranscriptionEndpoint spec_imports prefs_custom_translations
         (after spec_imports [prefs_groq]))
  = "https://stt.example.com/v1/Audio/Translations".
Proof.
  apply (proj2 (endpoint_failures_and_full_paths spec_imports [prefs_groq]
                  prefs_custom_translations)).
  - vm_compute. reflexivity.
  - discriminate.
  - intros _. vm_compute. reflexivity.
  - vm_compute. reflexivity.
Defined.

End EndpointFacts.

(** ** The samples of the WAV encoder *)

Module WavFacts.
Import Wav.

Local Open Scope Z_scope.

(** [view.getInt16(offset, true)] *)
Definition getInt16 (offset : nat) (b : list Z) : Z :=
  let u := getUint16 offset b in
  if u <? 32768 then u else u - 65536.

(** Reading [n] samples back, from [offset]. *)
Fixpoint read_samples (n offset : nat) (b : list Z) : list Z :=
  match n with
  | O => []
  | S k => getInt16 offset b :: read_samples k (offset + 2) b
  end.

Lemma Qltb_ge a b : Qltb a b = false <-> (b <= a)%Q.
Proof.
  unfold Qltb. rewrite negb_false_iff. apply Qle_bool_iff.
Qed.

Lemma div_mono_cross (n1 e1 n2 e2 : Z) :
  0 < e1 -> 0 < e2 -> 0 <= n1 -> n1 * e2 <= n2 * e1 -> n1 / e1 <= n2 / e2.
Proof.
  intros H1 H2 Hn H. apply Z.div_le_lower_bound; [exact H2|].
  pose proof (Z.mul_div_le n1 e1 H1) as Ht.
  assert (Hq : 0 <= n1 / e1) by (apply Z.div_pos; lia).
  nia.
Qed.

Lemma quot_mono_cross (n1 e1 n2 e2 : Z) :
  0 < e1 -> 0 < e2 -> n1 * e2 <= n2 * e1 -> n1 ÷ e1 <= n2 ÷ e2.
Proof.
  intros H1 H2 H. destruct (Z_le_gt_dec 0 n1) as [Hn|Hn].
  - assert (0 <= n2) by nia.
    rewrite !Z.quot_div_nonneg by lia. now apply div_mono_cross.
  - destruct (Z_le_gt_dec 0 n2) as [Hm|Hm].
    + transitivity 0.
      * apply Z.quot_le_upper_bound; lia.
      * apply Z.quot_pos; lia.
    + replace n1 with (- - n1) by lia. replace n2 with (- - n2) by lia.
      rewrite !(Z.quot_opp_l (- _)) by lia.
      rewrite !Z.quot_div_nonneg by lia.
      apply Z.opp_le_mono. rewrite !Z.opp_involutive.
      apply div_mono_cross; lia.
Qed.

Lemma truncate_mono p q : (p <= q)%Q -> truncate p <= truncate q.
Proof.
  destruct p as [n1 d1], q as [n2 d2]. unfold Qle, truncate. cbn [Qnum Qden].
  intros H. apply quot_mono_cross; [reflexivity | reflexivity | exact H].
Qed.

Lemma truncate_inject_Z a : truncate (inject_Z a) = a.
Proof. unfold truncate, inject_Z. cbn. apply Z.quot_1_r. Qed.

(** The clamped sample, as a number between -1 and 1. *)
Definition clamped (q : Q) : Q :=
  let lo := if Qltb 1 q then 1%Q else q in
  if Qltb lo (-1) then (-1)%Q else lo.

Lemma clamped_bounds q : (-1 <= clamped q <= 1)%Q.
Proof.
  unfold clamped. destruct (Qltb 1 q) eqn:Hhi.
  - change (Qltb 1 (-1)) with false. cbv iota. split; discriminate.
  - apply Qltb_ge in Hhi. destruct (Qltb q (-1)) eqn:Hlo.
    + split; discriminate.
    + apply Qltb_ge in Hlo. split; assumption.
Qed.

Lemma clamped_mono p q : (p <= q)%Q -> (clamped p <= clamped q)%Q.
Proof.
  intros H. pose proof (clamped_bounds q) as [Bq1 Bq2].
  pose proof (clamped_bounds p) as [Bp1 Bp2].
  unfold clamped in *. destruct (Qltb 1 p) eqn:Hp.
  - apply Qltb_lt in Hp.
    assert (Hq : Qltb 1 q = true) by (apply Qltb_lt; eapply Qlt_le_trans; eassumption).
    rewrite Hq. apply Qle_refl.
  - apply Qltb_ge in Hp. destruct (Qltb p (-1)) eqn:Hp'; [exact Bq1|].
    apply Qltb_ge in Hp'. destruct (Qltb 1 q) eqn:Hq.
    + change (Qltb 1 (-1)) with false. cbv iota. exact Hp.
    + destruct (Qltb q (-1)) eqn:Hq'; [|exact H].
      apply Qltb_lt in Hq'. exfalso. apply (Qlt_irrefl q).
      eapply Qlt_le_trans; [exact Hq'|]. eapply Qle_trans; eassumption.
Qed.

Lemma scale_mono p q : (p <= q)%Q -> (scale p <= scale q)%Q.
Proof.
  intros H. unfold scale.
  destruct (Qltb p 0) eqn:Hp; destruct (Qltb q 0) eqn:Hq;
    try apply Qltb_lt in Hp; try apply Qltb_lt in Hq;
    try apply Qltb_ge in Hp; try apply Qltb_ge in Hq;
    destruct p as [n1 d1], q as [n2 d2];
    unfold Qle, Qlt, Qmult in *; cbn [Qnum Qden] in *; nia.
Qed.

Lemma scale_bounds s : (-1 <= s <= 1)%Q -> (inject_Z (-32768) <= scale s <= inject_Z 32767)%Q.
Proof.
  intros [H1 H2]. unfold scale.
  destruct (Qltb s 0) eqn:Hs; [apply Qltb_lt in Hs | apply Qltb_ge in Hs];
    destruct s as [n d]; unfold Qle, Qlt, Qmult, inject_Z in *; cbn [Qnum Qden] in *;
    split; nia.
Qed.

Lemma sample_int16_finite q : sample_int16 (Finite q) = truncate (scale (clamped q)).
Proof. reflexivity. Qed.

Lemma sample_int16_range x : -32768 <= sample_int16 x <= 32767.
Proof.
  destruct x as [q| | |]; try (vm_compute; split; discriminate).
  rewrite sample_int16_finite.
  destruct (scale_bounds (clamped q) (clamped_bounds q)) as [H1 H2].
  apply truncate_mono in H1, H2. rewrite truncate_inject_Z in H1, H2. lia.
Qed.

Lemma getInt16_int16_le (pre rest : list Z) (v : Z) :
  -32768 <= v <= 32767 ->
  getInt16 (Datatypes.length pre) (pre ++ int16_le v ++ rest) = v.
Proof.
  intros Hv. unfold getInt16, getUint16, int16_le.
  rewrite (lookup_total_app_r pre _ (Datatypes.length pre)) by lia.
  rewrite (lookup_total_app_r pre _ (Datatypes.length pre + 1)%nat) by lia.
  replace (Datatypes.length pre - Datatypes.length pre)%nat with 0%nat by lia.
  replace (Datatypes.length pre + 1 - Datatypes.length pre)%nat with 1%nat by lia.
  change (([v mod 65536 mod 256; (v mod 65536 / 256) mod 256] ++ rest) !!! 0%nat)
    with (v mod 65536 mod 256).
  change (([v mod 65536 mod 256; (v mod 65536 / 256) mod 256] ++ rest) !!! 1%nat)
    with ((v mod 65536 / 256) mod 256).
  assert (Hw : 0 <= v mod 65536 < 65536) by (apply Z.mod_pos_bound; lia).
  assert (Hu : v mod 65536 mod 256 + 256 * ((v mod 65536 / 256) mod 256) = v mod 65536).
  { generalize dependent (v mod 65536). intros w Hw. Z.div_mod_to_equations. lia. }
  cbv zeta. rewrite Hu.
  destruct (Z_lt_ge_dec v 0) as [Hneg|Hpos].
  - assert (Hm : v mod 65536 = v + 65536).
    { symmetry. apply (Z.mod_unique_pos _ _ (-1)); lia. }
    rewrite Hm. destruct (Z.ltb_spec (v + 65536) 32768); lia.
  - rewrite (Z.mod_small v) by lia.
    destruct (Z.ltb_spec v 32768); lia.
Qed.

Lemma read_samples_payload samples : forall pre,
  read_samples (Datatypes.length samples) (Datatypes.length pre)
    (pre ++ flat_map (fun x => int16_le (sample_int16 x)) samples)
  = map sample_int16 samples.
Proof.
  induction samples as [|x rest IH]; intros pre; [reflexivity|].
  cbn [Datatypes.length read_samples flat_map map]. f_equal.
  - apply getInt16_int16_le, sample_int16_range.
  - replace (Datatypes.length pre + 2)%nat
      with (Datatypes.length (pre ++ int16_le (sample_int16 x)))
      by (rewrite length_app; reflexivity).
    rewrite app_assoc. apply IH.
Qed.

(** X12. Quantisation never wraps around: every sample, whatever its value
    (beyond the range, infinite or NaN), is stored as an integer between
    -32768 and 32767, and reading the signed 16-bit little-endian samples
    back from offset 44 of the encoder's output gives exactly the integers
    the encoder computed, one for each sample and in their order. *)
Theorem wav_samples_round_trip (buffer : AudioBuffer) :
  Forall (fun x => -32768 <= sample_int16 x <= 32767) (channelData buffer)
  /\ read_samples (Datatypes.length (channelData buffer)) 44 (audioBufferToWav buffer)
     = map sample_int16 (channelData buffer).
Proof.
  split.
  - apply Forall_forall. intros x _. apply sample_int16_range.
  - rewrite audioBufferToWav_bytes. rewrite <- (header_length buffer).
    apply read_samples_payload.
Qed.

(** X13. Quantisation keeps the order of the samples and saturates: a
    sample that is not smaller is stored as an integer that is not smaller;
    samples of 1 and above and positive infinity are stored as 32767,
    samples of -1 and below and negative infinity as -32768, zero and NaN
    as 0; a negative sample is never stored as a positive integer, nor a
    positive sample as a negative one. *)
Theorem wav_quantisation_is_monotone (p q : Q) :
  ((p <= q)%Q -> sample_int16 (Finite p) <= sample_int16 (Finite q))
  /\ ((1 <= q)%Q -> sample_int16 (Finite q) = 32767)
  /\ ((q <= -1)%Q -> sample_int16 (Finite q) = -32768)
  /\ ((q <= 0)%Q -> sample_int16 (Finite q) <= 0)
  /\ ((0 <= q)%Q -> 0 <= sample_int16 (Finite q))
  /\ sample_int16 PosInf = 32767 /\ sample_int16 NegInf = -32768
  /\ sample_int16 NaN = 0.
Proof.
  assert (Hmono : forall a b, (a <= b)%Q ->
            sample_int16 (Finite a) <= sample_int16 (Finite b)).
  { intros a b H. rewrite !sample_int16_finite.
    now apply truncate_mono, scale_mono, clamped_mono. }
  pose proof (sample_int16_range (Finite q)) as [Hlo Hhi].
  repeat split; try reflexivity.
  - apply Hmono.
  - intros H. apply Hmono in H. change (sample_int16 (Finite 1)) with 32767 in H. lia.
  - intros H. apply Hmono in H. change (sample_int16 (Finite (-1))) with (-32768) in H. lia.
  - intros H. apply Hmono in H. exact H.
  - intros H. apply Hmono in H. exact H.
Qed.

Lemma wav_quantisation_is_monotone_witness :
  sample_int16 (Finite (-3 # 10)) <= sample_int16 (Finite (7 # 10))
  /\ sample_int16 (Finite (5 # 4)) = 32767
  /\ sample_int16 (Finite (-2)) = -32768.
Proof.
  split; [|split].
  - apply (proj1 (wav_quantisation_is_monotone (-3 # 10) (7 # 10))). discriminate.
  - apply (proj1 (proj2 (wav_quantisation_is_monotone 0 (5 # 4)))). discriminate.
  - apply (proj1 (proj2 (proj2 (wav_quantisation_is_monotone 0 (-2))))). discriminate.
Defined.

End WavFacts.

(** ** One run of the dispatcher *)

Module PipelineFacts.
Import Pipeline.

Local Open Scope js_scope.

(** The calls that hand the audio to an engine. *)
Definition engine_call (ev : event) : bool :=
  match ev with
  | TranscribeLocalWhisper _ _ | TranscribeLocalParakeet _ _ | CloudRequest => true
  | _ => false
  end.

(** The calls of the reasoning service. *)
Definition reasoning_call (ev : event) : bool :=
  match ev with
  | ReasoningIsAvailable | ReasoningProcessText _ _ _ => true
  | _ => false
  end.

(** What the manager tells its owner. *)
Definition callback (ev : event) : bool :=
  match ev with
  | OnTranscriptionComplete _ | OnError _ _ | OnNoAudioDetected | OnStateChange _ _ => true
  | _ => false
  end.

Definition engine_calls (evs : list event) : list event := List.filter engine_call evs.
Definition callbacks (evs : list event) : list event := List.filter callback evs.

Definition quiet (evs : list event) : Prop :=
  Forall (fun ev => reasoning_call ev = true) evs.

(** The request of [processWithOpenAIAPI], from its second line to its
    [return], calls the reasoning service through [processTranscription]
    and [isReasoningAvailable], and none of the callbacks or engines. *)
Definition cloud_quiet (e : env) : Prop := forall m, quiet (snd (cloud_request e m)).

(** The branch of [processAudio] that picks the path. *)
Definition dispatch (e : env) : task transcription :=
  if useLocalWhisper e then
    if String.eqb (localProvider e) "nvidia"
    then processWithLocalParakeet e (parakeetModel e)
    else processWithLocalWhisper e (whisperModel e)
  else processWithOpenAIAPI e.

(** The first call of a run in local mode. *)
Definition preferred_engine (e : env) : event :=
  if String.eqb (localProvider e) "nvidia"
  then TranscribeLocalParakeet (parakeetModel e) (engine_language e)
  else TranscribeLocalWhisper (whisperModel e) (engine_language e).

Definition fallbackModel (e : env) : string :=
  JS.or_default (getItem (localStorage e) "fallbackWhisperModel") "base".

Definition idle (m : manager) : manager :=
  mkManager false (cache_value m) (cache_expiresAt m) (cachedReasoningPreference m).

Lemma engine_calls_app a b : engine_calls (a ++ b) = engine_calls a ++ engine_calls b.
Proof. apply List.filter_app. Qed.

Lemma callbacks_app a b : callbacks (a ++ b) = callbacks a ++ callbacks b.
Proof. apply List.filter_app. Qed.

Lemma quiet_engine_calls evs : quiet evs -> engine_calls evs = [].
Proof.
  induction 1 as [|ev evs Hev _ IH]; [reflexivity|].
  cbn. destruct ev; try discriminate; exact IH.
Qed.

Lemma quiet_callbacks evs : quiet evs -> callbacks evs = [].
Proof.
  induction 1 as [|ev evs Hev _ IH]; [reflexivity|].
  cbn. destruct ev; try discriminate; exact IH.
Qed.

Lemma quiet_app a b : quiet a -> quiet b -> quiet (a ++ b).
Proof. apply Forall_app_2. Qed.

Lemma isReasoningAvailable_quiet e m :
  exists b m' ev, isReasoningAvailable e m = (Ok b, m', ev) /\ quiet ev.
Proof.
  destruct (isReasoningAvailable_cases e m) as (b & m' & ev & Hrun & Hev).
  exists b, m', ev. split; [exact Hrun|].
  destruct Hev as [-> | [-> _]]; repeat constructor.
Qed.

Lemma processTranscription_quiet e text source m :
  exists s m' ev, processTranscription e text source m = (Ok s, m', ev) /\ quiet ev.
Proof.
  unfold processTranscription.
  destruct (negb _). { do 3 eexists. split; [reflexivity | constructor]. }
  destruct (isReasoningAvailable_quiet e m) as (b & m' & ev & Hav & Hev).
  unfold bind at 1. rewrite Hav. destruct b.
  - unfold processWithReasoningModel. unfold_task.
    destruct (reasoning_processText e _ _ _); do 3 eexists;
      (split; [reflexivity|]); rewrite ?app_nil_r;
      apply quiet_app; try exact Hev; repeat constructor.
  - unfold ret. do 3 eexists. split; [reflexivity|]. now rewrite app_nil_r.
Qed.

(** The run of [processAudio], from the run of the path it picks. *)
Lemma processAudio_dispatch e m :
  processAudio e m
  = match dispatch e m with
    | (Ok result, m1, ev) =>
        (Ok tt, idle m1, ev ++ [OnTranscriptionComplete result; OnStateChange false false])
    | (Throw error, m1, ev) =>
        (Ok tt, idle m1,
         ev ++ (if String.eqb error "No audio detected" then []
                else [OnError "Transcription Error" ("Transcription failed: " +:+ error)])
            ++ [OnStateChange false false])
    end.
Proof.
  unfold processAudio. fold (dispatch e).
  unfold finally, try_catch, bind, emit, finish_processing.
  destruct (dispatch e m) as [[[result | error] m1] ev].
  - cbn. rewrite <- app_assoc. reflexivity.
  - destruct (String.eqb error "No audio detected"); cbn;
      rewrite ?app_nil_r; try rewrite <- app_assoc; reflexivity.
Qed.

Lemma engine_calls_cons ev evs :
  engine_calls (ev :: evs) = (if engine_call ev then [ev] else []) ++ engine_calls evs.
Proof. unfold engine_calls. cbn. destruct (engine_call ev); reflexivity. Qed.

Lemma callbacks_cons ev evs :
  callbacks (ev :: evs) = (if callback ev then [ev] else []) ++ callbacks evs.
Proof. unfold callbacks. cbn. destruct (callback ev); reflexivity. Qed.

Ltac events :=
  cbn [snd];
  rewrite ?callbacks_app, ?engine_calls_app, ?callbacks_cons, ?engine_calls_cons;
  repeat match goal with
         | H : quiet ?ev |- _ =>
             progress rewrite ?(quiet_engine_calls ev H), ?(quiet_callbacks ev H)
         end;
  change (engine_calls []) with (@nil event);
  change (callbacks []) with (@nil event);
  repeat match goal with
         | H : engine_call ?x = _ |- context [engine_call ?x] => rewrite H
         | H : callback ?x = _ |- context [callback ?x] => rewrite H
         | |- context [engine_call ?x] =>
             let b := eval cbv in (engine_call x) in
             lazymatch b with
             | true => change (engine_call x) with true
             | false => change (engine_call x) with false
             end
         | |- context [callback ?x] =>
             let b := eval cbv in (callback x) in
             lazymatch b with
             | true => change (callback x) with true
             | false => change (callback x) with false
             end
         end;
  cbn [app].

(** The engines one call of [processWithOpenAIAPI] reaches. *)
Lemma processWithOpenAIAPI_calls e m :
  cloud_quiet e ->
  let ev := snd (processWithOpenAIAPI e m) in
  callbacks ev = []
  /\ (engine_calls ev = [CloudRequest]
      \/ item_is (localStorage e) "allowLocalFallback" "true" = true
         /\ useLocalWhisper e = false
         /\ engine_calls ev
            = [CloudRequest; TranscribeLocalWhisper (fallbackModel e) (engine_language e)]).
Proof.
  intros Hq. specialize (Hq m). cbv zeta. unfold processWithOpenAIAPI.
  fold (fallbackModel e). fold (useLocalWhisper e).
  unfold try_catch, bind, emit, lift, throw, ret. cbn beta.
  destruct (cloud_request e m) as [[[r | x] m1] ev1]; cbn [snd] in Hq.
  - events. split; [reflexivity | left; reflexivity].
  - destruct (item_is (localStorage e) "allowLocalFallback" "true") eqn:Hallow;
      destruct (useLocalWhisper e) eqn:Hmode; cbn [andb negb];
      try (events; split; [reflexivity | left; reflexivity]).
    destruct (transcribeLocalWhisper e (fallbackModel e) (engine_language e)) as [res | y].
    + destruct (has_text res) as [raw|].
      * destruct (processTranscription_quiet e raw "local-fallback" m1)
          as (s & m2 & ev2 & Hrun & Hev2).
        rewrite Hrun. destruct (JS.truthy s); events;
          (split; [reflexivity | right; repeat split]).
      * events. split; [reflexivity | right; repeat split].
    + events. split; [reflexivity | right; repeat split].
Qed.

(** A local engine's own attempt: its call, then the reasoning service;
    a result carries the engine's name and a text that is not empty. *)
Lemma local_attempt_calls eng e model m :
  exists r m1 ev,
    local_attempt eng e model m = (r, m1, le_event eng model (engine_language e) :: ev)
    /\ quiet ev
    /\ (forall t, r = Ok t ->
          t_success t = true /\ t_source t = le_source eng /\ t_text t <> "").
Proof.
  unfold local_attempt. unfold bind, emit, lift, throw, ret. cbn beta.
  destruct (le_call eng e model (engine_language e)) as [res | y].
  - destruct (has_text res) as [raw|] eqn:Htext.
    + destruct (processTranscription_quiet e raw (le_source eng) m)
        as (s & m2 & ev2 & Hrun & Hev2).
      rewrite Hrun. do 3 eexists. split; [reflexivity|].
      rewrite app_nil_r. split; [exact Hev2|].
      intros t [= <-]. cbn. repeat split.
      assert (Hraw : JS.truthy raw = true).
      { unfold has_text in Htext. destruct (er_success res) as [[|]|]; try discriminate.
        destruct (er_text res) as [t|]; try discriminate.
        destruct (JS.truthy t) eqn:Ht; [|discriminate]. now injection Htext as <-. }
      destruct (JS.truthy s) eqn:Hs; intros ->; discriminate.
    + destruct (signals_no_audio res); do 3 eexists;
        (split; [reflexivity|]); (split; [constructor | discriminate]).
  - do 3 eexists. split; [reflexivity|]. split; [constructor | discriminate].
Qed.

Definition local_event (eng : local_engine) : Prop :=
  forall model language,
    engine_call (le_event eng model language) = true
    /\ callback (le_event eng model language) = false.

Lemma whisper_event : local_event whisper.
Proof. intros model language. split; reflexivity. Qed.

Lemma parakeet_event : local_event parakeet.
Proof. intros model language. split; reflexivity. Qed.

(** The engines one call of [processWithLocalWhisper] or
    [processWithLocalParakeet] reaches, and the name its result carries. *)
Lemma processWithLocal_calls eng e model m :
  cloud_quiet e -> local_event eng ->
  let run := processWithLocal eng e model m in
  let first := le_event eng model (engine_language e) in
  callbacks (snd run) = []
  /\ (engine_calls (snd run) = [first]
      \/ item_is (localStorage e) "allowOpenAIFallback" "true" = true
         /\ useLocalWhisper e = true
         /\ engine_calls (snd run) = [first; CloudRequest])
  /\ (forall t, fst (fst run) = Ok t ->
        t_source t = "openai-fallback"
        \/ t_success t = true /\ t_source t = le_source eng /\ t_text t <> "").
Proof.
  intros Hq Hev. cbv zeta.
  destruct (Hev model (engine_language e)) as [Hcall Hback].
  unfold processWithLocal. fold (useLocalWhisper e).
  destruct (local_attempt_calls eng e model m) as (r & m1 & ev & Hrun & Hquiet & Hres).
  unfold try_catch, bind, ret, throw. cbn beta. rewrite Hrun. destruct r as [t | x].
  - events.
    split; [reflexivity|]. split; [left; reflexivity|].
    intros t' [= <-]. right. apply Hres. reflexivity.
  - destruct (String.eqb x "No audio detected").
    { unfold throw. events.
      split; [reflexivity|]. split; [left; reflexivity | discriminate]. }
    destruct (item_is (localStorage e) "allowOpenAIFallback" "true") eqn:Hallow;
      destruct (useLocalWhisper e) eqn:Hmode; cbn [andb];
      try (unfold throw; events;
           split; [reflexivity|]; split; [left; reflexivity | discriminate]).
    pose proof (processWithOpenAIAPI_calls e m1 Hq) as [Hcb Hcalls].
    cbv zeta in Hcb, Hcalls.
    destruct Hcalls as [Hcalls | (_ & Hno & _)]; [|congruence].
    destruct (processWithOpenAIAPI e m1) as [[[t | y] m2] ev2]; cbn [snd] in Hcb, Hcalls;
      events; rewrite Hcb, Hcalls; cbn [app];
      (split; [reflexivity|]); (split; [right; repeat split|]).
    + intros t' [= <-]. left. reflexivity.
    + discriminate.
Qed.

(** X14. One run of [processAudio] hands the audio to the preferred engine
    first and to at most one other, the fallback, and never to the same
    engine twice: in local mode the stored local engine, then possibly the
    cloud, and only if [allowOpenAIFallback] is stored as true; in cloud
    mode the cloud, then possibly the local Whisper engine with the
    fallback model, and only if [allowLocalFallback] is stored as true. *)
Theorem engines_of_one_run (e : env) (m : manager) :
  cloud_quiet e ->
  let calls := engine_calls (snd (processAudio e m)) in
  if useLocalWhisper e then
    calls = [preferred_engine e]
    \/ item_is (localStorage e) "allowOpenAIFallback" "true" = true
       /\ calls = [preferred_engine e; CloudRequest]
  else
    calls = [CloudRequest]
    \/ item_is (localStorage e) "allowLocalFallback" "true" = true
       /\ calls = [CloudRequest;
                   TranscribeLocalWhisper (fallbackModel e) (engine_language e)].
Proof.
  intros Hq. cbv zeta.
  assert (Hrun : engine_calls (snd (processAudio e m)) = engine_calls (snd (dispatch e m))).
  { rewrite processAudio_dispatch.
    destruct (dispatch e m) as [[[result | error] m1] ev]; cbn [snd];
      rewrite engine_calls_app.
    - apply app_nil_r.
    - destruct (String.eqb error "No audio detected"); apply app_nil_r. }
  rewrite Hrun. unfold dispatch, preferred_engine.
  destruct (useLocalWhisper e) eqn:Hmode.
  - destruct (String.eqb (localProvider e) "nvidia").
    + destruct (processWithLocal_calls parakeet e (parakeetModel e) m Hq parakeet_event)
        as (_ & [H | (Ha & _ & H)] & _); [left | right; split; [exact Ha|]]; exact H.
    + destruct (processWithLocal_calls whisper e (whisperModel e) m Hq whisper_event)
        as (_ & [H | (Ha & _ & H)] & _); [left | right; split; [exact Ha|]]; exact H.
  - destruct (processWithOpenAIAPI_calls e m Hq) as (_ & [H | (Ha & _ & H)]);
      [left | right; split; [exact Ha|]]; exact H.
Qed.

(** Cloud mode with the local fallback enabled, as [env_both_fail]: the
    request fails and calls nothing. *)
Lemma env_both_fail_quiet : cloud_quiet env_both_fail.
Proof. intros m. constructor. Qed.

Lemma engines_of_one_run_witness :
  engine_calls (snd (processAudio env_both_fail new_manager)) = [CloudRequest]
  \/ item_is (localStorage env_both_fail) "allowLocalFallback" "true" = true
     /\ engine_calls (snd (processAudio env_both_fail new_manager))
        = [CloudRequest;
           TranscribeLocalWhisper (fallbackModel env_both_fail)
                                  (engine_language env_both_fail)].
Proof.
  exact (engines_of_one_run env_both_fail new_manager env_both_fail_quiet).
Defined.

(** The same world with another cloud. *)
Definition with_cloud (e : env) (cloud : task transcription) : env :=
  mkEnv (localStorage e) (now e) (transcribeLocalWhisper e) (transcribeLocalParakeet e)
        cloud (reasoning_isAvailable e) (reasoning_processText e).

Lemma processWithLocal_without_fallback eng e cloud model m :
  (forall model language,
     le_call eng (with_cloud e cloud) model language = le_call eng e model language) ->
  item_is (localStorage e) "allowOpenAIFallback" "true" = false ->
  processWithLocal eng (with_cloud e cloud) model m = processWithLocal eng e model m.
Proof.
  intros Hcall Hallow. unfold processWithLocal.
  assert (Hattempt : local_attempt eng (with_cloud e cloud) model m
                     = local_attempt eng e model m).
  { unfold local_attempt. unfold bind, emit, lift.
    change (engine_language (with_cloud e cloud)) with (engine_language e).
    rewrite Hcall. reflexivity. }
  unfold try_catch at 1 3. rewrite Hattempt.
  destruct (local_attempt eng e model m) as [[[t | x] m1] ev]; [reflexivity|].
  change (localStorage (with_cloud e cloud)) with (localStorage e).
  rewrite Hallow. reflexivity.
Qed.

(** X15. In local mode, unless [allowOpenAIFallback] is stored as true, the
    audio never leaves the machine: a run of [processAudio] does not depend
    on the cloud at all (its result, the manager and everything it calls
    are the same with any other cloud), and the only engine it calls is the
    stored local engine, once, whether that engine answers, fails or
    throws. *)
Theorem local_mode_without_fallback_stays_local
    (e : env) (m : manager) (cloud : task transcription) :
  useLocalWhisper e = true ->
  item_is (localStorage e) "allowOpenAIFallback" "true" = false ->
  processAudio (with_cloud e cloud) m = processAudio e m
  /\ engine_calls (snd (processAudio e m)) = [preferred_engine e]
  /\ ~ In CloudRequest (snd (processAudio e m)).
Proof.
  intros Hlocal Hallow.
  assert (Hsame : forall c, dispatch (with_cloud e c) m = dispatch e m).
  { intros c. unfold dispatch.
    change (useLocalWhisper (with_cloud e c)) with (useLocalWhisper e).
    change (localProvider (with_cloud e c)) with (localProvider e).
    change (parakeetModel (with_cloud e c)) with (parakeetModel e).
    change (whisperModel (with_cloud e c)) with (whisperModel e).
    rewrite Hlocal. destruct (String.eqb (localProvider e) "nvidia");
      apply processWithLocal_without_fallback; try exact Hallow; reflexivity. }
  assert (Hindep : forall c, processAudio (with_cloud e c) m = processAudio e m).
  { intros c. rewrite !processAudio_dispatch, Hsame. reflexivity. }
  assert (Hcalls : engine_calls (snd (processAudio e m)) = [preferred_engine e]).
  { rewrite <- (Hindep (throw "")), processAudio_dispatch.
    assert (Hq : cloud_quiet (with_cloud e (throw ""))) by (intros m0; constructor).
    assert (Hd : callbacks (snd (dispatch (with_cloud e (throw "")) m)) = []
                 /\ engine_calls (snd (dispatch (with_cloud e (throw "")) m))
                    = [preferred_engine e]).
    { unfold dispatch, preferred_engine.
      change (useLocalWhisper (with_cloud e (throw ""))) with (useLocalWhisper e).
      change (localProvider (with_cloud e (throw ""))) with (localProvider e).
      rewrite Hlocal. destruct (String.eqb (localProvider e) "nvidia").
      - destruct (processWithLocal_calls parakeet _ (parakeetModel e) m Hq parakeet_event)
          as (Hcb & [H | (Ha & _)] & _); [split; [exact Hcb | exact H]|].
        change (localStorage (with_cloud e (throw ""))) with (localStorage e) in Ha.
        congruence.
      - destruct (processWithLocal_calls whisper _ (whisperModel e) m Hq whisper_event)
          as (Hcb & [H | (Ha & _)] & _); [split; [exact Hcb | exact H]|].
        change (localStorage (with_cloud e (throw ""))) with (localStorage e) in Ha.
        congruence. }
    destruct Hd as [_ Hd].
    destruct (dispatch (with_cloud e (throw "")) m) as [[[t | x] m1] ev];
      cbn [snd] in *; rewrite engine_calls_app, Hd.
    - reflexivity.
    - destruct (String.eqb x "No audio detected"); reflexivity. }
  split; [apply Hindep|]. split; [exact Hcalls|].
  intros Hin.
  assert (Hin' : In CloudRequest (engine_calls (snd (processAudio e m)))).
  { apply List.filter_In. split; [exact Hin | reflexivity]. }
  rewrite Hcalls in Hin'. destruct Hin' as [Heq | []].
  unfold preferred_engine in Heq.
  destruct (String.eqb (localProvider e) "nvidia"); discriminate.
Qed.

(** Local mode without fallback; the engine throws. *)
Definition env_local_only : env :=
  mkEnv (list_to_map [("useLocalWhisper", "true"); ("allowLocalFallback", "true")])
        1000
        (fun _ _ => Throw "engine crashed") (fun _ _ => Throw "not called")
        (ret (mkTranscription true "from the cloud" "openai"))
        (Ok false)
        (fun text _ _ => Ok text).

Lemma local_mode_without_fallback_stays_local_witness :
  processAudio (with_cloud env_local_only (throw "offline")) new_manager
  = processAudio env_local_only new_manager
  /\ engine_calls (snd (processAudio env_local_only new_manager))
     = [TranscribeLocalWhisper "base" None]
  /\ ~ In CloudRequest (snd (processAudio env_local_only new_manager)).
Proof.
  apply (local_mode_without_fallback_stays_local env_local_only new_manager
           (throw "offline")); vm_compute; reflexivity.
Defined.

(** What the path [processAudio] picks returns in local mode. *)
Lemma dispatch_local_result e m t :
  cloud_quiet e ->
  useLocalWhisper e = true ->
  fst (fst (dispatch e m)) = Ok t ->
  t_source t = "openai-fallback"
  \/ t_success t = true
     /\ (t_source t = "local" \/ t_source t = "local-parakeet")
     /\ t_text t <> "".
Proof.
  intros Hq Hlocal. unfold dispatch. rewrite Hlocal.
  destruct (String.eqb (localProvider e) "nvidia").
  - intros Hrun.
    destruct (processWithLocal_calls parakeet e (parakeetModel e) m Hq parakeet_event)
      as (_ & _ & Hres).
    destruct (Hres t Hrun) as [H | (H1 & H2 & H3)]; [left; exact H|].
    right. repeat split; try assumption. right. exact H2.
  - intros Hrun.
    destruct (processWithLocal_calls whisper e (whisperModel e) m Hq whisper_event)
      as (_ & _ & Hres).
    destruct (Hres t Hrun) as [H | (H1 & H2 & H3)]; [left; exact H|].
    right. repeat split; try assumption. left. exact H2.
Qed.

Lemma dispatch_callbacks e m : cloud_quiet e -> callbacks (snd (dispatch e m)) = [].
Proof.
  intros Hq. unfold dispatch.
  destruct (useLocalWhisper e); [destruct (String.eqb (localProvider e) "nvidia")|].
  - apply (processWithLocal_calls parakeet e (parakeetModel e) m Hq parakeet_event).
  - apply (processWithLocal_calls whisper e (whisperModel e) m Hq whisper_event).
  - apply (processWithOpenAIAPI_calls e m Hq).
Qed.

(** X16. A run of [processAudio] never throws, leaves the manager out of
    Processing, and tells its owner exactly one outcome, followed by the
    return to Idle as the last thing it does: the result through
    [onTranscriptionComplete] when the path returned one, nothing when the
    path failed with "No audio detected", and otherwise one "Transcription
    Error" through [onError], whose description is "Transcription failed: "
    and the path's message.  No path calls a callback itself. *)
Theorem one_outcome_per_run (e : env) (m : manager) :
  cloud_quiet e ->
  fst (fst (processAudio e m)) = Ok tt
  /\ isProcessing (snd (fst (processAudio e m))) = false
  /\ callbacks (snd (processAudio e m))
     = match fst (fst (dispatch e m)) with
       | Ok result => [OnTranscriptionComplete result; OnStateChange false false]
       | Throw error =>
           if String.eqb error "No audio detected" then [OnStateChange false false]
           else [OnError "Transcription Error" ("Transcription failed: " +:+ error);
                 OnStateChange false false]
       end
  /\ exists ev, snd (processAudio e m) = ev ++ [OnStateChange false false].
Proof.
  intros Hq. pose proof (dispatch_callbacks e m Hq) as Hcb.
  rewrite processAudio_dispatch.
  destruct (dispatch e m) as [[[result | error] m1] ev]; cbn [fst snd] in *.
  - repeat split; try reflexivity.
    + rewrite callbacks_app, Hcb. reflexivity.
    + exists (ev ++ [OnTranscriptionComplete result]). now rewrite <- app_assoc.
  - repeat split; try reflexivity.
    + rewrite callbacks_app, Hcb.
      destruct (String.eqb error "No audio detected"); reflexivity.
    + eexists. rewrite app_assoc. reflexivity.
Qed.

Lemma one_outcome_per_run_witness :
  callbacks (snd (processAudio env_both_fail new_manager))
  = [OnError "Transcription Error"
       "Transcription failed: OpenAI API failed: X. Local fallback also failed: X";
     OnStateChange false false].
Proof.
  exact (proj1 (proj2 (proj2
           (one_outcome_per_run env_both_fail new_manager env_both_fail_quiet)))).
Defined.

End PipelineFacts.

(** ** The hook's completion handler *)

Module Hook.
Import Pipeline.

(** What the handler does to the interface and to the main process. *)
Inductive effect :=
| SetTranscript (text : string)
| PasteText (text : string)            (* [window.electronAPI.pasteText] *)
| SaveTranscription (text : string)    (* [window.electronAPI.saveTranscription] *)
| Toast (title description variant : string).

(** The stored preferences when the handler reads them, and how the main
    process answers. *)
Record env := mkEnv {
  localStorage : storage;
  pasteText : string -> jsres unit;
  saveTranscription_api : string -> jsres unit
}.

(** The hook's [onError]. *)
Definition onError (title description : string) : list effect :=
  [Toast title description "destructive"].

(** [safePaste(text)], with the hook's [onError] installed. *)
Definition safePaste (h : env) (text : string) : bool * list effect :=
  match pasteText h text with
  | Ok _ => (true, [PasteText text])
  | Throw message =>
      (false,
       PasteText text
       :: onError "Paste Error"
            ("Failed to paste text. Please check accessibility permissions. " +:+ message))
  end.

(** [saveTranscription(text)] *)
Definition saveTranscription (h : env) (text : string) : bool * list effect :=
  match saveTranscription_api h text with
  | Ok _ => (true, [SaveTranscription text])
  | Throw _ => (false, [SaveTranscription text])
  end.

Definition fallback_toast : effect :=
  Toast "Fallback Mode" "Local Whisper failed. Used OpenAI API instead." "default".

(** The hook's [onTranscriptionComplete]. *)
Definition onTranscriptionComplete (h : env) (result : transcription) : list effect :=
  if t_success result then
    [SetTranscript (t_text result)]
    ++ snd (safePaste h (t_text result))
    ++ snd (saveTranscription h (t_text result))
    ++ (if String.eqb (t_source result) "openai"
           && item_is (localStorage h) "useLocalWhisper" "true"
        then [fallback_toast] else [])
  else [].

Lemma fallback_toast_condition h result :
  In fallback_toast (onTranscriptionComplete h result) ->
  t_source result = "openai" /\ item_is (localStorage h) "useLocalWhisper" "true" = true.
Proof.
  unfold onTranscriptionComplete. destruct (t_success result); [|intros []].
  unfold safePaste, saveTranscription, onError.
  destruct (String.eqb (t_source result) "openai") eqn:Hsrc;
    destruct (item_is (localStorage h) "useLocalWhisper" "true") eqn:Hmode;
    destruct (pasteText h (t_text result)); destruct (saveTranscription_api h (t_text result));
    cbn; intros Hin;
    repeat (destruct Hin as [Hin | Hin]; [try discriminate|]); try destruct Hin;
    (split; [now apply String.eqb_eq | reflexivity]).
Qed.

(** X17. Under preferences that do not change during a run, the hook never
    shows its "Fallback Mode" toast: a result that [processAudio] delivers
    in local mode is named local, local-parakeet or openai-fallback, never
    openai, and outside local mode the handler's test on [useLocalWhisper]
    fails. *)
Theorem fallback_toast_is_never_shown
    (e : Pipeline.env) (m : manager) (result : transcription)
    (paste save : string -> jsres unit) :
  PipelineFacts.cloud_quiet e ->
  In (OnTranscriptionComplete result) (snd (processAudio e m)) ->
  ~ In fallback_toast
       (onTranscriptionComplete (mkEnv (Pipeline.localStorage e) paste save) result).
Proof.
  intros Hq Hin Htoast.
  apply fallback_toast_condition in Htoast as [Hsrc Hmode]. cbn [localStorage] in Hmode.
  assert (Hdelivered : fst (fst (PipelineFacts.dispatch e m)) = Ok result).
  { assert (Hcb : In (OnTranscriptionComplete result)
                     (PipelineFacts.callbacks (snd (processAudio e m)))).
    { apply List.filter_In. split; [exact Hin | reflexivity]. }
    revert Hcb. rewrite PipelineFacts.processAudio_dispatch.
    pose proof (PipelineFacts.dispatch_callbacks e m Hq) as Hnone.
    destruct (PipelineFacts.dispatch e m) as [[[t | x] m1] ev]; cbn [fst snd] in *;
      rewrite PipelineFacts.callbacks_app, Hnone.
    - intros [[= ->] | [[=] | []]]. reflexivity.
    - destruct (String.eqb x "No audio detected"); cbn;
        intros Hcb; repeat (destruct Hcb as [Hcb | Hcb]; [discriminate|]); destruct Hcb. }
  destruct (PipelineFacts.dispatch_local_result e m result Hq Hmode Hdelivered)
    as [H | (_ & [H | H] & _)]; rewrite Hsrc in H; discriminate.
Qed.

(** Local mode with the cloud fallback enabled: the engine crashes, the
    cloud answers. *)
Definition env_fallback : Pipeline.env :=
  Pipeline.mkEnv
    (list_to_map [("useLocalWhisper", "true"); ("allowOpenAIFallback", "true")])
    1000
    (fun _ _ => Throw "engine crashed") (fun _ _ => Throw "not called")
    (ret (mkTranscription true "from the cloud" "openai"))
    (Ok false)
    (fun text _ _ => Ok text).

Example fallback_is_delivered :
  snd (processAudio env_fallback new_manager)
  = [TranscribeLocalWhisper "base" None; CloudRequest;
     OnTranscriptionComplete (mkTranscription true "from the cloud" "openai-fallback");
     OnStateChange false false]
  /\ onTranscriptionComplete
       (mkEnv (Pipeline.localStorage env_fallback) (fun _ => Ok tt) (fun _ => Ok tt))
       (mkTranscription true "from the cloud" "openai-fallback")
     = [SetTranscript "from the cloud"; PasteText "from the cloud";
        SaveTranscription "from the cloud"].
Proof. split; vm_compute; reflexivity. Qed.

Lemma fallback_toast_is_never_shown_witness :
  ~ In fallback_toast
       (onTranscriptionComplete
          (mkEnv (Pipeline.localStorage env_fallback) (fun _ => Ok tt) (fun _ => Ok tt))
          (mkTranscription true "from the cloud" "openai-fallback")).
Proof.
  apply (fallback_toast_is_never_shown env_fallback new_manager
           (mkTranscription true "from the cloud" "openai-fallback")
           (fun _ => Ok tt) (fun _ => Ok tt)).
  - intros m. constructor.
  - vm_compute. right. right. left. reflexivity.
Defined.

End Hook.

(** ** What the VAD fields measure *)

Module VADFacts.
Import VAD.

Section VadFacts.
Context {R : Rounding}.

(** The ticks of a run whose smoothed level exceeds the threshold. *)
Definition voiced (ticks : list (Q * Z)) (s : state) : nat :=
  Datatypes.length (List.filter (Qltb VOICE_THRESHOLD) (levels ticks s)).

(** [this.speechDuration += VAD_CONFIG.ANALYSIS_INTERVAL / 1000] *)
Definition accumulate (d : Q) : Q := fl (d + fl (ANALYSIS_INTERVAL / 1000)).

(** The clock of the last voiced tick of a run, if there is one. *)
Fixpoint last_voiced (ticks : list (Q * Z)) (s : state) : option Z :=
  match ticks with
  | [] => None
  | (rms, now) :: rest =>
      match last_voiced rest (fst (tick rms now s)) with
      | Some t => Some t
      | None => if Qltb VOICE_THRESHOLD (smoothed rms s) then Some now else None
      end
  end.

Lemma Qltb_false a b : Qltb a b = false <-> (b <= a)%Q.
Proof. unfold Qltb. rewrite negb_false_iff. apply Qle_bool_iff. Qed.

Lemma tick_level rms now s : currentAudioLevel (fst (tick rms now s)) = smoothed rms s.
Proof. unfold tick. cbn. destruct (Qltb VOICE_THRESHOLD (smoothed rms s)); reflexivity. Qed.

Lemma tick_peak rms now s :
  peakAudioLevel (fst (tick rms now s))
  = if Qltb (peakAudioLevel s) (smoothed rms s) then smoothed rms s else peakAudioLevel s.
Proof. unfold tick. cbn. destruct (Qltb VOICE_THRESHOLD (smoothed rms s)); reflexivity. Qed.

Lemma tick_peak_grows rms now s :
  (peakAudioLevel s <= peakAudioLevel (fst (tick rms now s)))%Q
  /\ (smoothed rms s <= peakAudioLevel (fst (tick rms now s)))%Q.
Proof.
  rewrite tick_peak. destruct (Qltb (peakAudioLevel s) (smoothed rms s)) eqn:H.
  - apply Qltb_lt in H. split; [apply Qlt_le_weak, H | apply Qle_refl].
  - apply Qltb_false in H. split; [apply Qle_refl | exact H].
Qed.

Lemma run_peak ticks : forall s,
  (peakAudioLevel s <= peakAudioLevel (run ticks s))%Q
  /\ Forall (fun l => (l <= peakAudioLevel (run ticks s))%Q) (levels ticks s)
  /\ (peakAudioLevel (run ticks s) = peakAudioLevel s
      \/ In (peakAudioLevel (run ticks s)) (levels ticks s)).
Proof.
  induction ticks as [|[rms now] rest IH]; intros s.
  - cbn. split; [apply Qle_refl|]. split; [constructor | left; reflexivity].
  - change (run ((rms, now) :: rest) s) with (run rest (fst (tick rms now s))).
    change (levels ((rms, now) :: rest) s)
      with (smoothed rms s :: levels rest (fst (tick rms now s))).
    destruct (IH (fst (tick rms now s))) as (Hgrow & Hall & Hin).
    destruct (tick_peak_grows rms now s) as [Hp Hl].
    split; [eapply Qle_trans; eassumption|]. split.
    + constructor; [eapply Qle_trans; eassumption | exact Hall].
    + destruct Hin as [Heq | Hin]; [|right; right; exact Hin].
      rewrite Heq, tick_peak.
      destruct (Qltb (peakAudioLevel s) (smoothed rms s)); [right; left|left]; reflexivity.
Qed.

Lemma run_level_below_peak ticks : forall s,
  (currentAudioLevel s <= peakAudioLevel s)%Q ->
  (currentAudioLevel (run ticks s) <= peakAudioLevel (run ticks s))%Q.
Proof.
  induction ticks as [|[rms now] rest IH]; intros s H; [exact H|].
  change (run ((rms, now) :: rest) s) with (run rest (fst (tick rms now s))).
  apply IH. rewrite tick_level. apply tick_peak_grows.
Qed.

(** X18. In a session the peak is the highest smoothed level so far: it is
    0 before the first tick, afterwards it is one of the session's levels
    or still 0, no level of the session exceeds it, and the current level
    does not either. *)
Theorem peak_is_the_highest_level (ticks : list (Q * Z)) :
  let session := run ticks reset in
  Forall (fun l => (l <= peakAudioLevel session)%Q) (levels ticks reset)
  /\ (0 <= peakAudioLevel session)%Q
  /\ (peakAudioLevel session = 0%Q \/ In (peakAudioLevel session) (levels ticks reset))
  /\ (currentAudioLevel session <= peakAudioLevel session)%Q.
Proof.
  cbv zeta. destruct (run_peak ticks reset) as (Hgrow & Hall & Hin).
  split; [exact Hall|]. split; [exact Hgrow|]. split; [exact Hin|].
  apply run_level_below_peak. apply Qle_refl.
Qed.

Lemma run_speechDuration ticks : forall s,
  speechDuration (run ticks s) = Nat.iter (voiced ticks s) accumulate (speechDuration s).
Proof.
  induction ticks as [|[rms now] rest IH]; intros s; [reflexivity|].
  change (run ((rms, now) :: rest) s) with (run rest (fst (tick rms now s))).
  unfold voiced.
  change (levels ((rms, now) :: rest) s)
    with (smoothed rms s :: levels rest (fst (tick rms now s))).
  rewrite IH. unfold voiced. cbn [List.filter].
  unfold tick at 2. cbn [fst].
  destruct (Qltb VOICE_THRESHOLD (smoothed rms s)); cbn [speechDuration Datatypes.length].
  - rewrite Nat.iter_succ_r. reflexivity.
  - reflexivity.
Qed.

Lemma run_lastVoiceTime ticks : forall s,
  lastVoiceTime (run ticks s)
  = match last_voiced ticks s with Some t => t | None => lastVoiceTime s end.
Proof.
  induction ticks as [|[rms now] rest IH]; intros s; [reflexivity|].
  change (run ((rms, now) :: rest) s) with (run rest (fst (tick rms now s))).
  cbn [last_voiced]. rewrite IH.
  destruct (last_voiced rest (fst (tick rms now s))); [reflexivity|].
  unfold tick. cbn [fst].
  destruct (Qltb VOICE_THRESHOLD (smoothed rms s)); reflexivity.
Qed.

(** Two states that differ in [lastVoiceTime] at most. *)
Definition same_but_clock (s s' : state) : Prop :=
  currentAudioLevel s = currentAudioLevel s'
  /\ peakAudioLevel s = peakAudioLevel s'
  /\ voiceDetected s = voiceDetected s'
  /\ speechDuration s = speechDuration s'.

Lemma run_clock ticks : forall ticks' s s',
  map fst ticks = map fst ticks' -> same_but_clock s s' ->
  same_but_clock (run ticks s) (run ticks' s').
Proof.
  induction ticks as [|[rms now] rest IH]; intros [|[rms' now'] rest'] s s' Hmap Hs;
    try discriminate; [exact Hs|].
  injection Hmap as -> Hmap.
  change (run ((rms', now) :: rest) s) with (run rest (fst (tick rms' now s))).
  change (run ((rms', now') :: rest') s') with (run rest' (fst (tick rms' now' s'))).
  apply IH; [exact Hmap|].
  destruct Hs as (H1 & H2 & H3 & H4). unfold same_but_clock, tick, smoothed.
  rewrite H1, H2, H3, H4. cbn.
  destruct (Qltb VOICE_THRESHOLD _); cbn; repeat split; reflexivity.
Qed.

(** X19. The speech duration of a session is counted, not measured: it is
    the interval of 0.05 s added once for every tick whose smoothed level
    exceeded the threshold, whatever the clock says; the clock only enters
    [lastVoiceTime], which holds the clock of the last such tick (0 when
    there was none).  Two sessions with the same samples at other times
    end with the same levels, peak, flag and duration. *)
Theorem speech_duration_counts_voiced_ticks (ticks ticks' : list (Q * Z)) :
  speechDuration (run ticks reset) = Nat.iter (voiced ticks reset) accumulate 0%Q
  /\ lastVoiceTime (run ticks reset)
     = match last_voiced ticks reset with Some t => t | None => 0%Z end
  /\ (map fst ticks = map fst ticks' ->
      currentAudioLevel (run ticks reset) = currentAudioLevel (run ticks' reset)
      /\ peakAudioLevel (run ticks reset) = peakAudioLevel (run ticks' reset)
      /\ voiceDetected (run ticks reset) = voiceDetected (run ticks' reset)
      /\ speechDuration (run ticks reset) = speechDuration (run ticks' reset)).
Proof.
  split; [apply run_speechDuration|]. split; [apply run_lastVoiceTime|].
  intros Hmap. apply run_clock; [exact Hmap|]. repeat split.
Qed.

End VadFacts.

Lemma speech_duration_counts_voiced_ticks_witness :
  speechDuration (run (R := exact) [(1%Q, 100%Z); (1%Q, 150%Z)] reset)
  = speechDuration (run (R := exact) [(1%Q, 7%Z); (1%Q, 7%Z)] reset).
Proof.
  apply (speech_duration_counts_voiced_ticks (R := exact)
           [(1%Q, 100%Z); (1%Q, 150%Z)] [(1%Q, 7%Z); (1%Q, 7%Z)]).
  reflexivity.
Defined.

End VADFacts.

(** ** Recording sessions *)

Module Session.

(** [mediaRecorder.state], as far as the manager tests it. *)
Inductive recorder_state := Inactive | Recording.

(** [mediaRecorder.onstop]: the handler [startRecording] installs, or the
    one [cancelRecording] puts in its place. *)
Inductive handler := SessionHandler | CancelHandler.

(** A [MediaRecorder] with its stream. *)
Record recorder := mkRecorder {
  r_state : recorder_state;
  r_onstop : handler;
  r_stop_pending : bool;     (* [stop()] was called, the stop event is yet to come *)
  r_tracks_stopped : bool    (* the tracks of its stream were stopped *)
}.

(** Where [startVADMonitoring] throws, if it does: all these statements
    stand before the reset of the VAD fields. *)
Inductive vad_failure :=
| VadStarts
| ContextThrows      (* [new AudioContext()] *)
| AnalyserThrows     (* [createAnalyser()] *)
| SourceThrows       (* [createMediaStreamSource(stream)] *)
| ConnectThrows.     (* [audioSource.connect(analyser)] *)

(** Where the rest of [startRecording] throws once the stream is there. *)
Inductive start_failure :=
| StartsFine
| ConstructorThrows (name message : string)    (* [new MediaRecorder(stream)] *)
| StartThrows (name message : string).         (* [mediaRecorder.start()] *)

(** The VAD resources of the manager; each flag tells whether the field
    holds an object.  A timer of the manager whose id was overwritten keeps
    running; the number of such timers is [strayTimers]. *)
Record resources := mkResources {
  vadIntervalId : bool;
  strayTimers : nat;
  audioContext : bool;
  analyser : bool;
  audioSource : bool
}.

(** The manager and the recorders it created.  [starting] counts the calls
    of [startRecording] that wait for [getUserMedia]; [processing] lists
    the recorders whose handler waits for [processAudio]. *)
Record world := mkWorld {
  fields : Controller.manager;
  mediaRecorder : option nat;
  recorders : list recorder;
  starting : nat;
  processing : list nat;
  vadr : resources;
  callbacks : bool           (* the hook's callbacks are installed *)
}.

(** What the owner and the platform do. *)
Inductive action :=
| StartRecording                       (* the call, up to its first [await] *)
| MicrophoneGranted (mimeType : string) (vad : vad_failure) (failure : start_failure)
                    (now : Z)          (* [getUserMedia] resolves *)
| MicrophoneDenied (name message : string)     (* [getUserMedia] rejects *)
| DataAvailable (i : nat) (chunk : string)     (* recorder [i] delivers data *)
| StopRecording
| CancelRecording
| StopEvent (i : nat) (now : Z)        (* the stop event of recorder [i] *)
| ProcessingDone (i : nat)             (* [processAudio] settles *)
| Tick (rms : Q) (now : Z)             (* a VAD timer fires *)
| Cleanup.

(** What can be seen from outside. *)
Inductive event :=
| Handler (e : Controller.event)
| OnError (title description : string)
| GetUserMedia
| Returned (value : bool)
| VADStateChange (n : VAD.notification).

Definition live (r : recorder) : bool :=
  match r_state r with
  | Recording => true
  | Inactive => r_stop_pending r
  end.

(** The title and the description of the error [startRecording] reports. *)
Definition error_report (name message : string) : string * string :=
  if String.eqb name "NotAllowedError" || String.eqb name "PermissionDeniedError" then
    ("Microphone Access Denied",
     "Please grant microphone permission in your system settings and try again.")
  else if String.eqb name "NotFoundError" || String.eqb name "DevicesNotFoundError" then
    ("No Microphone Found",
     "No microphone was detected. Please connect a microphone and try again.")
  else if String.eqb name "NotReadableError" || String.eqb name "TrackStartError" then
    ("Microphone In Use",
     "The microphone is being used by another application. Please close other apps and try again.")
  else ("Recording Error", "Failed to access microphone: " +:+ message).

Definition set_fields (w : world) (f : Controller.manager) : world :=
  mkWorld f (mediaRecorder w) (recorders w) (starting w) (processing w) (vadr w)
          (callbacks w).

Definition set_recorders (w : world) (rs : list recorder) : world :=
  mkWorld (fields w) (mediaRecorder w) rs (starting w) (processing w) (vadr w)
          (callbacks w).

Definition set_starting (w : world) (n : nat) : world :=
  mkWorld (fields w) (mediaRecorder w) (recorders w) n (processing w) (vadr w)
          (callbacks w).

Definition set_processing (w : world) (p : list nat) : world :=
  mkWorld (fields w) (mediaRecorder w) (recorders w) (starting w) p (vadr w)
          (callbacks w).

Definition set_vadr (w : world) (v : resources) : world :=
  mkWorld (fields w) (mediaRecorder w) (recorders w) (starting w) (processing w) v
          (callbacks w).

(** The callbacks are called through [?.]: not at all once [cleanup] has
    removed them. *)
Definition notify (w : world) (evs : list event) : list event :=
  if callbacks w then evs else [].

Definition is_callback (e : Controller.event) : bool :=
  match e with
  | Controller.StateChange _ _ | Controller.NoAudioDetected => true
  | _ => false
  end.

Definition handler_events (w : world) (evs : list Controller.event) : list event :=
  map Handler (List.filter (fun e => callbacks w || negb (is_callback e)) evs).

(** The recorder the manager holds is recording:
    [this.mediaRecorder?.state === "recording"]. *)
Definition current_recording (w : world) : option nat :=
  match mediaRecorder w with
  | Some i =>
      match recorders w !! i with
      | Some r => match r_state r with Recording => Some i | Inactive => None end
      | None => None
      end
  | None => None
  end.

Section Session.
Context {R : Rounding}.

(** [startVADMonitoring(stream)]; what it throws is caught and logged. *)
Definition startVADMonitoring (f : vad_failure) (w : world) : world :=
  let v := vadr w in
  match f with
  | ContextThrows => w
  | AnalyserThrows =>
      set_vadr w (mkResources (vadIntervalId v) (strayTimers v) true (analyser v)
                              (audioSource v))
  | SourceThrows =>
      set_vadr w (mkResources (vadIntervalId v) (strayTimers v) true true (audioSource v))
  | ConnectThrows =>
      set_vadr w (mkResources (vadIntervalId v) (strayTimers v) true true true)
  | VadStarts =>
      set_vadr
        (set_fields w (Controller.set_vad (fields w) VAD.reset))
        (mkResources true
                     (if vadIntervalId v then S (strayTimers v) else strayTimers v)
                     true true true)
  end.

(** [stopVADMonitoring()], on the resources; the statistics it returns are
    those of [VAD.stopVADMonitoring]. *)
Definition stopVADMonitoring (w : world) : world :=
  set_vadr w (mkResources false (strayTimers (vadr w)) false false false).

(** [stopRecording()] *)
Definition stopRecording (w : world) : world * list event :=
  match current_recording w with
  | Some i =>
      (set_recorders w
         (alter (fun r => mkRecorder Inactive (r_onstop r) true (r_tracks_stopped r))
                i (recorders w)),
       [Returned true])
  | None => (w, [Returned false])
  end.

(** [cancelRecording()] *)
Definition cancelRecording (w : world) : world * list event :=
  match current_recording w with
  | Some i =>
      (set_recorders (stopVADMonitoring w)
         (alter (fun r => mkRecorder Inactive CancelHandler true true) i (recorders w)),
       [Handler Controller.TracksStopped; Returned true])
  | None => (w, [Returned false])
  end.

(** The part of [startRecording] after [getUserMedia] has resolved. *)
Definition startRecording_resume (mimeType : string) (vad : vad_failure)
    (failure : start_failure) (now : Z) (w : world) : world * list event :=
  let report name message :=
    notify w [OnError (fst (error_report name message)) (snd (error_report name message))]
    ++ [Returned false] in
  match failure with
  | ConstructorThrows name message => (w, report name message)
  | _ =>
      let i := Datatypes.length (recorders w) in
      let m := fields w in
      let w1 :=
        mkWorld (Controller.mkManager
                   (Controller.isRecording m) (Controller.isProcessing m) (Some now)
                   (if JS.truthy mimeType then mimeType else "audio/webm") []
                   (Controller.vad m))
                (Some i)
                (recorders w ++ [mkRecorder Inactive SessionHandler false false])
                (starting w) (processing w) (vadr w) (callbacks w) in
      let w2 := startVADMonitoring vad w1 in
      match failure with
      | StartThrows name message => (w2, report name message)
      | _ =>
          let m2 := fields w2 in
          (mkWorld (Controller.mkManager
                      true (Controller.isProcessing m2) (Controller.recordingStartTime m2)
                      (Controller.recordingMimeType m2) (Controller.audioChunks m2)
                      (Controller.vad m2))
                   (mediaRecorder w2)
                   (alter (fun r => mkRecorder Recording (r_onstop r) false false)
                          i (recorders w2))
                   (starting w2) (processing w2) (vadr w2) (callbacks w2),
           notify w [Handler (Controller.StateChange true false)] ++ [Returned true])
      end
  end.

(** The stop event of recorder [i] runs the handler the recorder holds. *)
Definition stop_event (i : nat) (now : Z) (r : recorder) (w : world)
  : world * list event :=
  match r_onstop r with
  | SessionHandler =>
      let '(m, evs) := Controller.onstop now (fields w) in
      let proceeds := Controller.isProcessing m in
      (mkWorld m (mediaRecorder w)
               (<[i := mkRecorder (r_state r) SessionHandler false
                         (r_tracks_stopped r || negb proceeds)]> (recorders w))
               (starting w)
               (if proceeds then i :: processing w else processing w)
               (vadr (stopVADMonitoring w)) (callbacks w),
       handler_events w evs)
  | CancelHandler =>
      let '(m, evs) := Controller.onstop_cancelled (fields w) in
      (mkWorld m (mediaRecorder w)
               (<[i := mkRecorder (r_state r) CancelHandler false (r_tracks_stopped r)]>
                  (recorders w))
               (starting w) (processing w) (vadr w) (callbacks w),
       handler_events w evs)
  end.

(** The end of [processAudio], its [finally], and the rest of the handler
    of recorder [i].  What [processAudio] reports before that is the
    subject of [Pipeline.processAudio]. *)
Definition processing_done (i : nat) (w : world) : world * list event :=
  let m := fields w in
  let '(m', evs) :=
    Controller.onstop_resume
      (Controller.mkManager (Controller.isRecording m) false
         (Controller.recordingStartTime m) (Controller.recordingMimeType m)
         (Controller.audioChunks m) (Controller.vad m)) in
  (mkWorld m' (mediaRecorder w)
           (alter (fun r => mkRecorder (r_state r) (r_onstop r) (r_stop_pending r) true)
                  i (recorders w))
           (starting w) (List.filter (fun j => negb (Nat.eqb j i)) (processing w))
           (vadr w) (callbacks w),
   notify w [Handler (Controller.StateChange false false)] ++ handler_events w evs).

(** One callback of a VAD timer: it needs a timer, and an analyser to read. *)
Definition vad_tick (rms : Q) (now : Z) (w : world) : world * list event :=
  let v := vadr w in
  if (vadIntervalId v || (0 <? strayTimers v)%nat) && analyser v then
    let '(s, n) := VAD.tick rms now (Controller.vad (fields w)) in
    (set_fields w (Controller.set_vad (fields w) s), notify w [VADStateChange n])
  else (w, []).

Definition step (a : action) (w : world) : world * list event :=
  match a with
  | StartRecording =>
      if Controller.isRecording (fields w) || Controller.isProcessing (fields w)
         || (match current_recording w with Some _ => true | None => false end)
      then (w, [Returned false])
      else (set_starting w (S (starting w)), [GetUserMedia])
  | MicrophoneGranted mimeType vad failure now =>
      match starting w with
      | O => (w, [])
      | S n => startRecording_resume mimeType vad failure now (set_starting w n)
      end
  | MicrophoneDenied name message =>
      match starting w with
      | O => (w, [])
      | S n =>
          (set_starting w n,
           notify w [OnError (fst (error_report name message))
                             (snd (error_report name message))]
           ++ [Returned false])
      end
  | DataAvailable i chunk =>
      match recorders w !! i with
      | Some r =>
          if live r then
            let m := fields w in
            (set_fields w
               (Controller.mkManager
                  (Controller.isRecording m) (Controller.isProcessing m)
                  (Controller.recordingStartTime m) (Controller.recordingMimeType m)
                  (Controller.audioChunks m ++ [chunk]) (Controller.vad m)), [])
          else (w, [])
      | None => (w, [])
      end
  | StopRecording => stopRecording w
  | CancelRecording => cancelRecording w
  | StopEvent i now =>
      match recorders w !! i with
      | Some r => if r_stop_pending r then stop_event i now r w else (w, [])
      | None => (w, [])
      end
  | ProcessingDone i =>
      if existsb (Nat.eqb i) (processing w) then processing_done i w else (w, [])
  | Tick rms now => vad_tick rms now w
  | Cleanup =>
      let w1 := stopVADMonitoring w in
      let w2 := fst (stopRecording w1) in
      (mkWorld (fields w2) (mediaRecorder w2) (recorders w2) (starting w2)
               (processing w2) (vadr w2) false, [])
  end.

Fixpoint run (acts : list action) (w : world) : world * list event :=
  match acts with
  | [] => (w, [])
  | a :: rest =>
      let '(w1, ev1) := step a w in
      let '(w2, ev2) := run rest w1 in
      (w2, ev1 ++ ev2)
  end.

(** A new manager with the hook's callbacks set. *)
Definition mounted : world :=
  mkWorld (Controller.mkManager false false None "" [] VAD.reset)
          None [] 0 [] (mkResources false 0 false false false) true.

(** *** What holds in every world the manager can reach *)

Lemma session_run_app acts1 acts2 w :
  run (acts1 ++ acts2) w
  = (fst (run acts2 (fst (run acts1 w))),
     snd (run acts1 w) ++ snd (run acts2 (fst (run acts1 w)))).
Proof.
  revert w. induction acts1 as [|a rest IH]; intros w.
  - cbn. destruct (run acts2 w); reflexivity.
  - cbn [app run]. destruct (step a w) as [w1 ev1]. rewrite IH.
    destruct (run rest w1) as [w2 ev2]. cbn [fst snd].
    destruct (run acts2 w2) as [w3 ev3]. cbn [fst snd]. now rewrite app_assoc.
Qed.

Lemma session_run_invariant (P : world -> Prop) :
  (forall a w, P w -> P (fst (step a w))) ->
  forall acts w, P w -> P (fst (run acts w)).
Proof.
  intros Hstep acts. induction acts as [|a rest IH]; intros w Hw; [exact Hw|].
  cbn [run]. specialize (Hstep a w Hw). destruct (step a w) as [w1 ev1].
  specialize (IH w1 Hstep). destruct (run rest w1) as [w2 ev2]. exact IH.
Qed.

(** A recorder that records holds the session's handler, no stop event is
    due for it and its tracks run; the recorders whose handler waits for
    [processAudio] have stopped. *)
Definition sound (w : world) : Prop :=
  (forall i r, recorders w !! i = Some r -> r_state r = Recording ->
     r_onstop r = SessionHandler /\ r_stop_pending r = false
     /\ r_tracks_stopped r = false)
  /\ (forall i, In i (processing w) ->
        exists r, recorders w !! i = Some r /\ r_state r = Inactive).

Lemma recorders_startVADMonitoring f w :
  recorders (startVADMonitoring f w) = recorders w
  /\ processing (startVADMonitoring f w) = processing w
  /\ mediaRecorder (startVADMonitoring f w) = mediaRecorder w
  /\ starting (startVADMonitoring f w) = starting w
  /\ callbacks (startVADMonitoring f w) = callbacks w.
Proof. destruct f; repeat split; reflexivity. Qed.

Lemma current_recording_Some w i :
  current_recording w = Some i ->
  mediaRecorder w = Some i
  /\ exists r, recorders w !! i = Some r /\ r_state r = Recording.
Proof.
  unfold current_recording. destruct (mediaRecorder w) as [j|]; [|discriminate].
  destruct (recorders w !! j) as [r|] eqn:Hr; [|discriminate].
  destruct (r_state r) eqn:Hs; [discriminate|]. intros [= ->]. eauto.
Qed.

Lemma sound_alter_inactive (f : recorder -> recorder) (i : nat) (rs : list recorder) :
  (forall r, r_state (f r) = Inactive) ->
  (forall j r, rs !! j = Some r -> r_state r = Recording ->
     r_onstop r = SessionHandler /\ r_stop_pending r = false
     /\ r_tracks_stopped r = false) ->
  forall j r, alter f i rs !! j = Some r -> r_state r = Recording ->
    r_onstop r = SessionHandler /\ r_stop_pending r = false
    /\ r_tracks_stopped r = false.
Proof.
  intros Hf Hrs j r Hj Hrec. destruct (decide (i = j)) as [<- | Hne].
  - rewrite list_lookup_alter_eq in Hj. destruct (rs !! i) as [r0|]; [|discriminate].
    injection Hj as <-. rewrite Hf in Hrec. discriminate.
  - rewrite list_lookup_alter_ne in Hj by exact Hne. eauto.
Qed.

Lemma inactive_alter (f : recorder -> recorder) (i : nat) (rs : list recorder) (j : nat) :
  (forall r, r_state r = Inactive -> r_state (f r) = Inactive) ->
  (exists r, rs !! j = Some r /\ r_state r = Inactive) ->
  exists r, alter f i rs !! j = Some r /\ r_state r = Inactive.
Proof.
  intros Hf (r & Hr & Hs). destruct (decide (i = j)) as [<- | Hne].
  - exists (f r). rewrite list_lookup_alter_eq, Hr. split; [reflexivity | auto].
  - exists r. rewrite list_lookup_alter_ne by exact Hne. auto.
Qed.

Lemma sound_stopRecording w : sound w -> sound (fst (stopRecording w)).
Proof.
  intros [H1 H2]. unfold stopRecording.
  destruct (current_recording w) as [i|]; [|split; assumption].
  split; cbn [fst recorders processing set_recorders].
  - apply sound_alter_inactive; [reflexivity | exact H1].
  - intros j Hj. apply inactive_alter; [reflexivity | auto].
Qed.

Lemma sound_stopVADMonitoring w : sound w -> sound (stopVADMonitoring w).
Proof. intros H. exact H. Qed.

Lemma sound_step a w : sound w -> sound (fst (step a w)).
Proof.
  intros Hw. pose proof Hw as [H1 H2]. destruct a; cbn [step].
  - (* StartRecording *)
    destruct (_ || _); exact Hw.
  - (* MicrophoneGranted *)
    destruct (starting w) as [|n]; [exact Hw|].
    unfold startRecording_resume.
    destruct failure as [|name message|name message]; [|exact Hw|].
    + cbn [fst]. split; cbn [recorders processing].
      * destruct (recorders_startVADMonitoring vad
                    (mkWorld (Controller.mkManager
                       (Controller.isRecording (fields (set_starting w n)))
                       (Controller.isProcessing (fields (set_starting w n))) (Some now)
                       (if JS.truthy mimeType then mimeType else "audio/webm") []
                       (Controller.vad (fields (set_starting w n))))
                       (Some (Datatypes.length (recorders (set_starting w n))))
                       (recorders (set_starting w n)
                        ++ [mkRecorder Inactive SessionHandler false false])
                       (starting (set_starting w n)) (processing (set_starting w n))
                       (vadr (set_starting w n)) (callbacks (set_starting w n))))
          as (-> & _). cbn [recorders set_starting].
        intros j r Hj Hrec. destruct (decide (Datatypes.length (recorders w) = j)) as [<-|Hne].
        -- rewrite list_lookup_alter_eq, lookup_app_r, Nat.sub_diag in Hj by lia.
           injection Hj as <-. repeat split.
        -- rewrite list_lookup_alter_ne in Hj by exact Hne.
           apply lookup_app_Some in Hj as [Hj | [_ Hj]]; [eauto|].
           destruct (j - Datatypes.length (recorders w))%nat as [|k]; [|discriminate].
           injection Hj as <-. discriminate.
      * destruct (recorders_startVADMonitoring vad
                    (mkWorld (Controller.mkManager
                       (Controller.isRecording (fields (set_starting w n)))
                       (Controller.isProcessing (fields (set_starting w n))) (Some now)
                       (if JS.truthy mimeType then mimeType else "audio/webm") []
                       (Controller.vad (fields (set_starting w n))))
                       (Some (Datatypes.length (recorders (set_starting w n))))
                       (recorders (set_starting w n)
                        ++ [mkRecorder Inactive SessionHandler false false])
                       (starting (set_starting w n)) (processing (set_starting w n))
                       (vadr (set_starting w n)) (callbacks (set_starting w n))))
          as (-> & -> & _). cbn [recorders processing set_starting].
        intros j Hj. destruct (H2 j Hj) as (r & Hr & Hs).
        exists r. split; [|exact Hs].
        rewrite list_lookup_alter_ne.
        -- apply lookup_app_l_Some, Hr.
        -- apply lookup_lt_Some in Hr. lia.
    + cbn [fst].
      destruct (recorders_startVADMonitoring vad
                    (mkWorld (Controller.mkManager
                       (Controller.isRecording (fields (set_starting w n)))
                       (Controller.isProcessing (fields (set_starting w n))) (Some now)
                       (if JS.truthy mimeType then mimeType else "audio/webm") []
                       (Controller.vad (fields (set_starting w n))))
                       (Some (Datatypes.length (recorders (set_starting w n))))
                       (recorders (set_starting w n)
                        ++ [mkRecorder Inactive SessionHandler false false])
                       (starting (set_starting w n)) (processing (set_starting w n))
                       (vadr (set_starting w n)) (callbacks (set_starting w n))))
          as (Hr & Hp & _).
      split; [rewrite Hr | rewrite Hr, Hp]; cbn [recorders processing set_starting].
      * intros j r Hj Hrec.
        apply lookup_app_Some in Hj as [Hj | [_ Hj]]; [eauto|].
        destruct (j - Datatypes.length (recorders w))%nat as [|k]; [|discriminate].
        injection Hj as <-. discriminate.
      * intros j Hj. destruct (H2 j Hj) as (r & Hr' & Hs).
        exists r. split; [apply lookup_app_l_Some, Hr' | exact Hs].
  - (* MicrophoneDenied *)
    destruct (starting w); exact Hw.
  - (* DataAvailable *)
    destruct (recorders w !! i) as [r|]; [|exact Hw]. destruct (live r); exact Hw.
  - apply sound_stopRecording, Hw.
  - (* CancelRecording *)
    unfold cancelRecording. destruct (current_recording w) as [i|]; [|exact Hw].
    split; cbn [fst recorders processing set_recorders stopVADMonitoring set_vadr].
    + apply sound_alter_inactive; [reflexivity | exact H1].
    + intros j Hj. apply inactive_alter; [reflexivity | auto].
  - (* StopEvent *)
    destruct (recorders w !! i) as [r|] eqn:Hr; [|exact Hw].
    destruct (r_stop_pending r) eqn:Hpending; [|exact Hw].
    assert (Hstate : r_state r = Inactive).
    { destruct (r_state r) eqn:Hs; [reflexivity|].
      destruct (H1 i r Hr Hs) as (_ & Hp & _). congruence. }
    assert (Hins : forall x, r_state x = Inactive ->
              (forall j r', <[i := x]> (recorders w) !! j = Some r' ->
                 r_state r' = Recording ->
                 r_onstop r' = SessionHandler /\ r_stop_pending r' = false
                 /\ r_tracks_stopped r' = false)
              /\ (forall j, j = i \/ In j (processing w) ->
                    exists r', <[i := x]> (recorders w) !! j = Some r'
                               /\ r_state r' = Inactive)).
    { intros x Hx. split.
      - intros j r' Hj Hrec. apply list_lookup_insert_Some in Hj
          as [(<- & <- & _) | (Hne & Hj)]; [congruence | eauto].
      - intros j Hj. destruct (decide (i = j)) as [<- | Hne].
        + exists x. split; [|exact Hx].
          apply list_lookup_insert_eq. apply lookup_lt_Some in Hr. exact Hr.
        + destruct Hj as [-> | Hj]; [congruence|].
          destruct (H2 j Hj) as (r' & Hr' & Hs). exists r'.
          rewrite list_lookup_insert_ne by exact Hne. auto. }
    unfold stop_event. destruct (r_onstop r).
    + destruct (Controller.onstop now (fields w)) as [m evs]. cbn [fst].
      destruct (Hins (mkRecorder (r_state r) SessionHandler false
                        (r_tracks_stopped r || negb (Controller.isProcessing m))) Hstate)
        as [Ha Hb].
      split; cbn [recorders processing]; [exact Ha|].
      intros j Hj. apply Hb. destruct (Controller.isProcessing m); [|right; exact Hj].
      destruct Hj as [<- | Hj]; [left; reflexivity | right; exact Hj].
    + destruct (Controller.onstop_cancelled (fields w)) as [m evs]. cbn [fst].
      destruct (Hins (mkRecorder (r_state r) CancelHandler false (r_tracks_stopped r))
                  Hstate) as [Ha Hb].
      split; cbn [recorders processing]; [exact Ha|].
      intros j Hj. apply Hb. right. exact Hj.
  - (* ProcessingDone *)
    destruct (existsb (Nat.eqb i) (processing w)) eqn:Hin; [|exact Hw].
    apply existsb_exists in Hin as (j & Hj & Heq). apply Nat.eqb_eq in Heq. subst j.
    unfold processing_done. cbn [Controller.onstop_resume fst].
    split; cbn [recorders processing].
    + intros j r Hjr Hrec. destruct (decide (i = j)) as [<- | Hne].
      * rewrite list_lookup_alter_eq in Hjr.
        destruct (H2 i Hj) as (r0 & Hr0 & Hs0). rewrite Hr0 in Hjr.
        injection Hjr as <-. cbn in Hrec. congruence.
      * rewrite list_lookup_alter_ne in Hjr by exact Hne. eauto.
    + intros j Hj'. apply List.filter_In in Hj' as [Hj' _].
      apply inactive_alter; [intros r Hr; exact Hr | auto].
  - (* Tick *)
    unfold vad_tick. destruct (_ && _); [|exact Hw].
    destruct (VAD.tick rms now (Controller.vad (fields w))). exact Hw.
  - (* Cleanup *)
    cbn [fst]. apply sound_stopRecording in Hw.
    change (fst (stopRecording (stopVADMonitoring w)))
      with (fst (stopRecording (stopVADMonitoring w))).
    assert (Hs : sound (fst (stopRecording (stopVADMonitoring w)))).
    { apply sound_stopRecording. exact (conj H1 H2). }
    exact Hs.
Qed.

Lemma sound_mounted : sound mounted.
Proof. split; [intros i r Hr; destruct i; discriminate | intros i []]. Qed.

Lemma sound_run acts : sound (fst (run acts mounted)).
Proof. apply session_run_invariant; [apply sound_step | apply sound_mounted]. Qed.

(** *** Cancelling and stopping *)

Lemma data_frame i chunks : forall w,
  let w' := fst (run (map (DataAvailable i) chunks) w) in
  recorders w' = recorders w /\ callbacks w' = callbacks w
  /\ mediaRecorder w' = mediaRecorder w /\ vadr w' = vadr w.
Proof.
  induction chunks as [|c rest IH]; intros w; [repeat split|].
  cbn [map run]. cbv zeta.
  assert (Hstep : recorders (fst (step (DataAvailable i c) w)) = recorders w
                  /\ callbacks (fst (step (DataAvailable i c) w)) = callbacks w
                  /\ mediaRecorder (fst (step (DataAvailable i c) w)) = mediaRecorder w
                  /\ vadr (fst (step (DataAvailable i c) w)) = vadr w).
  { cbn [step]. destruct (recorders w !! i) as [r|]; [|repeat split].
    destruct (live r); repeat split. }
  destruct (step (DataAvailable i c) w) as [w1 ev1]. cbn [fst] in Hstep.
  specialize (IH w1). cbv zeta in IH.
  destruct (run (map (DataAvailable i) rest) w1) as [w2 ev2]. cbn [fst] in *.
  destruct IH as (-> & -> & -> & ->). exact Hstep.
Qed.

(** X20. [cancelRecording] on a recorder that records returns true, stops
    the VAD timer and the tracks at once, and discards the recording:
    whatever data the recorder still delivers, when its stop event arrives
    the manager is idle, holds no chunk and no start time, and has told its
    owner the new state and nothing else; [processAudio] is not called and
    no "no audio" notice is given, whatever the VAD statistics say. *)
Theorem cancel_discards_the_recording
    (w : world) (i : nat) (chunks : list string) (now : Z) :
  current_recording w = Some i ->
  let cancelled := step CancelRecording w in
  let w1 := fst (run (map (DataAvailable i) chunks) (fst cancelled)) in
  let stopped := step (StopEvent i now) w1 in
  snd cancelled = [Handler Controller.TracksStopped; Returned true]
  /\ vadr (fst cancelled) = mkResources false (strayTimers (vadr w)) false false false
  /\ snd stopped = notify w [Handler (Controller.StateChange false false)]
  /\ Controller.isRecording (fields (fst stopped)) = false
  /\ Controller.isProcessing (fields (fst stopped)) = false
  /\ Controller.audioChunks (fields (fst stopped)) = []
  /\ Controller.recordingStartTime (fields (fst stopped)) = None.
Proof.
  intros Hcur. cbv zeta.
  destruct (current_recording_Some w i Hcur) as (Hm & r & Hr & Hs).
  assert (Hcancel : step CancelRecording w
                    = (set_recorders (stopVADMonitoring w)
                         (alter (fun r => mkRecorder Inactive CancelHandler true true) i
                                (recorders w)),
                       [Handler Controller.TracksStopped; Returned true])).
  { cbn [step]. unfold cancelRecording. rewrite Hcur. reflexivity. }
  rewrite Hcancel. cbn [fst snd].
  split; [reflexivity|]. split; [reflexivity|].
  destruct (data_frame i chunks
              (set_recorders (stopVADMonitoring w)
                 (alter (fun r => mkRecorder Inactive CancelHandler true true) i
                        (recorders w)))) as (Hrec & Hcb & _).
  cbv zeta in Hrec, Hcb. cbn [recorders callbacks set_recorders stopVADMonitoring set_vadr]
    in Hrec, Hcb.
  set (w1 := fst (run (map (DataAvailable i) chunks) _)) in *.
  assert (Hi : recorders w1 !! i = Some (mkRecorder Inactive CancelHandler true true)).
  { rewrite Hrec, list_lookup_alter_eq, Hr. reflexivity. }
  cbn [step]. rewrite Hi. cbn [r_stop_pending]. unfold stop_event.
  cbn [r_onstop Controller.onstop_cancelled fst snd fields].
  unfold handler_events, notify. rewrite Hcb.
  repeat split. destruct (callbacks w); reflexivity.
Qed.

(** X21. Once [stopRecording] has returned true the recording can no
    longer be cancelled: until the stop event arrives, [cancelRecording]
    and a second [stopRecording] return false and change nothing, and the
    stop event then runs the session's handler on the manager's fields, so
    the audio is processed or reported as silent as if nobody had tried. *)
Theorem stopped_recording_cannot_be_cancelled (acts : list action) (i : nat) (now : Z) :
  let w := fst (run acts mounted) in
  current_recording w = Some i ->
  let w1 := fst (step StopRecording w) in
  snd (step StopRecording w) = [Returned true]
  /\ step CancelRecording w1 = (w1, [Returned false])
  /\ step StopRecording w1 = (w1, [Returned false])
  /\ snd (step (StopEvent i now) w1)
     = handler_events w (snd (Controller.onstop now (fields w)))
  /\ fields (fst (step (StopEvent i now) w1)) = fst (Controller.onstop now (fields w)).
Proof.
  cbv zeta. set (w := fst (run acts mounted)). intros Hcur.
  destruct (current_recording_Some w i Hcur) as (Hm & r & Hr & Hs).
  destruct (sound_run acts) as [Hsound _]. fold w in Hsound.
  destruct (Hsound i r Hr Hs) as (Hh & Hp & Ht).
  assert (Hstop : step StopRecording w
                  = (set_recorders w
                       (alter (fun r => mkRecorder Inactive (r_onstop r) true
                                          (r_tracks_stopped r)) i (recorders w)),
                     [Returned true])).
  { cbn [step]. unfold stopRecording. rewrite Hcur. reflexivity. }
  rewrite Hstop. cbn [fst snd]. set (w1 := set_recorders w _).
  assert (Hi : recorders w1 !! i = Some (mkRecorder Inactive SessionHandler true false)).
  { unfold w1. cbn [recorders set_recorders].
    rewrite list_lookup_alter_eq, Hr. cbn. rewrite Hh, Ht. reflexivity. }
  assert (Hnone : current_recording w1 = None).
  { unfold current_recording. change (mediaRecorder w1) with (mediaRecorder w).
    rewrite Hm, Hi. reflexivity. }
  split; [reflexivity|]. split.
  { cbn [step]. unfold cancelRecording. rewrite Hnone. reflexivity. }
  split.
  { cbn [step]. unfold stopRecording. rewrite Hnone. reflexivity. }
  cbn [step]. rewrite Hi. cbn [r_stop_pending]. unfold stop_event. cbn [r_onstop].
  change (fields w1) with (fields w).
  destruct (Controller.onstop now (fields w)) as [m evs]. split; reflexivity.
Qed.

End Session.

Lemma cancel_discards_the_recording_witness :
  let w := fst (run (R := VAD.exact)
                  [StartRecording; MicrophoneGranted "audio/webm" VadStarts StartsFine 1000;
                   Tick 1 1050]
                  (mounted)) in
  snd (step (R := VAD.exact) (StopEvent 0 2000)
         (fst (run (R := VAD.exact) (map (DataAvailable 0) ["chunk"])
                 (fst (step (R := VAD.exact) CancelRecording w)))))
  = [Handler (Controller.StateChange false false)].
Proof.
  intros w.
  assert (Hcur : current_recording w = Some 0%nat) by (vm_compute; reflexivity).
  exact (proj1 (proj2 (proj2
           (cancel_discards_the_recording (R := VAD.exact) w 0 ["chunk"] 2000 Hcur)))).
Defined.

Lemma stopped_recording_cannot_be_cancelled_witness :
  let acts := [StartRecording; MicrophoneGranted "audio/webm" VadStarts StartsFine 1000] in
  let w1 := fst (step (R := VAD.exact) StopRecording
                   (fst (run (R := VAD.exact) acts mounted))) in
  step (R := VAD.exact) CancelRecording w1 = (w1, [Returned false]).
Proof.
  intros acts w1.
  assert (Hcur : current_recording (fst (run (R := VAD.exact) acts mounted)) = Some 0%nat)
    by (vm_compute; reflexivity).
  exact (proj1 (proj2
           (stopped_recording_cannot_be_cancelled (R := VAD.exact) acts 0 0 Hcur))).
Defined.

(** *** A session whose VAD monitoring did not start *)

Section Schedules.
Context {R : Rounding}.

(** Data and timer callbacks only. *)
Definition passive (a : action) : bool :=
  match a with
  | Tick _ _ | DataAvailable _ _ => true
  | _ => false
  end.

(** Recorder [i] records for the manager, no VAD timer runs, and the VAD
    fields are [v]. *)
Definition unmonitored (i : nat) (v : VAD.state) (cb : bool) (w : world) : Prop :=
  recorders w !! i = Some (mkRecorder Recording SessionHandler false false)
  /\ mediaRecorder w = Some i
  /\ vadIntervalId (vadr w) = false
  /\ strayTimers (vadr w) = 0%nat
  /\ Controller.vad (fields w) = v
  /\ callbacks w = cb.

Lemma unmonitored_passive i v cb a w :
  passive a = true -> unmonitored i v cb w -> unmonitored i v cb (fst (step a w)).
Proof.
  intros Ha (H1 & H2 & H3 & H4 & H5 & H6). destruct a; try discriminate; cbn [step].
  - destruct (recorders w !! i0) as [r|]; [|repeat split; assumption].
    destruct (live r); repeat split; assumption.
  - unfold vad_tick. rewrite H3, H4. cbn. repeat split; assumption.
Qed.

Lemma unmonitored_run i v cb middle : forall w,
  forallb passive middle = true -> unmonitored i v cb w ->
  unmonitored i v cb (fst (run middle w)).
Proof.
  induction middle as [|a rest IH]; intros w Hall Hw; [exact Hw|].
  cbn [forallb] in Hall. apply andb_prop in Hall as [Ha Hrest].
  cbn [run]. pose proof (unmonitored_passive i v cb a w Ha Hw) as Hstep.
  destruct (step a w) as [w1 ev1]. specialize (IH w1 Hrest Hstep).
  destruct (run rest w1) as [w2 ev2]. exact IH.
Qed.

(** X22. When [startVADMonitoring] throws (its statements that can throw
    all stand before the reset of the VAD fields), the recording is judged
    by the statistics the manager already held: no timer runs, so the data
    and timer callbacks of the session leave the VAD fields as they were
    before the start, and the stop event applies the handler's test to
    them.  On fields without a detected voice, as those of a new manager,
    the recording is reported as silent and [processAudio] is not called,
    whatever was recorded. *)
Theorem failed_vad_start_keeps_old_statistics
    (w : world) (mimeType : string) (vad : vad_failure) (t0 t1 : Z)
    (middle : list action) :
  Controller.isRecording (fields w) = false ->
  Controller.isProcessing (fields w) = false ->
  current_recording w = None ->
  starting w = 0%nat ->
  vadIntervalId (vadr w) = false ->
  strayTimers (vadr w) = 0%nat ->
  vad <> VadStarts ->
  forallb passive middle = true ->
  let i := Datatypes.length (recorders w) in
  let w1 :=
    fst (run ([StartRecording; MicrophoneGranted mimeType vad StartsFine t0]
              ++ middle ++ [StopRecording]) w) in
  Controller.vad (fields w1) = Controller.vad (fields w)
  /\ snd (step (StopEvent i t1) w1)
     = handler_events w (snd (Controller.onstop t1 (fields w1)))
  /\ (VAD.voiceDetected (Controller.vad (fields w)) = false ->
      snd (step (StopEvent i t1) w1)
      = handler_events w [Controller.StateChange false false; Controller.NoAudioDetected;
                          Controller.TracksStopped]).
Proof.
  intros Hrec Hproc Hcur Hstart Htimer Hstray Hvad Hmiddle. cbv zeta.
  set (i := Datatypes.length (recorders w)).
  rewrite session_run_app. cbn [fst].
  rewrite session_run_app. cbn [fst].
  assert (Hbegin : unmonitored i (Controller.vad (fields w)) (callbacks w)
                     (fst (run [StartRecording;
                                MicrophoneGranted mimeType vad StartsFine t0] w))).
  { cbn [run step]. rewrite Hrec, Hproc, Hcur. cbn [orb].
    cbn [starting set_starting]. unfold startRecording_resume.
    destruct vad; try contradiction; cbn; unfold unmonitored; cbn;
      rewrite ?Htimer, ?Hstray;
      (split; [rewrite list_lookup_alter_eq, lookup_app_r, Nat.sub_diag by lia;
               reflexivity|]); repeat split; assumption. }
  pose proof (unmonitored_run i _ _ middle _ Hmiddle Hbegin) as Hmid.
  set (w0 := fst (run middle _)) in *.
  destruct Hmid as (Hi & Hm & _ & _ & Hv & Hcb).
  assert (Hnow : current_recording w0 = Some i).
  { unfold current_recording. rewrite Hm, Hi. reflexivity. }
  assert (Hstop : run [StopRecording] w0
                  = (set_recorders w0
                       (alter (fun r => mkRecorder Inactive (r_onstop r) true
                                          (r_tracks_stopped r)) i (recorders w0)),
                     [Returned true])).
  { cbn [run step]. unfold stopRecording. rewrite Hnow. reflexivity. }
  rewrite Hstop. cbn [fst]. set (w1 := set_recorders w0 _).
  assert (Hi1 : recorders w1 !! i = Some (mkRecorder Inactive SessionHandler true false)).
  { unfold w1. cbn [recorders set_recorders]. rewrite list_lookup_alter_eq, Hi. reflexivity. }
  assert (Hevent : snd (step (StopEvent i t1) w1)
                   = handler_events w (snd (Controller.onstop t1 (fields w1)))).
  { cbn [step]. rewrite Hi1. cbn [r_stop_pending]. unfold stop_event. cbn [r_onstop].
    destruct (Controller.onstop t1 (fields w1)) as [m evs]. cbn [snd].
    unfold handler_events. change (callbacks w1) with (callbacks w0). now rewrite Hcb. }
  split; [exact Hv|]. split; [exact Hevent|].
  intros Hquiet. rewrite Hevent. f_equal.
  unfold Controller.onstop. change (fields w1) with (fields w0).
  cbn [VAD.stopVADMonitoring VAD.st_voiceDetected]. rewrite Hv, Hquiet. reflexivity.
Qed.

End Schedules.

Lemma failed_vad_start_keeps_old_statistics_witness :
  snd (step (R := VAD.exact) (StopEvent 0 5000)
         (fst (run (R := VAD.exact)
                 ([StartRecording; MicrophoneGranted "audio/webm" ContextThrows StartsFine 1000]
                  ++ [Tick 1 1050; DataAvailable 0 "speech"; Tick 1 1100]
                  ++ [StopRecording]) mounted)))
  = [Handler (Controller.StateChange false false); Handler Controller.NoAudioDetected;
     Handler Controller.TracksStopped].
Proof.
  apply (failed_vad_start_keeps_old_statistics (R := VAD.exact) mounted "audio/webm"
           ContextThrows 1000 5000 [Tick 1 1050; DataAvailable 0 "speech"; Tick 1 1100]);
    try reflexivity.
  discriminate.
Defined.

(** *** The state machine of orderly schedules *)

Section Phases.
Context {R : Rounding}.

(** [getState()] *)
Definition flags (w : world) : bool * bool :=
  (Controller.isRecording (fields w), Controller.isProcessing (fields w)).

(** The state the hook shows: what the last [onStateChange] told it. *)
Definition shown (evs : list event) (u : bool * bool) : bool * bool :=
  fold_left (fun u e =>
               match e with
               | Handler (Controller.StateChange r p) => (r, p)
               | _ => u
               end) evs u.

(** A schedule in which no call of [startRecording] is made while another
    one waits for the microphone, and [cleanup] is not called. *)
Fixpoint orderly (acts : list action) (w : world) : bool :=
  match acts with
  | [] => true
  | a :: rest =>
      match a with
      | StartRecording => Nat.eqb (starting w) 0
      | Cleanup => false
      | _ => true
      end && orderly rest (fst (step a w))
  end.

Inductive phase :=
| Idle
| Starting
| Rec (i : nat)
| Stopping (i : nat) (h : handler)
| Proc (i : nat).

Definition none_live (rs : list recorder) : Prop :=
  forall j r, rs !! j = Some r -> live r = false.

Definition only_live (i : nat) (rs : list recorder) : Prop :=
  forall j r, rs !! j = Some r -> live r = true -> j = i.

(** What a phase says of the flags, of the calls that wait, of the
    manager's recorder and of the recorders. *)
Definition phase_ok (p : phase) (f : bool * bool) (nstarting : nat) (proc : list nat)
    (current : option nat) (rs : list recorder) : Prop :=
  match p with
  | Idle => f = (false, false) /\ nstarting = 0%nat /\ proc = [] /\ none_live rs
  | Starting => f = (false, false) /\ nstarting = 1%nat /\ proc = [] /\ none_live rs
  | Rec i =>
      f = (true, false) /\ nstarting = 0%nat /\ proc = [] /\ current = Some i
      /\ rs !! i = Some (mkRecorder Recording SessionHandler false false)
      /\ only_live i rs
  | Stopping i h =>
      f = (true, false) /\ nstarting = 0%nat /\ proc = [] /\ current = Some i
      /\ (exists t, rs !! i = Some (mkRecorder Inactive h true t))
      /\ only_live i rs
  | Proc i =>
      f = (false, true) /\ nstarting = 0%nat /\ proc = [i] /\ none_live rs
  end.

Definition in_phase (p : phase) (w : world) : Prop :=
  phase_ok p (flags w) (starting w) (processing w) (mediaRecorder w) (recorders w).

Lemma none_live_current w : none_live (recorders w) -> current_recording w = None.
Proof.
  intros H. unfold current_recording. destruct (mediaRecorder w) as [i|]; [|reflexivity].
  destruct (recorders w !! i) as [r|] eqn:Hr; [|reflexivity].
  specialize (H i r Hr). unfold live in H. destruct (r_state r); [reflexivity | discriminate].
Qed.

Lemma shown_app a b u : shown (a ++ b) u = shown b (shown a u).
Proof. apply fold_left_app. Qed.

(** The steps that leave the phase alone. *)
Lemma phase_frame p w w' evs :
  in_phase p w ->
  flags w' = flags w -> starting w' = starting w -> processing w' = processing w ->
  mediaRecorder w' = mediaRecorder w -> recorders w' = recorders w ->
  callbacks w' = callbacks w ->
  shown evs (flags w) = flags w ->
  (exists p', in_phase p' w') /\ callbacks w' = callbacks w
  /\ shown evs (flags w) = flags w'.
Proof.
  intros Hp H1 H2 H3 H4 H5 H6 H7. split; [|split; [exact H6 | congruence]].
  exists p. unfold in_phase. rewrite H1, H2, H3, H4, H5. exact Hp.
Qed.

Lemma data_step p i chunk w :
  in_phase p w ->
  (exists p', in_phase p' (fst (step (DataAvailable i chunk) w)))
  /\ callbacks (fst (step (DataAvailable i chunk) w)) = callbacks w
  /\ shown (snd (step (DataAvailable i chunk) w)) (flags w)
     = flags (fst (step (DataAvailable i chunk) w)).
Proof.
  intros Hp. cbn [step]. destruct (recorders w !! i) as [r|].
  - destruct (live r); apply (phase_frame p w); try exact Hp; reflexivity.
  - apply (phase_frame p w); try exact Hp; reflexivity.
Qed.

Lemma tick_step p rms now w :
  in_phase p w ->
  (exists p', in_phase p' (fst (step (Tick rms now) w)))
  /\ callbacks (fst (step (Tick rms now) w)) = callbacks w
  /\ shown (snd (step (Tick rms now) w)) (flags w) = flags (fst (step (Tick rms now) w)).
Proof.
  intros Hp. cbn [step]. unfold vad_tick. destruct (_ && _).
  - destruct (VAD.tick rms now (Controller.vad (fields w))) as [s n].
    apply (phase_frame p w); try exact Hp; try reflexivity.
    unfold notify. destruct (callbacks w); reflexivity.
  - apply (phase_frame p w); try exact Hp; reflexivity.
Qed.

Lemma none_live_app rs r : none_live rs -> live r = false -> none_live (rs ++ [r]).
Proof.
  intros H Hr j x Hj. apply lookup_app_Some in Hj as [Hj | [_ Hj]]; [eauto|].
  destruct (j - Datatypes.length rs)%nat; [|discriminate]. now injection Hj as <-.
Qed.

Lemma none_live_pending rs i r :
  none_live rs -> rs !! i = Some r -> r_stop_pending r = false.
Proof.
  intros H Hr. specialize (H i r Hr). unfold live in H.
  destruct (r_state r); [exact H | discriminate].
Qed.

Lemma only_live_insert_none (rs : list recorder) (i : nat) (x : recorder) :
  only_live i rs -> live x = false -> none_live (<[i := x]> rs).
Proof.
  intros H Hx j r Hj.
  apply list_lookup_insert_Some in Hj as [(_ & <- & _) | (Hne & Hj)]; [exact Hx|].
  destruct (live r) eqn:Hl; [|reflexivity]. specialize (H j r Hj Hl). congruence.
Qed.

Lemma only_live_alter (rs : list recorder) (i : nat) (f : recorder -> recorder) :
  only_live i rs -> only_live i (alter f i rs).
Proof.
  intros H j r Hj Hl. destruct (decide (i = j)) as [<- | Hne]; [reflexivity|].
  rewrite list_lookup_alter_ne in Hj by exact Hne. eauto.
Qed.

Lemma none_live_alter (rs : list recorder) (i : nat) (f : recorder -> recorder) :
  none_live rs -> (forall r, live (f r) = live r) -> none_live (alter f i rs).
Proof.
  intros H Hf j r Hj. destruct (decide (i = j)) as [<- | Hne].
  - rewrite list_lookup_alter_eq in Hj. destruct (rs !! i) as [r0|] eqn:Hr; [|discriminate].
    injection Hj as <-. rewrite Hf. eauto.
  - rewrite list_lookup_alter_ne in Hj by exact Hne. eauto.
Qed.

Lemma none_live_only (rs : list recorder) (i : nat) : none_live rs -> only_live i rs.
Proof. intros H j r Hj Hl. rewrite (H j r Hj) in Hl. discriminate. Qed.

(** A step that does nothing but return. *)
Lemma idle_step p w evs :
  in_phase p w ->
  shown evs (flags w) = flags w ->
  (exists p', in_phase p' w) /\ callbacks w = callbacks w
  /\ shown evs (flags w) = flags w.
Proof. intros Hp Hs. apply (phase_frame p w); try reflexivity; assumption. Qed.

Lemma phase_current p w :
  in_phase p w ->
  current_recording w = match p with Rec i => Some i | _ => None end.
Proof.
  intros Hp. destruct p; unfold in_phase in Hp; cbn [phase_ok] in Hp.
  - apply none_live_current, Hp.
  - apply none_live_current, Hp.
  - destruct Hp as (_ & _ & _ & Hm & Hr & _). unfold current_recording.
    rewrite Hm, Hr. reflexivity.
  - destruct Hp as (_ & _ & _ & Hm & (t & Hr) & _). unfold current_recording.
    rewrite Hm, Hr. reflexivity.
  - apply none_live_current, Hp.
Qed.

Lemma phase_starting p w :
  in_phase p w -> starting w = match p with Starting => 1%nat | _ => 0%nat end.
Proof. intros Hp. destruct p; apply Hp. Qed.

Lemma phase_processing p w :
  in_phase p w -> processing w = match p with Proc i => [i] | _ => [] end.
Proof. intros Hp. destruct p; apply Hp. Qed.

Lemma phase_flags p w :
  in_phase p w ->
  flags w = match p with
            | Idle | Starting => (false, false)
            | Rec _ | Stopping _ _ => (true, false)
            | Proc _ => (false, true)
            end.
Proof. intros Hp. destruct p; apply Hp. Qed.

(** The recorder whose stop event is due. *)
Lemma phase_pending p w i r :
  in_phase p w -> recorders w !! i = Some r -> r_stop_pending r = true ->
  exists h t, p = Stopping i h /\ r = mkRecorder Inactive h true t.
Proof.
  intros Hp Hr Hpending.
  assert (Hlive : live r = true) by (unfold live; destruct (r_state r); auto).
  destruct p; unfold in_phase in Hp; cbn [phase_ok] in Hp.
  - destruct Hp as (_ & _ & _ & Hn). rewrite (Hn i r Hr) in Hlive. discriminate.
  - destruct Hp as (_ & _ & _ & Hn). rewrite (Hn i r Hr) in Hlive. discriminate.
  - destruct Hp as (_ & _ & _ & _ & Hi & Honly).
    rewrite (Honly i r Hr Hlive) in Hr. rewrite Hi in Hr. injection Hr as <-. discriminate.
  - destruct Hp as (_ & _ & _ & _ & (t & Hi) & Honly).
    pose proof (Honly i r Hr Hlive) as ->. rewrite Hi in Hr. injection Hr as <-. eauto.
  - destruct Hp as (_ & _ & _ & Hn). rewrite (Hn i r Hr) in Hlive. discriminate.
Qed.

Lemma phase_step a p w :
  in_phase p w -> callbacks w = true ->
  match a with
  | StartRecording => starting w = 0%nat
  | Cleanup => False
  | _ => True
  end ->
  (exists p', in_phase p' (fst (step a w)))
  /\ callbacks (fst (step a w)) = callbacks w
  /\ shown (snd (step a w)) (flags w) = flags (fst (step a w)).
Proof.
  intros Hp Hcb Ha.
  pose proof (phase_current p w Hp) as Hcur.
  pose proof (phase_starting p w Hp) as Hstart.
  pose proof (phase_processing p w Hp) as Hproc.
  pose proof (phase_flags p w Hp) as Hflags.
  assert (Hrec : Controller.isRecording (fields w)
                 = match p with Rec _ | Stopping _ _ => true | _ => false end).
  { change (Controller.isRecording (fields w)) with (fst (flags w)).
    rewrite Hflags. destruct p; reflexivity. }
  assert (Hprc : Controller.isProcessing (fields w)
                 = match p with Proc _ => true | _ => false end).
  { change (Controller.isProcessing (fields w)) with (snd (flags w)).
    rewrite Hflags. destruct p; reflexivity. }
  destruct a as [|mimeType vad failure now|name message|i chunk| | |i now|i|rms now|];
    try (apply (data_step p); exact Hp); try (apply (tick_step p); exact Hp);
    try contradiction.
  - (* StartRecording *)
    cbn [step]. rewrite Hrec, Hprc, Hcur.
    destruct p; cbn [fst snd orb]; try (cbn [fst snd]; apply (idle_step _ _ _ Hp); reflexivity);
      try congruence.
    split; [|split; reflexivity].
    exists Starting. destruct Hp as (Hf & Hs & Hpr & Hn).
    unfold in_phase. cbn. rewrite Hs. auto.
  - (* MicrophoneGranted *)
    cbn [step]. rewrite Hstart.
    destruct p; try (cbn [fst snd]; apply (idle_step _ _ _ Hp); reflexivity).
    destruct Hp as (Hf & Hs & Hpr & Hn). unfold flags in Hf. injection Hf as Hr0 Hp0.
    unfold startRecording_resume, notify. cbn [callbacks set_starting]. rewrite Hcb.
    destruct failure as [|name message|name message].
    + (* the recorder starts *)
      assert (Hnew : forall rs,
                rs = alter (fun r => mkRecorder Recording (r_onstop r) false false)
                       (Datatypes.length (recorders w))
                       (recorders w ++ [mkRecorder Inactive SessionHandler false false]) ->
                rs !! Datatypes.length (recorders w)
                = Some (mkRecorder Recording SessionHandler false false)
                /\ only_live (Datatypes.length (recorders w)) rs).
      { intros rs ->. split.
        - rewrite list_lookup_alter_eq, lookup_app_r, Nat.sub_diag by lia. reflexivity.
        - apply only_live_alter, none_live_only, none_live_app; [exact Hn | reflexivity]. }
      destruct (Hnew _ eq_refl) as [Hi Honly].
      destruct vad; cbn [fst snd]; (split; [|split; [first [reflexivity | exact Hcb]|]]);
        try (exists (Rec (Datatypes.length (recorders w)));
             unfold in_phase, flags; cbn; rewrite ?Hp0, ?Hpr; repeat split;
             assumption);
        unfold flags; cbn; rewrite ?Hp0; reflexivity.
    + cbn [fst snd]. split; [|split; [first [reflexivity | exact Hcb]|]].
      * exists Idle. unfold in_phase, flags. cbn. rewrite Hr0, Hp0. auto.
      * unfold flags. cbn. rewrite Hr0, Hp0. reflexivity.
    + assert (Hnone : none_live
                        (recorders w ++ [mkRecorder Inactive SessionHandler false false]))
        by (apply none_live_app; [exact Hn | reflexivity]).
      destruct vad; cbn [fst snd]; (split; [|split; [first [reflexivity | exact Hcb]|]]);
        try (exists Idle; unfold in_phase, flags; cbn; rewrite ?Hr0, ?Hp0; auto);
        unfold flags; cbn; rewrite ?Hr0, ?Hp0; reflexivity.
  - (* MicrophoneDenied *)
    cbn [step]. rewrite Hstart.
    destruct p; try (cbn [fst snd]; apply (idle_step _ _ _ Hp); reflexivity).
    destruct Hp as (Hf & Hs & Hpr & Hn). unfold notify. rewrite Hcb. cbn [fst snd].
    split; [|split; [first [reflexivity | exact Hcb]|]].
    + exists Idle. unfold in_phase. cbn. auto.
    + reflexivity.
  - (* StopRecording *)
    cbn [step]. unfold stopRecording. rewrite Hcur.
    destruct p; try (cbn [fst snd]; apply (idle_step _ _ _ Hp); reflexivity).
    destruct Hp as (Hf & Hs & Hpr & Hm & Hi & Honly). cbn [fst snd].
    split; [|split; [first [reflexivity | exact Hcb]|]].
    + exists (Stopping i SessionHandler). unfold in_phase. cbn. repeat split; try assumption.
      * exists false. rewrite list_lookup_alter_eq, Hi. reflexivity.
      * apply only_live_alter, Honly.
    + cbn. reflexivity.
  - (* CancelRecording *)
    cbn [step]. unfold cancelRecording. rewrite Hcur.
    destruct p; try (cbn [fst snd]; apply (idle_step _ _ _ Hp); reflexivity).
    destruct Hp as (Hf & Hs & Hpr & Hm & Hi & Honly). cbn [fst snd].
    split; [|split; [first [reflexivity | exact Hcb]|]].
    + exists (Stopping i CancelHandler). unfold in_phase. cbn. repeat split; try assumption.
      * exists true. rewrite list_lookup_alter_eq, Hi. reflexivity.
      * apply only_live_alter, Honly.
    + cbn. reflexivity.
  - (* StopEvent *)
    cbn [step]. destruct (recorders w !! i) as [r|] eqn:Hr;
      [|cbn [fst snd]; apply (idle_step _ _ _ Hp); reflexivity].
    destruct (r_stop_pending r) eqn:Hpending;
      [|cbn [fst snd]; apply (idle_step _ _ _ Hp); reflexivity].
    destruct (phase_pending p w i r Hp Hr Hpending) as (h & t & -> & ->).
    destruct Hp as (Hf & Hs & Hpr & Hm & _ & Honly).
    unfold stop_event. cbn [r_onstop r_state r_tracks_stopped].
    unfold handler_events. rewrite Hcb. cbn [orb].
    destruct h.
    + unfold Controller.onstop. cbn [VAD.stopVADMonitoring].
      destruct (negb _ || Qltb _ _); cbn [fst snd Controller.isProcessing];
        (split; [|split; [first [reflexivity | exact Hcb]|]]); try (cbn; reflexivity).
      * exists Idle. unfold in_phase. cbn. repeat split; try assumption.
        apply only_live_insert_none; [exact Honly | reflexivity].
      * exists (Proc i). unfold in_phase. cbn. rewrite Hpr. repeat split; try assumption.
        apply only_live_insert_none; [exact Honly | reflexivity].
    + cbn [Controller.onstop_cancelled fst snd]. split; [|split; [first [reflexivity | exact Hcb]|]].
      * exists Idle. unfold in_phase. cbn. repeat split; try assumption.
        apply only_live_insert_none; [exact Honly | reflexivity].
      * cbn. reflexivity.
  - (* ProcessingDone *)
    cbn [step]. rewrite Hproc.
    destruct p; cbn [existsb]; try (cbn [fst snd]; apply (idle_step _ _ _ Hp); reflexivity).
    destruct (Nat.eqb i i0) eqn:Heq; cbn [orb];
      [|cbn [fst snd]; apply (idle_step _ _ _ Hp); reflexivity].
    apply Nat.eqb_eq in Heq. subst i0.
    destruct Hp as (Hf & Hs & Hpr & Hn). unfold flags in Hf. injection Hf as Hr0 Hp0.
    unfold processing_done, notify, handler_events. rewrite Hcb, Hpr.
    cbn [Controller.onstop_resume fst snd List.filter]. rewrite Nat.eqb_refl. cbn [negb].
    split; [|split; [first [reflexivity | exact Hcb]|]].
    + exists Idle. unfold in_phase, flags. cbn. rewrite Hr0. repeat split; try assumption.
      apply none_live_alter; [exact Hn | reflexivity].
    + unfold flags. cbn. rewrite Hr0. reflexivity.
Qed.

Lemma phase_run acts : forall p w,
  in_phase p w -> callbacks w = true -> orderly acts w = true ->
  (exists p', in_phase p' (fst (run acts w)))
  /\ shown (snd (run acts w)) (flags w) = flags (fst (run acts w)).
Proof.
  induction acts as [|a rest IH]; intros p w Hp Hcb Hord.
  - split; [exists p; exact Hp | reflexivity].
  - cbn [orderly] in Hord. apply andb_prop in Hord as [Ha Hrest].
    assert (Ha' : match a with
                  | StartRecording => starting w = 0%nat
                  | Cleanup => False
                  | _ => True
                  end).
    { destruct a; try exact I; [now apply Nat.eqb_eq | discriminate]. }
    destruct (phase_step a p w Hp Hcb Ha') as ((p1 & Hp1) & Hcb1 & Hshown).
    cbn [run]. destruct (step a w) as [w1 ev1]. cbn [fst snd] in *.
    rewrite Hcb in Hcb1.
    destruct (IH p1 w1 Hp1 Hcb1 Hrest) as (Hp2 & Hshown2).
    destruct (run rest w1) as [w2 ev2]. cbn [fst snd] in *.
    split; [exact Hp2|]. now rewrite shown_app, Hshown.
Qed.

Lemma mounted_idle : in_phase Idle mounted.
Proof. repeat split. intros j r Hj. destruct j; discriminate. Qed.

(** X23. As long as no call of [startRecording] is made while another one
    waits for the microphone (and [cleanup] is not called), the manager is
    a state machine over Idle, Starting, Recording, Stopping and
    Processing, whatever the owner and the platform do and in whatever
    order: at most one recorder records or has its stop event due, and it
    is the one the manager holds; [isRecording] is set exactly while there
    is such a recorder; [isRecording] and [isProcessing] are never both
    set; at most one call waits for the microphone, and only while the
    manager is idle; and the state the hook was last told through
    [onStateChange] is the state [getState()] returns. *)
Theorem orderly_sessions_follow_the_state_machine (acts : list action) :
  orderly acts mounted = true ->
  let w := fst (run acts mounted) in
  (forall i r, recorders w !! i = Some r -> live r = true -> mediaRecorder w = Some i)
  /\ (Controller.isRecording (fields w) = true
      <-> exists i r, recorders w !! i = Some r /\ live r = true)
  /\ Controller.isRecording (fields w) && Controller.isProcessing (fields w) = false
  /\ (starting w <= 1)%nat
  /\ (starting w = 1%nat -> flags w = (false, false))
  /\ shown (snd (run acts mounted)) (false, false) = flags w.
Proof.
  intros Hord. cbv zeta.
  destruct (phase_run acts Idle mounted mounted_idle eq_refl Hord) as ((p & Hp) & Hshown).
  change (flags mounted) with (false, false) in Hshown.
  set (w := fst (run acts mounted)) in *.
  assert (Hnone : none_live (recorders w) ->
            (forall i r, recorders w !! i = Some r -> live r = true ->
               mediaRecorder w = Some i)
            /\ ~ (exists i r, recorders w !! i = Some r /\ live r = true)).
  { intros Hn. split.
    - intros i r Hr Hl. rewrite (Hn i r Hr) in Hl. discriminate.
    - intros (i & r & Hr & Hl). rewrite (Hn i r Hr) in Hl. discriminate. }
  destruct p; unfold in_phase in Hp; cbn [phase_ok] in Hp.
  - destruct Hp as (Hf & Hs & _ & Hn). destruct (Hnone Hn) as [H1 H2].
    pose proof Hf as Hf'. unfold flags in Hf'. injection Hf' as Hr Hpr.
    rewrite Hr, Hpr, Hs. repeat split; auto; try discriminate; try lia.
    all: try (intros H; destruct (H2 H)).
  - destruct Hp as (Hf & Hs & _ & Hn). destruct (Hnone Hn) as [H1 H2].
    pose proof Hf as Hf'. unfold flags in Hf'. injection Hf' as Hr Hpr.
    rewrite Hr, Hpr, Hs. repeat split; auto; try discriminate.
    all: try (intros H; destruct (H2 H)).
  - destruct Hp as (Hf & Hs & _ & Hm & Hi & Honly).
    pose proof Hf as Hf'. unfold flags in Hf'. injection Hf' as Hr Hpr.
    rewrite Hr, Hpr, Hs. repeat split; auto; try discriminate; try lia.
    all: try (intros j r Hj Hl; rewrite (Honly j r Hj Hl); exact Hm).
    all: try (intros _; exists i; eexists; split; [exact Hi | reflexivity]).
  - destruct Hp as (Hf & Hs & _ & Hm & (t & Hi) & Honly).
    pose proof Hf as Hf'. unfold flags in Hf'. injection Hf' as Hr Hpr.
    rewrite Hr, Hpr, Hs. repeat split; auto; try discriminate; try lia.
    all: try (intros j r Hj Hl; rewrite (Honly j r Hj Hl); exact Hm).
    all: try (intros _; exists i; eexists; split; [exact Hi | reflexivity]).
  - destruct Hp as (Hf & Hs & _ & Hn). destruct (Hnone Hn) as [H1 H2].
    pose proof Hf as Hf'. unfold flags in Hf'. injection Hf' as Hr Hpr.
    rewrite Hr, Hpr, Hs. repeat split; auto; try discriminate; try lia.
    all: try (intros H; destruct (H2 H)).
Qed.

(** *** Two calls of [startRecording] that overlap *)

(** Recorder [i] records, and the manager holds a later recorder. *)
Definition stranded (i : nat) (w : world) : Prop :=
  recorders w !! i = Some (mkRecorder Recording SessionHandler false false)
  /\ (exists j, mediaRecorder w = Some j /\ (i < j)%nat)
  /\ ~ In i (processing w).

Lemma stranded_alter (f : recorder -> recorder) (i j : nat) (rs : list recorder) x :
  i <> j -> rs !! i = Some x -> alter f j rs !! i = Some x.
Proof. intros Hne Hi. rewrite list_lookup_alter_ne by congruence. exact Hi. Qed.

Lemma stranded_stopRecording i w : stranded i w -> stranded i (fst (stopRecording w)).
Proof.
  intros (Hi & (j & Hm & Hlt) & Hp). unfold stopRecording.
  destruct (current_recording w) as [k|] eqn:Hcur.
  - destruct (current_recording_Some w k Hcur) as (Hm' & _).
    assert (k = j) as -> by congruence.
    split; [|split]; cbn; [apply stranded_alter; [lia | exact Hi] | eauto | exact Hp].
  - split; [exact Hi | split; [eauto | exact Hp]].
Qed.

Lemma stranded_step i a w : stranded i w -> stranded i (fst (step a w)).
Proof.
  intros Hw. pose proof Hw as (Hi & (j & Hm & Hlt) & Hp).
  destruct a as [|mimeType vad failure now|name message|k chunk| | |k now|k|rms now|];
    cbn [step].
  - destruct (_ || _); exact Hw.
  - destruct (starting w) as [|n]; [exact Hw|].
    assert (Hlen : (i < Datatypes.length (recorders w))%nat)
      by (apply lookup_lt_Some in Hi; exact Hi).
    unfold startRecording_resume.
    destruct failure as [|name message|name message]; [|exact Hw|];
      destruct vad; cbn; (split; [|split; [eauto|exact Hp]]);
      try (apply stranded_alter; [lia|]); apply lookup_app_l_Some, Hi.
  - destruct (starting w); exact Hw.
  - destruct (recorders w !! k) as [r|]; [|exact Hw]. destruct (live r); exact Hw.
  - apply stranded_stopRecording, Hw.
  - unfold cancelRecording. destruct (current_recording w) as [c|] eqn:Hcur; [|exact Hw].
    destruct (current_recording_Some w c Hcur) as (Hm' & _).
    assert (c = j) as -> by congruence.
    split; [|split]; cbn; [apply stranded_alter; [lia | exact Hi] | eauto | exact Hp].
  - destruct (recorders w !! k) as [r|] eqn:Hr; [|exact Hw].
    destruct (r_stop_pending r) eqn:Hpending; [|exact Hw].
    assert (Hne : k <> i).
    { intros ->. rewrite Hi in Hr. injection Hr as <-. discriminate. }
    unfold stop_event. destruct (r_onstop r).
    + destruct (Controller.onstop now (fields w)) as [m evs]. cbn [fst].
      split; [|split]; cbn.
      * rewrite list_lookup_insert_ne by exact Hne. exact Hi.
      * eauto.
      * destruct (Controller.isProcessing m); [|exact Hp].
        intros [Heq | Hin]; [congruence | exact (Hp Hin)].
    + cbn [Controller.onstop_cancelled fst]. split; [|split]; cbn.
      * rewrite list_lookup_insert_ne by exact Hne. exact Hi.
      * eauto.
      * exact Hp.
  - destruct (existsb (Nat.eqb k) (processing w)) eqn:Hin; [|exact Hw].
    apply existsb_exists in Hin as (k' & Hin & Heq). apply Nat.eqb_eq in Heq. subst k'.
    assert (Hne : i <> k) by (intros ->; exact (Hp Hin)).
    unfold processing_done. cbn [Controller.onstop_resume fst].
    split; [|split]; cbn.
    + apply stranded_alter; [exact Hne | exact Hi].
    + eauto.
    + intros Hin'. apply List.filter_In in Hin' as [Hin' _]. exact (Hp Hin').
  - unfold vad_tick. destruct (_ && _); [|exact Hw].
    destruct (VAD.tick rms now (Controller.vad (fields w))). exact Hw.
  - cbn [fst].
    assert (Hs : stranded i (fst (stopRecording (stopVADMonitoring w))))
      by (apply stranded_stopRecording; exact Hw).
    exact Hs.
Qed.

Lemma granted_starts (w : world) (n : nat) (mimeType : string) (vad : vad_failure)
    (now : Z) :
  starting w = S n ->
  let started := step (MicrophoneGranted mimeType vad StartsFine now) w in
  recorders (fst started)
  = recorders w ++ [mkRecorder Recording SessionHandler false false]
  /\ mediaRecorder (fst started) = Some (Datatypes.length (recorders w))
  /\ starting (fst started) = n
  /\ processing (fst started) = processing w
  /\ callbacks (fst started) = callbacks w
  /\ snd started = notify w [Handler (Controller.StateChange true false)] ++ [Returned true].
Proof.
  intros Hs. cbv zeta. cbn [step]. rewrite Hs. unfold startRecording_resume.
  assert (Halter : alter (fun r => mkRecorder Recording (r_onstop r) false false)
                     (Datatypes.length (recorders w))
                     (recorders w ++ [mkRecorder Inactive SessionHandler false false])
                   = recorders w ++ [mkRecorder Recording SessionHandler false false]).
  { rewrite <- (Nat.add_0_r (Datatypes.length (recorders w))) at 1.
    rewrite alter_app_r. reflexivity. }
  destruct vad; cbn; rewrite Halter; repeat split.
Qed.

(** X24. Two calls of [startRecording] that overlap are both let through:
    when the second call is made while the first still waits for the
    microphone, both pass the guard, both start a recorder and both return
    true, and the manager holds the second recorder only.  Whatever the
    owner and the platform do afterwards ([stopRecording],
    [cancelRecording], [cleanup], further sessions), the first recorder
    keeps recording and its tracks are never stopped. *)
Theorem overlapping_starts_strand_a_recorder
    (w : world) (mime1 mime2 : string) (vad1 vad2 : vad_failure) (t1 t2 : Z)
    (rest : list action) :
  in_phase Idle w ->
  let i := Datatypes.length (recorders w) in
  let both := run [StartRecording; StartRecording;
                   MicrophoneGranted mime1 vad1 StartsFine t1;
                   MicrophoneGranted mime2 vad2 StartsFine t2] w in
  snd both
  = [GetUserMedia; GetUserMedia]
    ++ (notify w [Handler (Controller.StateChange true false)] ++ [Returned true])
    ++ (notify w [Handler (Controller.StateChange true false)] ++ [Returned true])
  /\ mediaRecorder (fst both) = Some (S i)
  /\ recorders (fst both)
     = recorders w ++ [mkRecorder Recording SessionHandler false false;
                       mkRecorder Recording SessionHandler false false]
  /\ recorders (fst (run rest (fst both))) !! i
     = Some (mkRecorder Recording SessionHandler false false).
Proof.
  intros (Hf & Hs & Hproc & Hnone). cbv zeta.
  unfold flags in Hf. injection Hf as Hr Hp.
  pose proof (none_live_current w Hnone) as Hcur.
  set (i := Datatypes.length (recorders w)).
  set (w1 := set_starting w 2).
  assert (Hbegin : run [StartRecording; StartRecording] w
                   = (w1, [GetUserMedia; GetUserMedia])).
  { cbn [run step]. rewrite Hr, Hp, Hcur. cbn [orb].
    change (current_recording (set_starting w (S (starting w))))
      with (current_recording w).
    cbn [fields set_starting]. rewrite Hr, Hp, Hcur. cbn [orb].
    cbn [starting set_starting]. rewrite Hs. reflexivity. }
  destruct (granted_starts w1 1 mime1 vad1 t1 eq_refl)
    as (Hrec2 & Hm2 & Hs2 & Hp2 & Hcb2 & Hev2).
  set (w2 := fst (step (MicrophoneGranted mime1 vad1 StartsFine t1) w1)) in *.
  destruct (granted_starts w2 0 mime2 vad2 t2 Hs2)
    as (Hrec3 & Hm3 & Hs3 & Hp3 & Hcb3 & Hev3).
  set (w3 := fst (step (MicrophoneGranted mime2 vad2 StartsFine t2) w2)) in *.
  change [StartRecording; StartRecording;
          MicrophoneGranted mime1 vad1 StartsFine t1;
          MicrophoneGranted mime2 vad2 StartsFine t2]
    with ([StartRecording; StartRecording]
          ++ [MicrophoneGranted mime1 vad1 StartsFine t1]
          ++ [MicrophoneGranted mime2 vad2 StartsFine t2]).
  rewrite session_run_app, Hbegin. cbn [fst snd].
  rewrite session_run_app.
  assert (Hone : forall a w0, run [a] w0 = (fst (step a w0), snd (step a w0))).
  { intros a w0. cbn [run]. destruct (step a w0). cbn. now rewrite app_nil_r. }
  rewrite !Hone. cbn [fst snd]. fold w2. fold w3.
  change (recorders w1) with (recorders w) in Hrec2, Hm2. fold i in Hm2.
  assert (Hlen2 : Datatypes.length (recorders w2) = S i).
  { rewrite Hrec2, length_app. cbn. unfold i. lia. }
  rewrite Hlen2 in Hm3.
  assert (Hrecs : recorders w3
                  = recorders w ++ [mkRecorder Recording SessionHandler false false;
                                    mkRecorder Recording SessionHandler false false]).
  { rewrite Hrec3, Hrec2, <- app_assoc. reflexivity. }
  split.
  { rewrite Hev2, Hev3. unfold notify. rewrite Hcb2. reflexivity. }
  split; [exact Hm3|]. split; [exact Hrecs|].
  assert (Hstr : stranded i w3).
  { split; [|split].
    - rewrite Hrecs, lookup_app_r, Nat.sub_diag by (unfold i; lia). reflexivity.
    - exists (S i). split; [exact Hm3 | lia].
    - rewrite Hp3, Hp2. change (processing w1) with (processing w).
      rewrite Hproc. intros []. }
  apply (session_run_invariant (stranded i) (stranded_step i) rest w3 Hstr).
Qed.

End Phases.


Lemma orderly_sessions_follow_the_state_machine_witness :
  let acts := [StartRecording; MicrophoneGranted "audio/webm" VadStarts StartsFine 1000;
               Tick 1 1050; StartRecording; StopRecording; CancelRecording;
               DataAvailable 0 "chunk"; StopEvent 0 2000] in
  shown (snd (run (R := VAD.exact) acts mounted)) (false, false)
  = flags (fst (run (R := VAD.exact) acts mounted)).
Proof.
  intros acts.
  assert (Hord : orderly (R := VAD.exact) acts mounted = true) by (vm_compute; reflexivity).
  exact (proj2 (proj2 (proj2 (proj2 (proj2
           (orderly_sessions_follow_the_state_machine (R := VAD.exact) acts Hord)))))).
Defined.


Lemma overlapping_starts_strand_a_recorder_witness :
  recorders
    (fst (run (R := VAD.exact) [StopRecording; StopEvent 1 3000; Cleanup]
            (fst (run (R := VAD.exact)
                    [StartRecording; StartRecording;
                     MicrophoneGranted "audio/webm" VadStarts StartsFine 1000;
                     MicrophoneGranted "audio/webm" VadStarts StartsFine 1001]
                    mounted)))) !! 0%nat
  = Some (mkRecorder Recording SessionHandler false false).
Proof.
  exact (proj2 (proj2 (proj2
           (overlapping_starts_strand_a_recorder (R := VAD.exact) mounted
              "audio/webm" "audio/webm" VadStarts VadStarts 1000 1001
              [StopRecording; StopEvent 1 3000; Cleanup] mounted_idle)))).
Defined.

End Session.

(** ** The microphone a recording asks for *)

Module Microphone.

(** A [MediaDeviceInfo]. *)
Record device := mkDevice {
  kind : string;
  label : string;
  deviceId : string
}.

(** The argument of [getUserMedia]: [{ audio: { deviceId: { exact } } }] or
    [{ audio: true }]. *)
Inductive constraints :=
| Exact (id : string)
| Default.

(** The stored preferences, what [enumerateDevices()] resolves to or
    rejects with, and the imported [isBuiltInMicrophone]. *)
Record env := mkEnv {
  localStorage : storage;
  enumerateDevices : jsres (list device);
  isBuiltInMicrophone : string -> jsres bool
}.

(** [localStorage.getItem("preferBuiltInMic") !== "false"] *)
Definition preferBuiltIn (e : env) : bool :=
  negb (item_is (localStorage e) "preferBuiltInMic" "false").

Definition selectedDeviceId (e : env) : string :=
  JS.or_default (getItem (localStorage e) "selectedMicDeviceId") "".

(** [audioInputs.find((d) => isBuiltInMicrophone(d.label))] *)
Fixpoint find (e : env) (ds : list device) : jsres (option device) :=
  match ds with
  | [] => Ok None
  | d :: rest =>
      match isBuiltInMicrophone e (label d) with
      | Ok true => Ok (Some d)
      | Ok false => find e rest
      | Throw message => Throw message
      end
  end.

Definition audioInputs (ds : list device) : list device :=
  List.filter (fun d => String.eqb (kind d) "audioinput") ds.

(** The [try] block: the built-in microphone, if the devices can be listed
    and one of the audio inputs is built in. *)
Definition builtInMic (e : env) : option device :=
  match enumerateDevices e with
  | Ok devices =>
      match find e (audioInputs devices) with
      | Ok found => found
      | Throw _ => None
      end
  | Throw _ => None
  end.

(** [getAudioConstraints()] *)
Definition getAudioConstraints (e : env) : constraints :=
  match (if preferBuiltIn e then builtInMic e else None) with
  | Some d => Exact (deviceId d)
  | None =>
      if negb (preferBuiltIn e) && JS.truthy (selectedDeviceId e)
      then Exact (selectedDeviceId e)
      else Default
  end.

Lemma find_Some e ds d :
  find e ds = Ok (Some d) ->
  exists before after,
    ds = before ++ d :: after
    /\ isBuiltInMicrophone e (label d) = Ok true
    /\ Forall (fun x => isBuiltInMicrophone e (label x) = Ok false) before.
Proof.
  induction ds as [|x rest IH]; [discriminate|]. cbn.
  destruct (isBuiltInMicrophone e (label x)) as [[|]|] eqn:Hx; try discriminate.
  - intros [= <-]. exists [], rest. repeat split; [exact Hx | constructor].
  - intros Hfind. destruct (IH Hfind) as (before & after & -> & Hd & Hall).
    exists (x :: before), after. repeat split; [exact Hd | constructor; assumption].
Qed.

(** X25. [getAudioConstraints] asks for the stored selection only when
    [preferBuiltInMic] is stored as the string false and the selection is
    not empty, and then always; otherwise it asks for the first audio
    input whose label [isBuiltInMicrophone] accepts, and for the default
    device when there is none, when the devices cannot be listed or when
    the test throws, even if a device is selected.  A device of another
    kind is never asked for. *)
Theorem microphone_choice (e : env) :
  (item_is (localStorage e) "preferBuiltInMic" "false" = true ->
   getAudioConstraints e
   = if JS.truthy (selectedDeviceId e) then Exact (selectedDeviceId e) else Default)
  /\ (item_is (localStorage e) "preferBuiltInMic" "false" = false ->
      (getAudioConstraints e = Default
       /\ (forall devices, enumerateDevices e = Ok devices ->
             find e (audioInputs devices) = Ok None
             \/ exists message, find e (audioInputs devices) = Throw message))
      \/ exists devices d before after,
           enumerateDevices e = Ok devices
           /\ getAudioConstraints e = Exact (deviceId d)
           /\ audioInputs devices = before ++ d :: after
           /\ kind d = "audioinput"
           /\ isBuiltInMicrophone e (label d) = Ok true
           /\ Forall (fun x => isBuiltInMicrophone e (label x) = Ok false) before).
Proof.
  unfold getAudioConstraints, preferBuiltIn. split; intros Hpref; rewrite Hpref; cbn [negb andb].
  - reflexivity.
  - unfold builtInMic. destruct (enumerateDevices e) as [devices | message] eqn:Hdev.
    + destruct (find e (audioInputs devices)) as [[d|] | message] eqn:Hfind.
      * right. destruct (find_Some e _ d Hfind) as (before & after & Heq & Hd & Hall).
        exists devices, d, before, after. repeat split; try assumption.
        assert (Hin : In d (audioInputs devices)) by (rewrite Heq; apply in_elt).
        apply List.filter_In in Hin as [_ Hk]. now apply String.eqb_eq.
      * left. split; [reflexivity|]. intros ds [= <-]. left. exact Hfind.
      * left. split; [reflexivity|]. intros ds [= <-]. right. eauto.
    + left. split; [reflexivity|]. intros ds [=].
Qed.

(** A built-in loudspeaker, an external microphone, the built-in one. *)
Definition laptop : list device :=
  [mkDevice "audiooutput" "MacBook Pro Speakers (Built-in)" "out";
   mkDevice "audioinput" "USB Microphone" "usb";
   mkDevice "audioinput" "MacBook Pro Microphone (Built-in)" "mic"].

Definition env_selected : env :=
  mkEnv (list_to_map [("preferBuiltInMic", "false"); ("selectedMicDeviceId", "usb")])
        (Ok laptop)
        (fun l => Ok (JS.includes "Built-in" l)).

Lemma microphone_choice_witness : getAudioConstraints env_selected = Exact "usb".
Proof.
  apply (proj1 (microphone_choice env_selected)). vm_compute. reflexivity.
Defined.

Example built_in_is_preferred :
  getAudioConstraints
    (mkEnv (list_to_map [("selectedMicDeviceId", "usb")]) (Ok laptop)
           (fun l => Ok (JS.includes "Built-in" l)))
  = Exact "mic"
  /\ getAudioConstraints
       (mkEnv (list_to_map [("selectedMicDeviceId", "usb")]) (Throw "NotAllowedError")
              (fun l => Ok (JS.includes "Built-in" l)))
     = Default.
Proof. split; vm_compute; reflexivity. Qed.

End Microphone.

(** ** The cloud request *)

From Stdlib Require DecimalString.

Module Cloud.
Import Pipeline.

Local Open Scope js_scope.

(** A [Blob], as far as the request looks at it. *)
Record blob := mkBlob {
  size : Z;
  type : string
}.

(** The [fetch] call: the URL, the Authorization header if there is one,
    and the fields of the form. *)
Record request := mkRequest {
  url : string;
  authorization : option string;
  file : blob;
  fileName : string;
  model : string;
  language : option string;
  prompt : option string;
  stream : bool
}.

(** The [Response]: [text] is what [response.text()] resolves to, [body]
    the chunks a reader of [response.body] delivers, if there is a body. *)
Record response := mkResponse {
  ok : bool;
  status : Z;
  contentType : option string;
  text : jsres string;
  body : option (list string)
}.

(** What depends on the JavaScript engine: the messages of the errors it
    raises, and whether a number, given by its JSON text, is zero. *)
Record engine := mkEngine {
  syntax_error : string -> string;     (* [JSON.parse] on a text *)
  type_error : JSON.value -> string;   (* [result.text] or [result.text.trim()] *)
  number_truthy : string -> bool
}.

(** The world around one request.  [world] is the pipeline's world when
    [processTranscription] runs, [world_at_return] when the source of the
    result is decided.  [optimizeAudio] rejects only when its executor
    throws; [key_settles_first] tells, for a run in which [getAPIKey] and
    [optimizeAudio] both reject, whether the rejection of [getAPIKey] is the
    first to settle. *)
Record env := mkEnv {
  world : Pipeline.env;
  world_at_return : Pipeline.env;
  getCustomTranscriptionKey : option (jsres (option string));
  getGroqKey : option (jsres (option string));
  getOpenAIKey : jsres (option string);
  imports : Endpoint.imports;
  optimizeAudio : blob -> jsres blob;
  key_settles_first : bool;            (* of two rejections in [Promise.all] *)
  dictionaryPrompt : option string;    (* [getCustomDictionaryPrompt()] *)
  fetch : request -> jsres response;
  js : engine
}.

(** The fields of the manager the request reads and writes. *)
Record manager := mkManager {
  keys : ApiKey.cache;
  endpoints : Endpoint.cache;
  pipeline : Pipeline.manager
}.

Inductive event :=
| KeyStore (e : ApiKey.event)
| OptimizeAudio (audio : blob)
| Fetch (r : request)
| Dispatcher (e : Pipeline.event).

Abbreviation task := (M manager event).

Definition storage_of (e : env) : storage := Pipeline.localStorage (world e).

Definition key_env (e : env) : ApiKey.env :=
  ApiKey.mkEnv (storage_of e) (getCustomTranscriptionKey e) (getGroqKey e)
               (getOpenAIKey e).

(** A method that works on one part of the manager. *)
Definition on_keys {A} (c : M ApiKey.cache ApiKey.event A) : task A :=
  fun m =>
    let '(r, k, ev) := c (keys m) in
    (r, mkManager k (endpoints m) (pipeline m), map KeyStore ev).

Definition on_pipeline {A} (c : M Pipeline.manager Pipeline.event A) : task A :=
  fun m =>
    let '(r, p, ev) := c (pipeline m) in
    (r, mkManager (keys m) (endpoints m) p, map Dispatcher ev).

Definition getTranscriptionEndpoint (e : env) : task string :=
  fun m =>
    let '(endpoint, c) :=
      Endpoint.getTranscriptionEndpoint (imports e) (storage_of e) (endpoints m) in
    (Ok endpoint, mkManager (keys m) c (pipeline m), []).

(** [await Promise.all([a, b])]: both are started, [a] first, and the
    events of the two are listed one after the other.  It rejects as soon as
    one of the two does, with that error: when both reject, with the error
    of the one that settles first, which [a_first] tells. *)
Definition promise_all {A B} (a_first : bool) (a : task A) (b : task B) : task (A * B) :=
  fun m =>
    let '(ra, m1, ev1) := a m in
    let '(rb, m2, ev2) := b m1 in
    (match ra, rb with
     | Ok x, Ok y => Ok (x, y)
     | Throw x, Throw y => Throw (if a_first then x else y)
     | Throw x, Ok _ => Throw x
     | Ok _, Throw y => Throw y
     end, m2, ev1 ++ ev2).

(** The number in a template string. *)
Definition decimal (n : Z) : string := DecimalString.NilZero.string_of_int (Z.to_int n).

(** What [result.text && result.text.trim().length > 0] finds. *)
Inductive text_field :=
| NoText
| Text (s : string)
| Faulty (message : string).

Definition text_of_string (s : string) : text_field :=
  if JS.truthy s && JS.truthy (JS.trim s) then Text s else NoText.

Definition text_of (g : engine) (result : JSON.value) : text_field :=
  match result with
  | JSON.Null => Faulty (type_error g result)
  | JSON.Object _ =>
      match JSON.get "text" result with
      | None | Some JSON.Null | Some (JSON.Bool false) => NoText
      | Some (JSON.Str s) => text_of_string s
      | Some (JSON.Number n) =>
          if number_truthy g n then Faulty (type_error g result) else NoText
      | Some _ => Faulty (type_error g result)
      end
  | _ => NoText
  end.

(** The end of the [try] block: the reasoning pass and the result. *)
Definition finish (e : env) (raw : string) : task transcription :=
  text <- on_pipeline (processTranscription (world e) raw "openai") ;;
  useReasoning <- on_pipeline (isReasoningAvailable (world_at_return e)) ;;
  ret (mkTranscription true text (if useReasoning then "openai-reasoned" else "openai")).

(** What the response holds: the outcome of the test on [result.text], or
    what reading the response throws. *)
Definition read_response (e : env) (shouldStream : bool) (r : response)
  : jsres text_field :=
  if negb (ok r) then
    match text r with
    | Ok errorText => Throw ("API Error: " +:+ decimal (status r) +:+ " " +:+ errorText)
    | Throw message => Throw message
    end
  else if shouldStream
          && JS.includes "text/event-stream" (JS.or_default (contentType r) "") then
    match Stream.readTranscriptionStream (body r) with
    | Ok streamedText => Ok (text_of_string streamedText)
    | Throw message => Throw message
    end
  else
    match text r with
    | Ok rawText =>
        match JSON.parse rawText with
        | Some result => Ok (text_of (js e) result)
        | None => Throw ("Failed to parse API response: " +:+ syntax_error (js e) rawText)
        end
    | Throw message => Throw message
    end.

(** [Promise.all([this.getAPIKey(), shouldOptimize ? this.optimizeAudio(audioBlob)
    : Promise.resolve(audioBlob)])] *)
Definition prepare (e : env) (audioBlob : blob) (durationSeconds : option Q)
  : task (option string * blob) :=
  let model := Model.getTranscriptionModel (storage_of e) in
  promise_all (key_settles_first e)
    (on_keys (ApiKey.getAPIKey (key_env e)))
    (if Model.shouldOptimize model durationSeconds (size audioBlob)
     then emit (OptimizeAudio audioBlob) ;;; lift (optimizeAudio e audioBlob)
     else ret audioBlob).

(** The headers and the form. *)
Definition request_of (e : env) (apiKey : option string) (optimizedAudio : blob)
    (endpoint : string) : request :=
  let ls := storage_of e in
  let model := Model.getTranscriptionModel ls in
  let key := JS.or_default apiKey "" in
  mkRequest endpoint
            (if JS.truthy key then Some ("Bearer " +:+ key) else None)
            optimizedAudio
            ("audio." +:+ Model.extension (type optimizedAudio))
            model
            (engine_language (world e))
            (match dictionaryPrompt e with
             | Some p => if JS.truthy p then Some p else None
             | None => None
             end)
            (Model.shouldStreamTranscription model (Model.provider_of ls)).

(** What follows the test on [result.text]. *)
Definition conclude (e : env) (found : text_field) : task transcription :=
  match found with
  | Text raw => finish e raw
  | NoText =>
      throw "No text transcribed - audio may be too short, silent, or in an unsupported format"
  | Faulty message => throw message
  end.

(** The [try] block of [processWithOpenAIAPI(audioBlob, metadata)]. *)
Definition cloud_request (e : env) (audioBlob : blob) (durationSeconds : option Q)
  : task transcription :=
  got <- prepare e audioBlob durationSeconds ;;
  endpoint <- getTranscriptionEndpoint e ;;
  let r := request_of e (fst got) (snd got) endpoint in
  emit (Fetch r) ;;;
  answer <- lift (fetch e r) ;;
  found <- lift (read_response e (stream r) answer) ;;
  conclude e found.

(** *** The label of a result *)

Lemma processTranscription_run w raw source p :
  processTranscription w raw source p
  = if negb (JS.truthy (reasoningModel w)) then (Ok (JS.trim raw), p, [])
    else
      match isReasoningAvailable w p with
      | (Ok true, p1, ev1) =>
          (Ok (match reasoning_processText w (JS.trim raw) (reasoningModel w) (agentName w)
               with
               | Ok s => s
               | Throw _ => JS.trim raw
               end),
           p1,
           ev1 ++ [ReasoningProcessText (JS.trim raw) (reasoningModel w) (agentName w)])
      | (Ok false, p1, ev1) => (Ok (JS.trim raw), p1, ev1)
      | (Throw x, p1, ev1) => (Throw x, p1, ev1)
      end.
Proof.
  unfold processTranscription. fold (reasoningModel w). fold (agentName w).
  destruct (negb (JS.truthy (reasoningModel w))); [reflexivity|].
  unfold bind at 1. destruct (isReasoningAvailable w p) as [[[[|] | x] p1] ev1].
  - unfold processWithReasoningModel. unfold_task.
    destruct (reasoning_processText w _ _ _); cbn; rewrite ?app_nil_r; reflexivity.
  - unfold ret. now rewrite app_nil_r.
  - reflexivity.
Qed.

Lemma finish_run e raw m :
  finish e raw m
  = match processTranscription (world e) raw "openai" (pipeline m) with
    | (Ok text, p1, ev1) =>
        match isReasoningAvailable (world_at_return e) p1 with
        | (Ok useReasoning, p2, ev2) =>
            (Ok (mkTranscription true text
                   (if useReasoning then "openai-reasoned" else "openai")),
             mkManager (keys m) (endpoints m) p2,
             map Dispatcher ev1 ++ map Dispatcher ev2)
        | (Throw x, p2, ev2) =>
            (Throw x, mkManager (keys m) (endpoints m) p2,
             map Dispatcher ev1 ++ map Dispatcher ev2)
        end
    | (Throw x, p1, ev1) =>
        (Throw x, mkManager (keys m) (endpoints m) p1, map Dispatcher ev1)
    end.
Proof.
  unfold finish, on_pipeline, bind, ret.
  destruct (processTranscription (world e) raw "openai" (pipeline m))
    as [[[text | x] p1] ev1]; cbn [pipeline keys endpoints]; [|reflexivity].
  destruct (isReasoningAvailable (world_at_return e) p1) as [[[b | x] p2] ev2];
    cbn; rewrite ?app_nil_r; reflexivity.
Qed.


(** *** What is sent *)

(** The requests among the events. *)
Definition requests (evs : list event) : list request :=
  flat_map (fun ev => match ev with Fetch r => [r] | _ => [] end) evs.

Lemma requests_app a b : requests (a ++ b) = requests a ++ requests b.
Proof. apply flat_map_app. Qed.

Lemma requests_keys evs : requests (map KeyStore evs) = [].
Proof. induction evs as [|x rest IH]; [reflexivity | exact IH]. Qed.

Lemma requests_dispatcher evs : requests (map Dispatcher evs) = [].
Proof. induction evs as [|x rest IH]; [reflexivity | exact IH]. Qed.

Lemma requests_In r evs : In (Fetch r) evs <-> In r (requests evs).
Proof.
  unfold requests. rewrite in_flat_map. split.
  - intros H. exists (Fetch r). split; [exact H | left; reflexivity].
  - intros (ev & Hin & Hr). destruct ev; try destruct Hr as [-> | []]; try destruct Hr.
    exact Hin.
Qed.

Lemma lookup_none e provider :
  ApiKeyFacts.returns (ApiKey.lookup e provider)
                      (fun r => r = None -> provider = "custom").
Proof.
  unfold ApiKey.lookup.
  destruct (String.eqb provider "custom") eqn:Hc.
  { intros m r m' ev _ _. now apply String.eqb_eq. }
  destruct (String.eqb provider "groq").
  - eapply ApiKeyFacts.returns_bind; [apply ApiKeyFacts.returns_true|]. intros k _.
    eapply ApiKeyFacts.returns_bind; [apply ApiKeyFacts.returns_true|]. intros k' _.
    destruct (ApiKey.isValidApiKey k' "groq") eqn:Hv; cbn [negb];
      [|apply ApiKeyFacts.returns_throw].
    apply ApiKeyFacts.returns_ret. intros ->. discriminate.
  - eapply ApiKeyFacts.returns_bind; [apply ApiKeyFacts.returns_true|]. intros k _.
    eapply ApiKeyFacts.returns_bind; [apply ApiKeyFacts.returns_true|]. intros k' _.
    destruct (ApiKey.isValidApiKey k' "openai") eqn:Hv; cbn [negb];
      [|apply ApiKeyFacts.returns_throw].
    apply ApiKeyFacts.returns_ret. intros ->. discriminate.
Qed.

Lemma getAPIKey_none e m :
  fst (fst (ApiKey.getAPIKey e m)) = Ok None -> ApiKey.provider_of e = "custom".
Proof.
  destruct (ApiKeyFacts.getAPIKey_cases e m) as [(key & _ & _ & ->) | (_ & ->)];
    [discriminate|].
  unfold ApiKeyFacts.missed. pose proof (lookup_none e (ApiKey.provider_of e) m) as Hl.
  destruct (ApiKey.lookup e (ApiKey.provider_of e) m) as [[[k | msg] m'] ev];
    cbn [fst]; [|discriminate].
  intros [= ->]. eapply Hl; reflexivity.
Qed.

Lemma acceptable_truthy provider key :
  ApiKeyFacts.acceptable provider key = true -> JS.truthy key = true.
Proof.
  unfold ApiKeyFacts.acceptable.
  destruct (String.eqb provider "custom"); [auto|].
  destruct (String.eqb provider "groq"); intros H;
    apply ApiKeyFacts.valid_key_facts in H as (Hne & _);
    destruct key; [contradiction | reflexivity | contradiction | reflexivity].
Qed.

Lemma conclude_requests e found m : requests (snd (conclude e found m)) = [].
Proof.
  destruct found as [|raw|message]; [reflexivity| |reflexivity].
  cbn [conclude]. rewrite finish_run.
  destruct (processTranscription (world e) raw "openai" (pipeline m))
    as [[[text | x] p1] ev1]; cbn [snd]; [|apply requests_dispatcher].
  destruct (isReasoningAvailable (world_at_return e) p1) as [[[b | x] p2] ev2];
    cbn [snd]; now rewrite requests_app, !requests_dispatcher.
Qed.

(** What the second promise of [Promise.all] settles to. *)
Definition converted (e : env) (audio : blob) (d : option Q) : jsres blob :=
  if Model.shouldOptimize (Model.getTranscriptionModel (storage_of e)) d (size audio)
  then optimizeAudio e audio
  else Ok audio.

(** What [Promise.all] settles to, from what its two promises do. *)
Definition prepared (e : env) (audio : blob) (d : option Q) (key : jsres (option string))
  : jsres (option string * blob) :=
  match key, converted e audio d with
  | Ok k, Ok optimized => Ok (k, optimized)
  | Throw x, Throw y => Throw (if key_settles_first e then x else y)
  | Throw x, Ok _ => Throw x
  | Ok _, Throw y => Throw y
  end.

(** The requests of a run, from the outcome of the key lookup and of the
    conversion. *)
Lemma cloud_request_requests e audio d m :
  requests (snd (cloud_request e audio d m))
  = match fst (fst (prepare e audio d m)) with
    | Ok got =>
        [request_of e (fst got) (snd got)
           (fst (Endpoint.getTranscriptionEndpoint (imports e) (storage_of e)
                   (endpoints m)))]
    | Throw _ => []
    end
  /\ (forall message, fst (fst (prepare e audio d m)) = Throw message ->
        fst (fst (cloud_request e audio d m)) = Throw message)
  /\ fst (fst (prepare e audio d m))
     = prepared e audio d (fst (fst (ApiKey.getAPIKey (key_env e) (keys m)))).
Proof.
  assert (Hprep : exists evo,
            requests evo = []
            /\ endpoints (snd (fst (prepare e audio d m))) = endpoints m
            /\ snd (prepare e audio d m)
               = map KeyStore (snd (ApiKey.getAPIKey (key_env e) (keys m))) ++ evo
            /\ fst (fst (prepare e audio d m))
               = prepared e audio d (fst (fst (ApiKey.getAPIKey (key_env e) (keys m))))).
  { unfold prepare, prepared, converted, promise_all, on_keys.
    destruct (ApiKey.getAPIKey (key_env e) (keys m)) as [[rk k1] evk]. cbn [fst snd].
    destruct (Model.shouldOptimize _ d (size audio)).
    - unfold bind, emit, lift. destruct (optimizeAudio e audio) as [optimized | x];
        cbn; exists [OptimizeAudio audio]; destruct rk; repeat split.
    - unfold ret. cbn. exists []. destruct rk; repeat split. }
  destruct Hprep as (evo & Hevo & Hend & Hev & Hres).
  split; [|split; [|exact Hres]].
  - unfold cloud_request. unfold bind at 1.
    destruct (prepare e audio d m) as [[[got | x] m1] ev1]; cbn [fst snd] in *.
    + unfold bind at 1. unfold getTranscriptionEndpoint at 1. rewrite Hend.
      destruct (Endpoint.getTranscriptionEndpoint (imports e) (storage_of e) (endpoints m))
        as [endpoint c]. cbn [fst].
      set (r := request_of e (fst got) (snd got) endpoint).
      set (m2 := mkManager (keys m1) c (pipeline m1)).
      unfold bind, emit, lift.
      destruct (fetch e r) as [answer | x].
      * destruct (read_response e (stream r) answer) as [found | x].
        -- pose proof (conclude_requests e found m2) as Hc.
           destruct (conclude e found m2) as [[res m3] ev3]. cbn [snd] in *.
           rewrite Hev. rewrite !requests_app, requests_keys, Hevo. cbn. now rewrite Hc.
        -- cbn. rewrite Hev. rewrite !requests_app, requests_keys, Hevo. reflexivity.
      * cbn. rewrite Hev. rewrite !requests_app, requests_keys, Hevo. reflexivity.
    + rewrite Hev, requests_app, requests_keys, Hevo. reflexivity.
  - intros message Hthrow. unfold cloud_request. unfold bind at 1.
    destruct (prepare e audio d m) as [[[got | x] m1] ev1]; cbn [fst] in *;
      [discriminate | now injection Hthrow as ->].
Qed.

(** X27. One run sends at most one request.  Under a provider other than
    custom the request always carries an Authorization header; under every
    provider a header that is sent is "Bearer " and the key [getAPIKey]
    returned, a key that is acceptable under that provider (not empty; for
    openai and groq not blank and not the placeholder).  When [getAPIKey]
    throws, nothing is sent and the run fails: with the message of
    [getAPIKey], unless [optimizeAudio] rejects as well and is the first to
    do so, and then with the message of [optimizeAudio]. *)
Theorem uploads_are_authorised (e : env) (audio : blob) (d : option Q) (m : manager) :
  ApiKeyFacts.cache_fit (keys m) ->
  let run := cloud_request e audio d m in
  let provider := Model.provider_of (storage_of e) in
  (Datatypes.length (requests (snd run)) <= 1)%nat
  /\ (forall r, In (Fetch r) (snd run) ->
        (authorization r = None -> provider = "custom")
        /\ (forall a, authorization r = Some a ->
              exists key,
                a = "Bearer " +:+ key
                /\ fst (fst (ApiKey.getAPIKey (key_env e) (keys m))) = Ok (Some key)
                /\ ApiKeyFacts.acceptable provider key = true))
  /\ (forall message,
        fst (fst (ApiKey.getAPIKey (key_env e) (keys m))) = Throw message ->
        requests (snd run) = []
        /\ fst (fst run)
           = Throw (match converted e audio d with
                    | Ok _ => message
                    | Throw other => if key_settles_first e then message else other
                    end)).
Proof.
  intros Hfit. cbv zeta.
  destruct (cloud_request_requests e audio d m) as (Hreq & Hthrow & Hprep).
  destruct (ApiKeyFacts.getAPIKey_fit (key_env e) (keys m) Hfit) as [_ Hacc].
  pose proof (getAPIKey_none (key_env e) (keys m)) as Hnone.
  change (ApiKey.provider_of (key_env e)) with (Model.provider_of (storage_of e))
    in Hacc, Hnone.
  split; [|split].
  - rewrite Hreq. destruct (fst (fst (prepare e audio d m))); cbn; lia.
  - intros r Hin. apply requests_In in Hin. rewrite Hreq in Hin.
    destruct (fst (fst (prepare e audio d m))) as [got | x]; [|destruct Hin].
    destruct Hin as [<- | []].
    assert (Hkey : fst (fst (ApiKey.getAPIKey (key_env e) (keys m))) = Ok (fst got)).
    { unfold prepared in Hprep.
      destruct (fst (fst (ApiKey.getAPIKey (key_env e) (keys m)))) as [key | x];
        destruct (converted e audio d); try discriminate.
      now injection Hprep as ->. }
    unfold request_of. cbn [authorization].
    destruct (fst got) as [key|] eqn:Hk.
    + specialize (Hacc key Hkey). pose proof (acceptable_truthy _ _ Hacc) as Ht.
      assert (Hor : JS.or_default (Some key) "" = key)
        by (unfold JS.or_default; now rewrite Ht).
      rewrite Hor, Ht. split; [discriminate|].
      intros a Ha. injection Ha as <-. exists key. repeat split; assumption.
    + cbn. split; [intros _; apply Hnone, Hkey | discriminate].
  - intros message Hk. rewrite Hk in Hprep. unfold prepared in Hprep.
    assert (Hfail : fst (fst (prepare e audio d m))
                    = Throw (match converted e audio d with
                             | Ok _ => message
                             | Throw other => if key_settles_first e then message else other
                             end))
      by (rewrite Hprep; destruct (converted e audio d); reflexivity).
    split; [|apply Hthrow, Hfail]. rewrite Hreq, Hfail. reflexivity.
Qed.

(** *** What is made of the response *)

Lemma prepare_manager e audio d m :
  endpoints (snd (fst (prepare e audio d m))) = endpoints m
  /\ pipeline (snd (fst (prepare e audio d m))) = pipeline m.
Proof.
  unfold prepare, promise_all, on_keys.
  destruct (ApiKey.getAPIKey (key_env e) (keys m)) as [[rk k1] evk].
  destruct (Model.shouldOptimize _ d (size audio)).
  - unfold bind, emit, lift. destruct (optimizeAudio e audio); split; reflexivity.
  - split; reflexivity.
Qed.

(** A run that gets as far as the request. *)
Lemma cloud_request_sent e audio d m got :
  fst (fst (prepare e audio d m)) = Ok got ->
  let resolved :=
    Endpoint.getTranscriptionEndpoint (imports e) (storage_of e) (endpoints m) in
  let r := request_of e (fst got) (snd got) (fst resolved) in
  let m2 := mkManager (keys (snd (fst (prepare e audio d m)))) (snd resolved) (pipeline m) in
  let sent := snd (prepare e audio d m) ++ [Fetch r] in
  cloud_request e audio d m
  = match fetch e r with
    | Ok answer =>
        match read_response e (stream r) answer with
        | Ok found =>
            (fst (fst (conclude e found m2)), snd (fst (conclude e found m2)),
             sent ++ snd (conclude e found m2))
        | Throw message => (Throw message, m2, sent)
        end
    | Throw message => (Throw message, m2, sent)
    end.
Proof.
  intros Hp. cbv zeta. destruct (prepare_manager e audio d m) as [Hend Hpipe].
  unfold cloud_request. unfold bind at 1.
  destruct (prepare e audio d m) as [[[got' | x] m1] ev1]; cbn [fst snd] in *;
    [|discriminate].
  injection Hp as ->.
  unfold bind at 1. unfold getTranscriptionEndpoint at 1. rewrite Hend, Hpipe.
  destruct (Endpoint.getTranscriptionEndpoint (imports e) (storage_of e) (endpoints m))
    as [endpoint c]. cbn [fst snd].
  unfold bind, emit, lift.
  destruct (fetch e (request_of e (fst got) (snd got) endpoint)) as [answer | x].
  - destruct (read_response e _ answer) as [found | x].
    + destruct (conclude e found (mkManager (keys m1) c (pipeline m))) as [[res m3] ev3].
      cbn [fst snd app]. now rewrite <- app_assoc.
    + cbn [fst snd app throw]. rewrite ?app_nil_r. reflexivity.
  - cbn [fst snd app throw]. rewrite ?app_nil_r. reflexivity.
Qed.

Definition calls_dispatcher (ev : event) : bool :=
  match ev with Dispatcher _ => true | _ => false end.

Lemma prepare_events e audio d m :
  List.filter calls_dispatcher (snd (prepare e audio d m)) = [].
Proof.
  unfold prepare, promise_all, on_keys.
  destruct (ApiKey.getAPIKey (key_env e) (keys m)) as [[rk k1] evk].
  assert (Hk : List.filter calls_dispatcher (map KeyStore evk) = [])
    by (induction evk as [|x rest IH]; [reflexivity | exact IH]).
  destruct (Model.shouldOptimize _ d (size audio)).
  - unfold bind, emit, lift. destruct (optimizeAudio e audio); cbn [snd];
      rewrite List.filter_app, Hk; reflexivity.
  - cbn [snd ret]. rewrite List.filter_app, Hk. reflexivity.
Qed.

(** X28. The cloud request succeeds only on a text: when it returns a
    result, exactly one request was sent, the response was ok, and what it
    carried (the streamed text when a stream was asked for and the response
    is an event stream, the [text] member of its JSON body otherwise) is a
    string that is not blank; without a stored reasoning model the result's
    text is that string, trimmed, and not empty.  A response that is not ok
    is never read as a transcription: the run fails with "API Error: ",
    the status and the body's text, and the reasoning service is not
    called. *)
Theorem cloud_success_needs_a_text (e : env) (audio : blob) (d : option Q) (m : manager) :
  let run := cloud_request e audio d m in
  (forall t, fst (fst run) = Ok t ->
     exists r answer raw,
       requests (snd run) = [r]
       /\ fetch e r = Ok answer
       /\ ok answer = true
       /\ read_response e (stream r) answer = Ok (Text raw)
       /\ JS.truthy (JS.trim raw) = true
       /\ t_success t = true
       /\ (JS.truthy (reasoningModel (world e)) = false ->
           t_text t = JS.trim raw /\ t_text t <> ""))
  /\ (forall r answer,
        requests (snd run) = [r] -> fetch e r = Ok answer -> ok answer = false ->
        List.filter calls_dispatcher (snd run) = []
        /\ fst (fst run)
           = match text answer with
             | Ok errorText =>
                 Throw ("API Error: " +:+ decimal (status answer) +:+ " " +:+ errorText)
             | Throw message => Throw message
             end).
Proof.
  cbv zeta. destruct (cloud_request_requests e audio d m) as (Hreq & Hthrow & _).
  destruct (fst (fst (prepare e audio d m))) as [got | x] eqn:Hp.
  2:{ split.
      - intros t Ht. rewrite (Hthrow x eq_refl) in Ht. discriminate.
      - intros r answer Hr. rewrite Hreq in Hr. discriminate. }
  pose proof (cloud_request_sent e audio d m got Hp) as Hrun. cbv zeta in Hrun.
  set (r0 := request_of e (fst got) (snd got)
               (fst (Endpoint.getTranscriptionEndpoint (imports e) (storage_of e)
                       (endpoints m)))) in *.
  set (m2 := mkManager _ _ _) in Hrun.
  split.
  - intros t Ht. exists r0.
    destruct (fetch e r0) as [answer | x] eqn:Hfetch;
      [|rewrite Hrun in Ht; discriminate].
    destruct (read_response e (stream r0) answer) as [found | x] eqn:Hread;
      [|rewrite Hrun in Ht; discriminate].
    rewrite Hrun in Ht. cbn [fst] in Ht.
    destruct found as [|raw|message]; try discriminate.
    exists answer, raw. split; [exact Hreq|]. split; [reflexivity|].
    assert (Hok : ok answer = true).
    { unfold read_response in Hread. destruct (ok answer); [reflexivity|].
      cbn in Hread. destruct (text answer); discriminate. }
    assert (Hraw : JS.truthy (JS.trim raw) = true).
    { assert (Hs : forall s, text_of_string s = Text raw -> JS.truthy (JS.trim raw) = true).
      { intros s. unfold text_of_string.
        destruct (JS.truthy s); cbn [andb]; [|discriminate].
        destruct (JS.truthy (JS.trim s)) eqn:Hs; [|discriminate]. now intros [= <-]. }
      unfold read_response in Hread. rewrite Hok in Hread. cbn [negb] in Hread.
      destruct (stream r0 && _).
      - destruct (Stream.readTranscriptionStream (body answer)) as [streamed | y];
          [|discriminate].
        injection Hread as Hread. eapply Hs, Hread.
      - destruct (text answer) as [rawText | y]; [|discriminate].
        destruct (JSON.parse rawText) as [result|]; [|discriminate].
        injection Hread as Hread. unfold text_of in Hread.
        destruct result; try discriminate.
        destruct (JSON.get "text" _) as [[ | [|] | n | s | | ]|]; try discriminate.
        + destruct (number_truthy (js e) n); discriminate.
        + eapply Hs, Hread. }
    split; [exact Hok|]. split; [exact Hread|]. split; [exact Hraw|].
    cbn [conclude] in Ht. rewrite finish_run, processTranscription_run in Ht.
    split.
    + destruct (negb (JS.truthy (reasoningModel (world e)))).
      * destruct (isReasoningAvailable (world_at_return e) (pipeline m2))
          as [[[b | y] p2] ev2]; cbn in Ht; [|discriminate]. now injection Ht as <-.
      * destruct (isReasoningAvailable (world e) (pipeline m2)) as [[[[|] | y] p1] ev1];
          try discriminate;
          destruct (isReasoningAvailable (world_at_return e) p1) as [[[b | y] p2] ev2];
          cbn in Ht; try discriminate; now injection Ht as <-.
    + intros Hmodel. rewrite Hmodel in Ht. cbn [negb] in Ht.
      destruct (isReasoningAvailable (world_at_return e) (pipeline m2))
        as [[[b | y] p2] ev2]; cbn in Ht; [|discriminate].
      injection Ht as <-. cbn. split; [reflexivity|].
      intros Heq. rewrite Heq in Hraw. discriminate.
  - intros r answer Hr Hfetch Hok. rewrite Hreq in Hr. injection Hr as <-.
    rewrite Hrun, Hfetch. unfold read_response. rewrite Hok. cbn [negb].
    destruct (text answer); cbn [fst snd]; (split; [|reflexivity]);
      rewrite List.filter_app, prepare_events; reflexivity.
Qed.

(** Provider groq, no key anywhere; the service is not reachable. *)
Definition world_groq : Pipeline.env :=
  Pipeline.mkEnv (list_to_map [("cloudTranscriptionProvider", "groq")]) 1000
                 (fun _ _ => Throw "not called") (fun _ _ => Throw "not called")
                 (throw "not called") (Ok false) (fun text _ _ => Ok text).

(** A number of a JSON text, read digit by digit: the digits of its
    mantissa as an integer, how many of them follow the point, and its
    exponent. *)
Inductive number_part := IntegerPart | FractionPart | ExponentPart.

Record number_scan := mkScan {
  sc_part : number_part;
  sc_mantissa : Z;
  sc_fraction_digits : Z;
  sc_exponent : Z;
  sc_exponent_negative : bool
}.

Definition scan_step (st : number_scan) (c : ascii) : number_scan :=
  let digit := Z.of_N (N_of_ascii c - 48) in
  let '(mkScan part mantissa fraction exponent negative) := st in
  if JSON.is_digit c then
    match part with
    | IntegerPart => mkScan part (10 * mantissa + digit) fraction exponent negative
    | FractionPart => mkScan part (10 * mantissa + digit) (fraction + 1) exponent negative
    | ExponentPart => mkScan part mantissa fraction (10 * exponent + digit) negative
    end
  else if Ascii.eqb c "." then mkScan FractionPart mantissa fraction exponent negative
  else if Ascii.eqb c "e" || Ascii.eqb c "E" then
    mkScan ExponentPart mantissa fraction exponent negative
  else if Ascii.eqb c "-" then
    match part with
    | ExponentPart => mkScan part mantissa fraction exponent true
    | _ => st
    end
  else st.

(** Whether the Number of a JSON number is not zero: its mantissa is not
    zero, and its value, the mantissa times a power of ten, is above
    2^-1075, half the least positive Number, below which a value rounds to
    zero. *)
Definition number_is_truthy (lexeme : string) : bool :=
  let st := fold_left scan_step (list_ascii_of_string lexeme)
                      (mkScan IntegerPart 0 0 0 false) in
  let k := ((if sc_exponent_negative st then - sc_exponent st else sc_exponent st)
            - sc_fraction_digits st)%Z in
  (negb (sc_mantissa st =? 0)
   && ((0 <=? k) || (10 ^ (- k) <? sc_mantissa st * 2 ^ 1075)))%Z.

Example numbers_that_are_zero :
  map number_is_truthy ["0"; "-0"; "0.0"; "-0.0"; "0e5"; "0.00E-3"; "1e-400"; "2e-324";
                        "3e-324"; "5e-324"; "0.001"; "-12"; "1E400"; "10"]
  = [false; false; false; false; false; false; false; false;
     true; true; true; true; true; true].
Proof. vm_compute. reflexivity. Qed.

(** The engine of the examples.  Its errors have the messages of V8: for
    [result.text] when [result] is [null], for [result.text.trim()] when the
    text is no string, and for [JSON.parse] on a text that ends too early. *)
Definition v8 : engine :=
  mkEngine (fun _ => "Unexpected end of JSON input")
           (fun result =>
              match result with
              | JSON.Null => "Cannot read properties of null (reading 'text')"
              | _ => "result.text.trim is not a function"
              end)
           number_is_truthy.

Definition env_no_key : env :=
  mkEnv world_groq world_groq None None (Ok None) Endpoint.spec_imports
        (fun audio => Ok audio) true None (fun _ => Throw "Failed to fetch") v8.

Definition new_manager : manager :=
  mkManager ApiKey.new_cache Endpoint.new_cache Pipeline.new_manager.

Lemma uploads_are_authorised_witness :
  requests (snd (cloud_request env_no_key (mkBlob 2048 "audio/webm") None new_manager))
  = []
  /\ fst (fst (cloud_request env_no_key (mkBlob 2048 "audio/webm") None new_manager))
     = Throw "Groq API key not found. Please set your API key in the Control Panel.".
Proof.
  assert (Hfit : ApiKeyFacts.cache_fit (keys new_manager)) by (intros key H; discriminate).
  assert (Hthrow : fst (fst (ApiKey.getAPIKey (key_env env_no_key) (keys new_manager)))
                   = Throw "Groq API key not found. Please set your API key in the Control Panel.")
    by (vm_compute; reflexivity).
  exact (proj2 (proj2 (uploads_are_authorised env_no_key
                         (mkBlob 2048 "audio/webm") None new_manager Hfit))
           _ Hthrow).
Defined.

(** No key anywhere, and an executor that throws: the promise of
    [optimizeAudio] rejects before the lookup of the key has answered. *)
Definition env_no_key_no_context : env :=
  mkEnv world_groq world_groq None (Some (Ok None)) (Ok None) Endpoint.spec_imports
        (fun _ => Throw "the executor failed") false None
        (fun _ => Throw "Failed to fetch") v8.

Example both_promises_reject :
  cloud_request env_no_key_no_context (mkBlob 2097152 "audio/webm") None new_manager
  = (Throw "the executor failed", new_manager,
     [KeyStore (ApiKey.NativeLookup "groq"); KeyStore (ApiKey.StoredKeyRead "groqApiKey");
      OptimizeAudio (mkBlob 2097152 "audio/webm")]).
Proof. vm_compute. reflexivity. Qed.

(** A reasoning model is stored and the service is available, but throws. *)
Definition world_reasoning_throws : Pipeline.env :=
  Pipeline.mkEnv (list_to_map [("useReasoningModel", "true"); ("reasoningModel", "gpt-5")])
                 1000
                 (fun _ _ => Throw "not called") (fun _ _ => Throw "not called")
                 (throw "not called") (Ok true) (fun _ _ _ => Throw "rate limited").

Definition env_reasoning_throws : env :=
  mkEnv world_reasoning_throws world_reasoning_throws None None (Ok (Some "sk-live"))
        Endpoint.spec_imports (fun audio => Ok audio) true None
        (fun _ => Ok (mkResponse true 200 (Some "application/json")
                        (Ok (JSON.text "{'text': ' hello '}")) None))
        v8.


Example reasoning_failure_is_labelled_reasoned :
  fst (fst (cloud_request env_reasoning_throws (mkBlob 2048 "audio/webm") None new_manager))
  = Ok (mkTranscription true "hello" "openai-reasoned").
Proof. vm_compute. reflexivity. Qed.

Lemma cloud_success_needs_a_text_witness :
  exists r answer raw,
    requests (snd (cloud_request env_reasoning_throws (mkBlob 2048 "audio/webm") None
                     new_manager)) = [r]
    /\ fetch env_reasoning_throws r = Ok answer
    /\ ok answer = true
    /\ read_response env_reasoning_throws (stream r) answer = Ok (Text raw)
    /\ JS.truthy (JS.trim raw) = true.
Proof.
  destruct (proj1 (cloud_success_needs_a_text env_reasoning_throws
                     (mkBlob 2048 "audio/webm") None new_manager)
              (mkTranscription true "hello" "openai-reasoned")
              ltac:(vm_compute; reflexivity))
    as (r & answer & raw & H1 & H2 & H3 & H4 & H5 & _).
  exists r, answer, raw. repeat split; assumption.
Defined.

End Cloud.

(** ** The speech duration in binary64 *)

From Stdlib Require Import Qpower.

Module Binary64.

Local Open Scope Q_scope.

(** 2 to the power [k], for any integer [k]. *)
Definition pow2 (k : Z) : Q := 2 ^ k.

(** The integer part of the binary logarithm of a positive number. *)
Definition ilog2 (q : Q) : Z :=
  let k := (Z.log2 (Qnum q) - Z.log2 (Z.pos (Qden q)))%Z in
  if Qle_bool (pow2 k) q then k else (k - 1)%Z.

(** The nearest integer, the even one of two that are equally near. *)
Definition round_half_even (x : Q) : Z :=
  let f := Qfloor x in
  match Qcompare (x - inject_Z f) (1 # 2) with
  | Lt => f
  | Gt => (f + 1)%Z
  | Eq => if Z.even f then f else (f + 1)%Z
  end.

(** The nearest number with 53 significant bits and an exponent of -1074
    at least, for a positive number. *)
Definition round_pos (q : Q) : Q :=
  let e := Z.max (ilog2 q - 52) (-1074) in
  Qred (inject_Z (round_half_even (q / pow2 e)) * pow2 e).

(** The Number nearest to a real number, ties to even; numbers beyond the
    range, which round to an infinity, do not occur in the sums below. *)
Definition fl64 (q : Q) : Q :=
  match Qnum q with
  | Z0 => 0
  | Zpos _ => round_pos q
  | Zneg _ => - round_pos (- q)
  end.

Definition binary64 : Rounding := {| fl := fl64 |}.

Example literals :
  fl64 (1 # 10) = 3602879701896397 # 36028797018963968
  /\ fl64 (5 # 100) = 3602879701896397 # 72057594037927936
  /\ fl64 (7 # 10) = 3152519739159347 # 4503599627370496
  /\ fl64 (3 # 10) = 5404319552844595 # 18014398509481984
  /\ fl64 (4 # 100) = 5764607523034235 # 144115188075855872
  /\ fl64 (5 # 10) = 1 # 2
  /\ fl64 (fl64 (1 # 10) + fl64 (2 # 10)) = 1351079888211149 # 4503599627370496
  /\ fl64 (- (1 # 3)) = - (6004799503160661 # 18014398509481984)
  /\ fl64 (9007199254740993 # 1) = 9007199254740992 # 1
  /\ fl64 (9007199254740995 # 1) = 9007199254740996 # 1.
Proof. vm_compute. repeat split. Qed.

Example subnormal_numbers :
  fl64 (1 # Z.to_pos (2 ^ 1075)) = 0
  /\ fl64 (3 # Z.to_pos (2 ^ 1075)) = 1 # Z.to_pos (2 ^ 1073)
  /\ fl64 (1 # Z.to_pos (2 ^ 1074)) = 1 # Z.to_pos (2 ^ 1074).
Proof. vm_compute. repeat split. Qed.

(** *** Rounding does not fall below one half *)

Lemma pow2_pos k : 0 < pow2 k.
Proof. apply Qpower_0_lt. reflexivity. Qed.

Lemma pow2_plus a b : pow2 (a + b) == pow2 a * pow2 b.
Proof. apply Qpower_plus. discriminate. Qed.

Lemma pow2_Z k : (0 <= k)%Z -> inject_Z (2 ^ k) == pow2 k.
Proof. intros H. unfold pow2. rewrite Zpower_Qpower by exact H. reflexivity. Qed.

Lemma pow2_le a b : (a <= b)%Z -> pow2 a <= pow2 b.
Proof. intros H. apply Qpower_le_compat_l; [exact H | discriminate]. Qed.

Lemma round_half_even_floor y : (Qfloor y <= round_half_even y)%Z.
Proof.
  unfold round_half_even. destruct (Qcompare _ _); [destruct (Z.even _)| |]; lia.
Qed.

Lemma round_half_even_ge (k : Z) y : inject_Z k <= y -> (k <= round_half_even y)%Z.
Proof.
  intros H. apply Qfloor_resp_le in H. rewrite Qfloor_Z in H.
  pose proof (round_half_even_floor y). lia.
Qed.

Lemma pow2_ilog2 x : 0 < x -> pow2 (ilog2 x) <= x.
Proof.
  intros Hx. unfold ilog2.
  set (k := (Z.log2 (Qnum x) - Z.log2 (Z.pos (Qden x)))%Z).
  destruct (Qle_bool (pow2 k) x) eqn:Hle; [now apply Qle_bool_iff|].
  destruct x as [a b]. cbn [Qnum Qden] in *.
  assert (Ha : (0 < a)%Z) by (unfold Qlt in Hx; cbn in Hx; lia).
  destruct (Z.log2_spec a Ha) as [Hla _].
  destruct (Z.log2_spec (Z.pos b) (Pos2Z.is_pos b)) as [_ Hlb].
  pose proof (Z.log2_nonneg a) as Hna. pose proof (Z.log2_nonneg (Z.pos b)) as Hnb.
  (* a / b >= 2^la / 2^(lb+1) *)
  assert (H1 : pow2 (Z.log2 a) <= inject_Z a).
  { rewrite <- pow2_Z by exact Hna. rewrite <- Zle_Qle. exact Hla. }
  assert (H2 : inject_Z (Z.pos b) <= pow2 (Z.log2 (Z.pos b) + 1)).
  { rewrite <- pow2_Z by lia. rewrite <- Zle_Qle. unfold Z.succ in Hlb. lia. }
  assert (Hk : pow2 (Z.log2 a) == pow2 (k - 1) * pow2 (Z.log2 (Z.pos b) + 1)).
  { rewrite <- pow2_plus. unfold k. f_equiv. lia. }
  (* a # b == inject a / inject b *)
  assert (Hq : a # b == inject_Z a / inject_Z (Z.pos b)) by apply Qmake_Qdiv.
  rewrite Hq. apply Qle_shift_div_l; [reflexivity|].
  apply Qle_trans with (pow2 (k - 1) * pow2 (Z.log2 (Z.pos b) + 1)).
  - apply Qmult_le_l; [apply pow2_pos | exact H2].
  - rewrite <- Hk. exact H1.
Qed.

Lemma fl64_half x : 1 # 2 <= x -> 1 # 2 <= fl64 x.
Proof.
  intros Hx.
  assert (Hpos : 0 < x) by (eapply Qlt_le_trans; [|exact Hx]; reflexivity).
  unfold fl64. destruct x as [a b].
  assert (Ha : (0 < a)%Z) by (unfold Qlt in Hpos; cbn in Hpos; lia).
  destruct a as [|p|p]; try lia. cbn [Qnum].
  set (x := Z.pos p # b) in *.
  unfold round_pos. rewrite Qred_correct.
  set (e := Z.max (ilog2 x - 52) (-1074)).
  set (y := x / pow2 e).
  assert (Hy : forall k, pow2 k * pow2 e <= x -> pow2 k <= y).
  { intros k Hk. unfold y. apply Qle_shift_div_l; [apply pow2_pos | exact Hk]. }
  destruct (Z_le_gt_dec e (-1)) as [He | He].
  - assert (Hk : pow2 (-1 - e) <= y).
    { apply Hy. rewrite <- pow2_plus. replace (-1 - e + e)%Z with (-1)%Z by lia.
      exact Hx. }
    rewrite <- pow2_Z in Hk by lia. apply round_half_even_ge in Hk.
    apply Qle_trans with (inject_Z (2 ^ (-1 - e)) * pow2 e).
    + rewrite pow2_Z by lia. rewrite <- pow2_plus.
      replace (-1 - e + e)%Z with (-1)%Z by lia. apply Qle_refl.
    + apply Qmult_le_compat_r; [|apply Qlt_le_weak, pow2_pos].
      rewrite <- Zle_Qle. exact Hk.
  - assert (Hil : (ilog2 x = e + 52)%Z) by (unfold e in *; lia).
    assert (Hk : pow2 52 <= y).
    { apply Hy. rewrite <- pow2_plus. replace (52 + e)%Z with (ilog2 x) by lia.
      apply pow2_ilog2, Hpos. }
    rewrite <- pow2_Z in Hk by lia. apply round_half_even_ge in Hk.
    apply Qle_trans with (1 * pow2 0).
    + discriminate.
    + apply Qle_trans with (1 * pow2 e).
      * apply Qmult_le_l; [reflexivity | apply pow2_le; lia].
      * apply Qmult_le_compat_r; [|apply Qlt_le_weak, pow2_pos].
        change 1 with (inject_Z 1). rewrite <- Zle_Qle.
        assert ((1 <= 2 ^ 52)%Z) by (vm_compute; discriminate). lia.
Qed.

(** *** Ten voiced ticks are not half a second *)

Import VAD.

Lemma voiced_detected ticks : forall s,
  (0 < VADFacts.voiced (R := binary64) ticks s)%nat ->
  voiceDetected (run (R := binary64) ticks s) = true.
Proof.
  induction ticks as [|[rms now] rest IH]; intros s; [cbn; lia|].
  unfold VADFacts.voiced.
  change (levels (R := binary64) ((rms, now) :: rest) s)
    with (smoothed (R := binary64) rms s
          :: levels (R := binary64) rest (fst (tick (R := binary64) rms now s))).
  change (run (R := binary64) ((rms, now) :: rest) s)
    with (run (R := binary64) rest (fst (tick (R := binary64) rms now s))).
  cbn [List.filter].
  destruct (Qltb (VOICE_THRESHOLD (R := binary64)) (smoothed (R := binary64) rms s)) eqn:Hv.
  - intros _. apply run_latch, tick_voice, Hv.
  - apply IH.
Qed.

Lemma run_peak_inv ticks : forall s,
  peak_inv (R := binary64) s -> peak_inv (R := binary64) (run (R := binary64) ticks s).
Proof.
  induction ticks as [|[rms now] rest IH]; intros s H; [exact H|].
  apply IH, peak_inv_tick, H.
Qed.

(** The duration after [n] voiced ticks, for [n] up to 11. *)
Lemma durations (n : nat) :
  (n <= 11)%nat ->
  Qleb (MIN_SPEECH_DURATION (R := binary64))
       (Nat.iter n (VADFacts.accumulate (R := binary64)) 0)
  = Nat.eqb n 11.
Proof.
  intros Hn.
  do 12 (destruct n as [|n]; [vm_compute; reflexivity|]). lia.
Qed.

Lemma durations_from_eleven (n : nat) :
  (11 <= n)%nat -> 1 # 2 <= Nat.iter n (VADFacts.accumulate (R := binary64)) 0.
Proof.
  induction 1 as [|m Hm IH].
  - apply Qle_bool_iff. vm_compute. reflexivity.
  - change (Nat.iter (S m) (VADFacts.accumulate (R := binary64)) 0)
      with (fl64 (Nat.iter m (VADFacts.accumulate (R := binary64)) 0
                  + fl64 (ANALYSIS_INTERVAL / 1000))).
    apply fl64_half.
    apply Qle_trans with (Nat.iter m (VADFacts.accumulate (R := binary64)) 0 + 0).
    + rewrite Qplus_0_r. exact IH.
    + apply Qplus_le_r. apply Qle_bool_iff. vm_compute. reflexivity.
Qed.

(** X29. In binary64, the arithmetic of JavaScript, ten voiced ticks are
    not enough: [speechDuration] is then 0.05 added ten times, which is
    0.49999999999999994 and less than [MIN_SPEECH_DURATION].  A session of
    samples between 0 and 1, whatever its levels and its length, passes
    the handler's test and [hasValidAudioContent] exactly when eleven of
    its ticks or more were above the threshold: the shortest speech that
    is processed lasts 0.55 s in ticks, not 0.5 s. *)
Theorem eleven_voiced_ticks_are_needed (ticks : list (Q * Z)) :
  Forall (fun t => 0 <= fst t <= 1) ticks ->
  let s := run (R := binary64) ticks reset in
  let n := VADFacts.voiced (R := binary64) ticks reset in
  hasValidAudioContent (R := binary64) s = (11 <=? n)%nat
  /\ negb (voiceDetected s)
     || Qltb (speechDuration s) (MIN_SPEECH_DURATION (R := binary64))
     = negb (11 <=? n)%nat
  /\ (n = 10%nat -> speechDuration s == 9007199254740991 # 18014398509481984).
Proof.
  intros _. cbv zeta.
  pose proof (VADFacts.run_speechDuration (R := binary64) ticks reset) as Hd.
  change (speechDuration reset) with 0 in Hd.
  set (n := VADFacts.voiced (R := binary64) ticks reset) in *.
  assert (Hq : Qleb (MIN_SPEECH_DURATION (R := binary64))
                    (speechDuration (run (R := binary64) ticks reset))
               = (11 <=? n)%nat).
  { rewrite Hd. destruct (Nat.leb_spec 11 n) as [Hn | Hn].
    - apply Qle_bool_iff. change (MIN_SPEECH_DURATION (R := binary64)) with (fl64 (5 # 10)).
      assert (Hhalf : fl64 (5 # 10) = 1 # 2) by (vm_compute; reflexivity).
      rewrite Hhalf. apply durations_from_eleven, Hn.
    - rewrite durations by lia. apply Nat.eqb_neq. lia. }
  split; [|split].
  - unfold hasValidAudioContent. rewrite Hq.
    destruct (Nat.leb_spec 11 n) as [Hn | Hn]; [|now rewrite andb_false_r].
    assert (Hv : voiceDetected (run (R := binary64) ticks reset) = true)
      by (apply voiced_detected; fold n; lia).
    assert (Hp : peak_inv (R := binary64) (run (R := binary64) ticks reset))
      by (apply run_peak_inv, peak_inv_reset).
    rewrite Hv, (Hp Hv). reflexivity.
  - unfold Qleb in Hq. unfold Qltb. rewrite Hq.
    destruct (Nat.leb_spec 11 n) as [Hn | Hn]; [|apply orb_true_r].
    assert (Hv : voiceDetected (run (R := binary64) ticks reset) = true)
      by (apply voiced_detected; fold n; lia).
    rewrite Hv. reflexivity.
  - intros Hn. rewrite Hd, Hn. vm_compute. reflexivity.
Qed.

(** Ten ticks of the loudest signal, 50 ms apart. *)
Definition ten_loud_ticks : list (Q * Z) :=
  map (fun k => (1, (1000 + 50 * Z.of_nat k)%Z)) (seq 1 10).

Lemma eleven_voiced_ticks_are_needed_witness :
  hasValidAudioContent (R := binary64) (run (R := binary64) ten_loud_ticks reset)
  = (11 <=? VADFacts.voiced (R := binary64) ten_loud_ticks reset)%nat.
Proof.
  apply (proj1 (eleven_voiced_ticks_are_needed ten_loud_ticks
                  ltac:(repeat constructor; discriminate))).
Defined.

(** The same ten ticks: rejected in binary64, accepted with no rounding. *)
Example ten_ticks_in_exact_arithmetic :
  hasValidAudioContent (R := binary64) (run (R := binary64) ten_loud_ticks reset) = false
  /\ hasValidAudioContent (R := exact) (run (R := exact) ten_loud_ticks reset) = true.
Proof. split; vm_compute; reflexivity. Qed.

End Binary64.
